(** * arxiv_collector.py: the resumable arXiv ingestion engine

    A shallow embedding of [ArxivCollector] (src/arxiv_collector.py).  The
    SQLite database is a record of three tables, each a list of rows in
    insertion order; uniqueness constraints are enforced by the insertion
    operations ([INSERT OR IGNORE]), as SQLite does, not by the types.  The
    outside world (arXiv, the signal handler, the wall clock, the file
    system) is an [environment] of functions of the history of interactions
    so far. *)

From stdpp Require Import base list strings.
From Stdlib Require Import ZArith Lia Ascii String Sorted DecimalString.

Open Scope string_scope.
Open Scope list_scope.
Open Scope Z_scope.

(* ================================================================== *)
(** * Python string operations used by the collector                   *)
(* ================================================================== *)

Module PyStr.

(** [s.split(sep)] for a one-character separator: never empty, and an
    empty field between two adjacent separators. *)
Fixpoint split (sep : ascii) (s : string) : list string :=
  match s with
  | EmptyString => [EmptyString]
  | String c s' =>
      if Ascii.eqb c sep then EmptyString :: split sep s'
      else match split sep s' with
           | [] => [String c EmptyString]
           | w :: ws => String c w :: ws
           end
  end.

(** [l[-1]] and [l[0]] on the result of a split (which is never empty). *)
Definition last_item (l : list string) : string := List.last l EmptyString.
Definition first_item (l : list string) : string := List.hd EmptyString l.

(** [c in s] for a character [c]. *)
Fixpoint contains (c : ascii) (s : string) : bool :=
  match s with
  | EmptyString => false
  | String d s' => Ascii.eqb d c || contains c s'
  end.

(** [s.replace(a, b)] for characters [a] and [b]. *)
Fixpoint replace (a b : ascii) (s : string) : string :=
  match s with
  | EmptyString => EmptyString
  | String c s' => String (if Ascii.eqb c a then b else c) (replace a b s')
  end.

(** The characters [str.strip()] removes, in the ASCII range. *)
Definition isspace (c : ascii) : bool :=
  let n := nat_of_ascii c in
  ((9 <=? n) && (n <=? 13) || (28 <=? n) && (n <=? 32))%nat.

Fixpoint lstrip (s : string) : string :=
  match s with
  | EmptyString => EmptyString
  | String c s' => if isspace c then lstrip s' else s
  end.

Fixpoint rstrip (s : string) : string :=
  match s with
  | EmptyString => EmptyString
  | String c s' =>
      match rstrip s' with
      | EmptyString => if isspace c then EmptyString else String c EmptyString
      | r => String c r
      end
  end.

Definition strip (s : string) : string := rstrip (lstrip s).

Definition is_digit (c : ascii) : bool :=
  let n := nat_of_ascii c in ((48 <=? n) && (n <=? 57))%nat.

End PyStr.

(* ================================================================== *)
(** * Feed entries and papers                                          *)
(* ================================================================== *)

(** One typed link of a feed entry. *)
Record feed_link := { href : string; link_type : string }.

(** A feed entry as [feedparser] exposes it.  [entry_authors],
    [entry_tags], [published] and [updated] are read with a default
    ([getattr(entry, ..., default)] or [hasattr]), so an absent attribute
    is the empty list, [None] or the empty string.
    [arxiv_primary_category] holds the [term] of the dict stored for the
    element [arxiv:primary_category] when the entry has one. *)
Record entry := {
  entry_id : string;
  entry_title : string;
  entry_authors : list string;
  summary : string;
  arxiv_primary_category : option string;
  tags : list string;
  published : string;
  updated : string;
  links : list feed_link;
  link : string
}.

(** The dictionary [query_arxiv] builds for one entry.  [authors] and
    [categories] are JSON texts in the source ([json.dumps] of a list of
    strings); the lists themselves are kept here. *)
Record paper := {
  arxiv_id : string;
  title : string;
  authors : list string;
  abstract : string;
  categories : list string;
  published_date : string;
  updated_date : string;
  pdf_url : string;
  entry_url : string
}.

(** Lines 170-172: the last path segment of the entry id, cut at its
    first ['v'] when it has one. *)
Definition extract_arxiv_id (id : string) : string :=
  let arxiv_id := PyStr.last_item (PyStr.split "/" id) in
  if PyStr.contains "v" arxiv_id
  then PyStr.first_item (PyStr.split "v" arxiv_id)
  else arxiv_id.

(** [str(e)] of the [AttributeError] of line 180. *)
Definition attribute_error : string := "'dict' object has no attribute 'term'".

(** Lines 178-182.  [feedparser] has no handler for the element
    [arxiv:primary_category] and stores its attributes as a plain [dict],
    so [hasattr] holds and the read of [.term] at line 180 raises
    [AttributeError]: the value of the field is never reached.  Without
    the element [categories] is empty when the tags are filtered, so every
    tag is kept. *)
Definition extract_categories (e : entry) : list string + string :=
  match arxiv_primary_category e with
  | Some _ => inr attribute_error
  | None =>
      let categories : list string := [] in
      inl (categories ++
           List.filter (fun t => negb (existsb (String.eqb t) categories)) (tags e))
  end.

(** Line 192: the first link whose type is [application/pdf], else ['']. *)
Definition extract_pdf_url (e : entry) : string :=
  match List.find (fun l => String.eqb (link_type l) "application/pdf") (links e) with
  | Some l => href l
  | None => EmptyString
  end.

Definition newline : ascii := ascii_of_nat 10.
Definition space : ascii := ascii_of_nat 32.

(** Lines 184-194: the dictionary of an entry whose categories are
    [categories]. *)
Definition paper_dict (e : entry) (categories : list string) : paper :=
  {| arxiv_id := extract_arxiv_id (entry_id e);
     title := PyStr.strip (PyStr.replace newline space (entry_title e));
     authors := entry_authors e;
     abstract := PyStr.strip (PyStr.replace newline space (summary e));
     categories := categories;
     published_date := published e;
     updated_date := updated e;
     pdf_url := extract_pdf_url e;
     entry_url := link e |}.

(** Lines 168-196: the body of the loop over [feed.entries], which
    gives the paper of the entry or raises. *)
Definition paper_of_entry (e : entry) : paper + string :=
  match extract_categories e with
  | inl categories => inl (paper_dict e categories)
  | inr msg => inr msg
  end.

(** Lines 165-198: the loop over [feed.entries]; the first entry that
    raises ends it. *)
Fixpoint papers_of_entries (entries : list entry) : list paper + string :=
  match entries with
  | [] => inl []
  | e :: rest =>
      match paper_of_entry e with
      | inr msg => inr msg
      | inl p =>
          match papers_of_entries rest with
          | inl ps => inl (p :: ps)
          | inr msg => inr msg
          end
      end
  end.

(** The version suffix as the specification words it: a trailing ['v']
    followed by one or more digits is removed, and nothing else is. *)
Module SpecWords.

Fixpoint all_digits (s : string) : bool :=
  match s with
  | EmptyString => true
  | String c s' => PyStr.is_digit c && all_digits s'
  end.

Fixpoint strip_version (s : string) : string :=
  match s with
  | EmptyString => EmptyString
  | String c s' =>
      if Ascii.eqb c "v" && all_digits s' && negb (String.eqb s' EmptyString)
      then EmptyString
      else String c (strip_version s')
  end.

End SpecWords.

(* ================================================================== *)
(** * The SQLite database                                              *)
(* ================================================================== *)

(** The values the code writes to [keywords.status]. *)
Inductive query_status :=
  | pending | processing | completed | failed | interrupted.

(** A row of [papers]: the nine inserted columns and [created_at]. *)
Record paper_row := { row_paper : paper; created_at : nat }.

(** A row of [keywords]. *)
Record keyword_row := {
  keyword_id : Z;
  keyword : string;
  total_results : Z;
  processed_results : Z;
  status : query_status;
  started_at : option nat;
  completed_at : option nat;
  error_message : option string
}.

(** The three tables, rows in insertion order, and the AUTOINCREMENT
    counter of [keywords] (the largest id ever handed out). *)
Record database := {
  papers : list paper_row;
  keywords : list keyword_row;
  paper_keywords : list (string * Z);
  sqlite_sequence : Z
}.

(** [setup_database] on a fresh file: [CREATE TABLE IF NOT EXISTS] thrice. *)
Definition setup_database : database :=
  {| papers := []; keywords := []; paper_keywords := []; sqlite_sequence := 0 |}.

Definition has_paper (id : string) (t : list paper_row) : bool :=
  existsb (fun r => String.eqb (arxiv_id (row_paper r)) id) t.

(** [INSERT OR IGNORE INTO papers ...]: the new table and [rowcount]. *)
Definition insert_paper (now : nat) (p : paper) (t : list paper_row)
  : list paper_row * Z :=
  if has_paper (arxiv_id p) t then (t, 0)
  else (t ++ [{| row_paper := p; created_at := now |}], 1).

Definition has_link (paper_id : string) (kid : Z) (t : list (string * Z)) : bool :=
  existsb (fun l => String.eqb (fst l) paper_id && (snd l =? kid)) t.

(** [INSERT OR IGNORE INTO paper_keywords ...]: the new table and
    [rowcount]. *)
Definition insert_link (paper_id : string) (kid : Z) (t : list (string * Z))
  : list (string * Z) * Z :=
  if has_link paper_id kid t then (t, 0) else (t ++ [(paper_id, kid)], 1).

(** One round of the loop of [store_papers] (lines 211-232).  The
    [rowcount] that is tested is the cursor's after the second
    statement. *)
Definition store_paper (now : nat) (kid : Z) (acc : database * Z) (p : paper)
  : database * Z :=
  let d := fst acc in
  let stored_count := snd acc in
  let ins := insert_paper now p (papers d) in
  let lnk := insert_link (arxiv_id p) kid (paper_keywords d) in
  let rowcount := snd lnk in
  ({| papers := fst ins;
      keywords := keywords d;
      paper_keywords := fst lnk;
      sqlite_sequence := sqlite_sequence d |},
   if 0 <? rowcount then stored_count + 1 else stored_count).

(** [store_papers(papers, keyword_id)]: the database after the commit and
    the returned [stored_count]. *)
Definition store_papers (now : nat) (ps : list paper) (kid : Z) (d : database)
  : database * Z :=
  fold_left (store_paper now kid) ps (d, 0).

Definition has_keyword (k : string) (t : list keyword_row) : bool :=
  existsb (fun r => String.eqb (keyword r) k) t.

Definition max_rowid (t : list keyword_row) : Z :=
  fold_right (fun r m => Z.max (keyword_id r) m) 0 t.

(** [INSERT OR IGNORE INTO keywords (keyword) VALUES (?)].  The id is
    taken above every id in the table and every id handed out before
    ([AUTOINCREMENT]), and the counter is moved to it, before the [UNIQUE]
    constraint is checked: when the text is there the row is not added, but
    the id is used up all the same.  A row added has the column defaults. *)
Definition insert_keyword (d : database) (k : string) : database :=
  let id := Z.max (sqlite_sequence d) (max_rowid (keywords d)) + 1 in
  {| papers := papers d;
     keywords :=
       if has_keyword k (keywords d) then keywords d
       else keywords d ++
         [{| keyword_id := id; keyword := k; total_results := 0;
             processed_results := 0; status := pending; started_at := None;
             completed_at := None; error_message := None |}];
     paper_keywords := paper_keywords d;
     sqlite_sequence := id |}.

(** [UPDATE keywords SET ... WHERE id = ?]. *)
Definition update_keyword (kid : Z) (f : keyword_row -> keyword_row) (d : database)
  : database :=
  {| papers := papers d;
     keywords := List.map (fun r => if keyword_id r =? kid then f r else r) (keywords d);
     paper_keywords := paper_keywords d;
     sqlite_sequence := sqlite_sequence d |}.

Definition set_processing (now : nat) (r : keyword_row) : keyword_row :=
  {| keyword_id := keyword_id r; keyword := keyword r;
     total_results := total_results r; processed_results := processed_results r;
     status := processing; started_at := Some now;
     completed_at := completed_at r; error_message := error_message r |}.

Definition set_progress (total processed : Z) (r : keyword_row) : keyword_row :=
  {| keyword_id := keyword_id r; keyword := keyword r;
     total_results := total; processed_results := processed;
     status := status r; started_at := started_at r;
     completed_at := completed_at r; error_message := error_message r |}.

Definition set_finished (s : query_status) (now : nat) (r : keyword_row) : keyword_row :=
  {| keyword_id := keyword_id r; keyword := keyword r;
     total_results := total_results r; processed_results := processed_results r;
     status := s; started_at := started_at r;
     completed_at := Some now; error_message := error_message r |}.

Definition set_failed (msg : string) (now : nat) (r : keyword_row) : keyword_row :=
  {| keyword_id := keyword_id r; keyword := keyword r;
     total_results := total_results r; processed_results := processed_results r;
     status := failed; started_at := started_at r;
     completed_at := Some now; error_message := Some msg |}.

(** The row with a given id, for stating properties. *)
Definition lookup_keyword (kid : Z) (d : database) : option keyword_row :=
  List.find (fun r => keyword_id r =? kid) (keywords d).

(** The rows of [papers] with a given identifier. *)
Definition papers_with_id (id : string) (d : database) : list paper_row :=
  List.filter (fun r => String.eqb (arxiv_id (row_paper r)) id) (papers d).

(** The rows of [paper_keywords] for a given pair. *)
Definition links_with (id : string) (kid : Z) (d : database) : list (string * Z) :=
  List.filter (fun l => String.eqb (fst l) id && (snd l =? kid)) (paper_keywords d).

(** [WHERE status IN ('pending', 'failed')]. *)
Definition eligible (r : keyword_row) : bool :=
  match status r with
  | pending | failed => true
  | _ => false
  end.

(** [ORDER BY id], as an insertion sort. *)
Fixpoint insert_by_id (r : keyword_row) (l : list keyword_row) : list keyword_row :=
  match l with
  | [] => [r]
  | x :: l' =>
      if keyword_id r <=? keyword_id x then r :: l else x :: insert_by_id r l'
  end.

Definition order_by_id (l : list keyword_row) : list keyword_row :=
  fold_right insert_by_id [] l.

(** [get_pending_keywords] (lines 339-348). *)
Definition get_pending_keywords (d : database) : list (Z * string) :=
  List.map (fun r => (keyword_id r, keyword r))
           (order_by_id (List.filter eligible (keywords d))).

(* ================================================================== *)
(** * The outside world                                                *)
(* ================================================================== *)

(** What one upstream call yields: the parsed feed, or an exception
    ([urlopen] failing or timing out, a status of 400 or more, a feed that
    does not parse into the expected shape) with its text [str(e)]. *)
Inductive response :=
  | Feed (entries : list entry) (opensearch_totalresults : Z)
  | Raise (message : string).

(** The interactions of a run with the outside, in order. *)
Inductive event :=
  | FlagRead (b : bool)                          (* self.shutdown_requested read *)
  | Request (kw : string) (start max_results : Z) (* urlopen(build_query_url(..)) *)
  | Sleep                                        (* time.sleep(self.delay) *)
  | OpenKeywordsFile                             (* open(keywords_file) *)
  | LogProcessing (kw : string).                 (* "Processing keyword: ..." *)

(** The outside as functions of the history so far: the upstream API,
    the flag the signal handler sets, the clock behind
    [CURRENT_TIMESTAMP], the lines of the keywords file and whether the
    database file exists when [run] looks. *)
Record environment := {
  urlopen : list event -> string -> Z -> Z -> response;
  shutdown_requested : list event -> bool;
  CURRENT_TIMESTAMP : list event -> nat;
  keywords_file : list string;
  db_path_exists : bool
}.

(** The state a run threads through: the database and the history. *)
Record world := { db : database; history : list event }.

Definition emit (ev : event) (w : world) : world :=
  {| db := db w; history := history w ++ [ev] |}.

Definition with_db (d : database) (w : world) : world :=
  {| db := d; history := history w |}.

(** Reading [self.shutdown_requested]. *)
Definition read_flag (E : environment) (w : world) : bool * world :=
  let b := shutdown_requested E (history w) in (b, emit (FlagRead b) w).

Definition now (E : environment) (w : world) : nat :=
  CURRENT_TIMESTAMP E (history w).

(* ================================================================== *)
(** * The collector                                                    *)
(* ================================================================== *)

(** Lines 29-30. *)
Definition batch_size : Z := 500.
Definition max_results_per_keyword : Z := 2000.

(** [load_keywords] (lines 113-131): the stripped non-blank lines, each
    inserted with [INSERT OR IGNORE]; returns their number. *)
Definition read_keywords (lines : list string) : list string :=
  List.map PyStr.strip
    (List.filter (fun l => negb (String.eqb (PyStr.strip l) EmptyString)) lines).

Definition load_keywords (E : environment) (w : world) : Z * world :=
  let kws := read_keywords (keywords_file E) in
  let w1 := emit OpenKeywordsFile w in
  (Z.of_nat (List.length kws), with_db (fold_left insert_keyword kws (db w1)) w1).

(** [build_query_url] (lines 133-150): the parameters [start] and
    [max_results] of the request; the search expression is the keyword. *)
Definition build_query_url (kw : string) (start : Z) (max_results : option Z)
  : string * Z * Z :=
  let max_results := match max_results with Some m => m | None => batch_size end in
  (kw, start, Z.min max_results batch_size).

(** [query_arxiv] (lines 152-202): the papers of the page and the
    reported total, or the exception, re-raised (lines 200-202), of the
    upstream call or of the loop over the entries. *)
Definition query_arxiv (E : environment) (kw : string) (start : Z)
    (max_results : option Z) (w : world)
  : (list paper * Z + string) * world :=
  let '(q, s, m) := build_query_url kw start max_results in
  let w1 := emit (Request q s m) w in
  match urlopen E (history w) q s m with
  | Feed entries total =>
      match papers_of_entries entries with
      | inl ps => (inl (ps, total), w1)
      | inr msg => (inr msg, w1)
      end
  | Raise msg => (inr msg, w1)
  end.

(** The local variables of [process_keyword] (lines 255-258). *)
Record locals := {
  start : Z;
  total_processed : Z;
  total_stored : Z;
  found_total : Z        (* the local [total_results] *)
}.

(** How the [while] loop of [process_keyword] is left. *)
Inductive loop_exit :=
  | Done (st : locals)
  | Failed (msg : string).

(** Lines 270-287: the page is stored and the progress recorded. *)
Definition commit_page (E : environment) (kid : Z) (st : locals)
    (ps : list paper) (api_total_results : Z) (w : world) : locals * world :=
  let total :=
    if start st =? 0
    then Z.min api_total_results max_results_per_keyword
    else found_total st in
  let sp := store_papers (now E w) ps kid (db w) in
  let stored_count := snd sp in
  let processed := total_processed st + Z.of_nat (List.length ps) in
  ({| start := start st; total_processed := processed;
      total_stored := total_stored st + stored_count; found_total := total |},
   with_db (update_keyword kid (set_progress total processed) (fst sp)) w).

(** Lines 297-300: the delay before the next request. *)
Definition rate_limit (E : environment) (st : locals) (w : world) : world :=
  if start st <? found_total st
  then let (b, w') := read_flag E w in
       if negb b then emit Sleep w' else w'
  else w.

(** Line 295. *)
Definition advance (n : Z) (st : locals) : locals :=
  {| start := start st + n; total_processed := total_processed st;
     total_stored := total_stored st; found_total := found_total st |}.

(** One round of the [while] loop either leaves it ([break] or an
    exception) or goes back to its head. *)
Inductive round_result :=
  | Stop (x : loop_exit) (w : world)
  | Next (st : locals) (w : world).

(** The body of the [while] loop (lines 262-300). *)
Definition page_round (E : environment) (kw : string) (kid : Z)
    (st : locals) (w : world) : round_result :=
  let (stop, w1) := read_flag E w in
  if stop then Stop (Done st) w1
  else
    match query_arxiv E kw (start st)
            (Some (Z.min batch_size (max_results_per_keyword - start st))) w1 with
    | (inr msg, w2) => Stop (Failed msg) w2
    | (inl (ps, api_total_results), w2) =>
        let (st4, w4) := commit_page E kid st ps api_total_results w2 in
        if Z.of_nat (List.length ps) <? batch_size then Stop (Done st4) w4
        else
          let st5 := advance (Z.of_nat (List.length ps)) st4 in
          Next st5 (rate_limit E st5 w4)
    end.

(** The [while] loop (lines 261-300).  [fuel] bounds the number of
    rounds; [None] is running out of it. *)
Fixpoint page_loop (fuel : nat) (E : environment) (kw : string) (kid : Z)
    (st : locals) (w : world) : option (loop_exit * world) :=
  if negb (start st <? max_results_per_keyword) then Some (Done st, w)
  else
    match fuel with
    | O => None
    | S fuel' =>
        match page_round E kw kid st w with
        | Stop x w' => Some (x, w')
        | Next st' w' => page_loop fuel' E kw kid st' w'
        end
    end.

(** The dictionary [process_keyword] returns. *)
Record result := {
  res_keyword : string;
  res_total_results : Z;
  res_processed : Z;
  res_stored : Z;
  res_status : query_status
}.

(** [process_keyword] returns its dictionary or re-raises. *)
Inductive outcome :=
  | Returned (r : result)
  | Raised (msg : string).

(** Lines 302-337: what follows the loop, on either way out of it. *)
Definition finish_keyword (E : environment) (kw : string) (kid : Z)
    (x : loop_exit * world) : outcome * world :=
  match x with
  | (Done st, w) =>
      let (b, w1) := read_flag E w in
      let s := if b then interrupted else completed in
      (Returned {| res_keyword := kw; res_total_results := found_total st;
                   res_processed := total_processed st;
                   res_stored := total_stored st; res_status := s |},
       with_db (update_keyword kid (set_finished s (now E w1)) (db w1)) w1)
  | (Failed msg, w) =>
      (Raised msg, with_db (update_keyword kid (set_failed msg (now E w)) (db w)) w)
  end.

(** Enough rounds for the offset to reach the ceiling one record at a
    time. *)
Definition rounds (st : locals) : nat := Z.to_nat (max_results_per_keyword - start st).

(** [process_keyword] from the head of its loop, with locals [st]. *)
Definition continue_keyword (E : environment) (kw : string) (kid : Z)
    (st : locals) (w : world) : option (outcome * world) :=
  option_map (finish_keyword E kw kid) (page_loop (rounds st) E kw kid st w).

(** Lines 243-258: the log line, the row marked [processing], and the
    locals set to zero. *)
Definition begin_keyword (E : environment) (kw : string) (kid : Z) (w : world)
  : world :=
  let w0 := emit (LogProcessing kw) w in
  with_db (update_keyword kid (set_processing (now E w0)) (db w0)) w0.

Definition initial_locals : locals :=
  {| start := 0; total_processed := 0; total_stored := 0; found_total := 0 |}.

(** [process_keyword] (lines 241-337). *)
Definition process_keyword (E : environment) (kw : string) (kid : Z) (w : world)
  : option (outcome * world) :=
  continue_keyword E kw kid initial_locals (begin_keyword E kw kid w).

(** The loop of [run] over the pending keywords (lines 413-438): an
    exception of [process_keyword] is logged and the loop goes on. *)
Fixpoint run_loop (E : environment) (pending_keywords : list (Z * string))
    (w : world) : option world :=
  match pending_keywords with
  | [] => Some w
  | (kid, kw) :: rest =>
      let (stop, w1) := read_flag E w in
      if stop then Some w1
      else
        match process_keyword E kw kid w1 with
        | None => None
        | Some (Returned _, w2) => run_loop E rest w2
        | Some (Raised _, w2) => run_loop E rest w2
        end
  end.

(** Lines 398-399: the keywords file is loaded on a fresh start or when
    there is no database file. *)
Definition loaded (E : environment) (resume : bool) (w : world) : world :=
  if negb resume || negb (db_path_exists E)
  then snd (load_keywords E w) else w.

(** [run] (lines 393-443). *)
Definition run (E : environment) (resume : bool) (w : world) : option world :=
  let w1 := loaded E resume w in
  let pending_keywords := get_pending_keywords (db w1) in
  match pending_keywords with
  | [] => Some w1
  | _ => run_loop E pending_keywords w1
  end.

(** Successive runs over one database file, each a fresh process (an
    empty history) with its own environment and [resume] argument. *)
Fixpoint runs (jobs : list (environment * bool)) (d : database) : option database :=
  match jobs with
  | [] => Some d
  | (E, resume) :: rest =>
      match run E resume {| db := d; history := [] |} with
      | Some w => runs rest (db w)
      | None => None
      end
  end.

(* ================================================================== *)
(** * Vocabulary of the properties                                     *)
(* ================================================================== *)

(** The constraints of the schema (lines 64-102). *)
Definition papers_pk (d : database) : Prop :=
  List.NoDup (List.map (fun r => arxiv_id (row_paper r)) (papers d)).

Definition links_pk (d : database) : Prop := List.NoDup (paper_keywords d).

(** Ids of [keywords] grow in insertion order ([AUTOINCREMENT]). *)
Definition keywords_ascending (d : database) : Prop :=
  StronglySorted Z.lt (List.map keyword_id (keywords d)).

(** The flag is set by the signal handler and never cleared. *)
Definition flag_monotone (E : environment) : Prop :=
  forall h h', shutdown_requested E h = true -> shutdown_requested E (h ++ h') = true.

Definition never_requested (E : environment) : Prop :=
  forall h, shutdown_requested E h = false.

(** The upstream returns at most the requested number of entries. *)
Definition well_behaved (E : environment) : Prop :=
  forall h kw s m es t,
    urlopen E h kw s m = Feed es t -> Z.of_nat (List.length es) <= Z.max 0 m.

Definition is_flag_read_true (ev : event) : bool :=
  match ev with FlagRead true => true | _ => false end.

Definition is_request (ev : event) : bool :=
  match ev with Request _ _ _ => true | _ => false end.

(** The keywords whose processing a history shows was begun, in order. *)
Fixpoint processing_log (evs : list event) : list string :=
  match evs with
  | [] => []
  | LogProcessing kw :: evs' => kw :: processing_log evs'
  | _ :: evs' => processing_log evs'
  end.

(** No row of [keywords] reports more than the ceiling. *)
Definition within_ceiling (d : database) : Prop :=
  forall r, In r (keywords d) ->
    processed_results r <= max_results_per_keyword /\
    total_results r <= max_results_per_keyword.

(** The rows of [keywords] other than [kid] are the same in [d] and
    [d'], and the papers and links are the same. *)
Definition only_row_changed (kid : Z) (d d' : database) : Prop :=
  papers d' = papers d /\ paper_keywords d' = paper_keywords d /\
  forall k, k <> kid -> lookup_keyword k d' = lookup_keyword k d.

(** The papers and links of [d'] are those of [d] followed by new
    rows, and the constraints carry over. *)
Definition store_grows (d d' : database) : Prop :=
  (exists extra, papers d' = papers d ++ extra) /\
  (exists extra, paper_keywords d' = paper_keywords d ++ extra) /\
  (papers_pk d -> papers_pk d') /\ (links_pk d -> links_pk d').

(** Row by row, [keywords] of [d'] is [keywords] of [d] with the same
    ids, and with the same rows outside the ids [ids]. *)
Definition rows_kept (ids : list Z) (d d' : database) : Prop :=
  Forall2 (fun r r' => (keyword_id r' = keyword_id r /\ keyword r' = keyword r) /\
                       (~ In (keyword_id r) ids -> r' = r))
          (keywords d) (keywords d').

(** The events of the pagination loop. *)
Definition is_loop_event (ev : event) : bool :=
  match ev with
  | FlagRead _ | Request _ _ _ | Sleep => true
  | OpenKeywordsFile | LogProcessing _ => false
  end.

(** Page commits in a row, each with its timestamp, papers and keyword. *)
Definition commit_pages (pages : list (nat * list paper * Z)) (d : database)
  : database :=
  fold_left (fun d page => fst (store_papers (fst (fst page)) (snd (fst page)) (snd page) d))
            pages d.

(** [w'] comes after [w]: the events [evs] happened, the store grew
    and only the rows [ids] of [keywords] were written. *)
Definition follows (ids : list Z) (evs : list event) (w w' : world) : Prop :=
  history w' = history w ++ evs /\
  store_grows (db w) (db w') /\
  rows_kept ids (db w) (db w').

(** The page size a round asks for (lines 267 and 144). *)
Definition request_size (st : locals) : Z :=
  Z.min (Z.min batch_size (max_results_per_keyword - start st)) batch_size.

(** The world in which a round issues its request, what [query_arxiv]
    gives there, the world once the request is out, and the locals and
    world once the page [ps] with reported total [t] is committed. *)
Definition asking (w : world) : world := emit (FlagRead false) w.

Definition answer (E : environment) (kw : string) (st : locals) (w : world)
  : list paper * Z + string :=
  fst (query_arxiv E kw (start st)
         (Some (Z.min batch_size (max_results_per_keyword - start st))) (asking w)).

Definition asked (kw : string) (st : locals) (w : world) : world :=
  emit (Request kw (start st) (request_size st)) (asking w).

Definition committed (E : environment) (kw : string) (kid : Z) (st : locals)
    (w : world) (ps : list paper) (t : Z) : locals * world :=
  commit_page E kid st ps t (asked kw st w).

(** The four ways one round of the loop can go. *)
Inductive round_case (E : environment) (kw : string) (kid : Z) (st : locals) (w : world)
  : round_result -> Prop :=
  | round_shutdown :
      shutdown_requested E (history w) = true ->
      round_case E kw kid st w (Stop (Done st) (emit (FlagRead true) w))
  | round_raise msg :
      shutdown_requested E (history w) = false ->
      answer E kw st w = inr msg ->
      round_case E kw kid st w (Stop (Failed msg) (asked kw st w))
  | round_short ps t :
      shutdown_requested E (history w) = false ->
      answer E kw st w = inl (ps, t) ->
      Z.of_nat (List.length ps) < batch_size ->
      round_case E kw kid st w
        (Stop (Done (fst (committed E kw kid st w ps t)))
              (snd (committed E kw kid st w ps t)))
  | round_full ps t :
      shutdown_requested E (history w) = false ->
      answer E kw st w = inl (ps, t) ->
      batch_size <= Z.of_nat (List.length ps) ->
      round_case E kw kid st w
        (Next (advance (Z.of_nat (List.length ps)) (fst (committed E kw kid st w ps t)))
              (rate_limit E
                 (advance (Z.of_nat (List.length ps)) (fst (committed E kw kid st w ps t)))
                 (snd (committed E kw kid st w ps t)))).

(** The heads of the loop a query passes through: [st'] and [w'] are
    the locals and the world some rounds after [st] and [w]. *)
Inductive reaches (E : environment) (kw : string) (kid : Z)
  : locals -> world -> locals -> world -> Prop :=
  | reaches_here st w : reaches E kw kid st w st w
  | reaches_next st w st1 w1 st2 w2 :
      start st < max_results_per_keyword ->
      page_round E kw kid st w = Next st1 w1 ->
      reaches E kw kid st1 w1 st2 w2 ->
      reaches E kw kid st w st2 w2.

(** The row [kid] went from [d] to [d'] by the final update of a query,
    to status [s]: completion time set, counters as they were; no other
    row, paper or link differs. *)
Definition row_finished (s : query_status) (kid : Z) (d d' : database) : Prop :=
  only_row_changed kid d d' /\
  forall row, lookup_keyword kid d = Some row ->
    exists row', lookup_keyword kid d' = Some row' /\
      status row' = s /\ completed_at row' <> None /\
      total_results row' = total_results row /\
      processed_results row' = processed_results row.

(** From [w] the loop of [run] over [rest] ends without writing to the
    database and with no event but reads of the set flag. *)
Definition halted (E : environment) (rest : list (Z * string)) (w : world) : Prop :=
  exists w' evs, run_loop E rest w = Some w' /\ db w' = db w /\
    history w' = history w ++ evs /\ forallb is_flag_read_true evs = true.

(** Once a read of the flag has returned true, the only later events
    are reads of the flag that return true. *)
Fixpoint calm (evs : list event) : bool :=
  match evs with
  | [] => true
  | FlagRead true :: s => forallb is_flag_read_true s
  | _ :: s => calm s
  end.

(** The events [evs] lead from [w] to [w'] in good order: they are calm,
    they are only reads of the set flag if the flag was set in [w], and
    the flag is set in [w'] if one of them is a read of the set flag. *)
Definition orderly (E : environment) (w : world) (evs : list event) (w' : world)
  : Prop :=
  history w' = history w ++ evs /\
  calm evs = true /\
  (shutdown_requested E (history w) = true -> forallb is_flag_read_true evs = true) /\
  (existsb is_flag_read_true evs = true -> shutdown_requested E (history w') = true).

(* ================================================================== *)
(** * Sample inputs                                                    *)
(* ================================================================== *)

Module Sample.

(** An entry of a feed without the element [arxiv:primary_category]. *)
Definition mk_entry (id : string) : entry :=
  {| entry_id := id; entry_title := "A title"; entry_authors := ["A. Author"];
     summary := "An abstract."; arxiv_primary_category := None;
     tags := ["cs.AI"; "cs.LG"]; published := "2021-01-01T00:00:00Z";
     updated := "2021-01-02T00:00:00Z";
     links := [{| href := "http://arxiv.org/pdf/x"; link_type := "application/pdf" |}];
     link := id |}.

(** An entry as the arXiv API serves it, with its primary category. *)
Definition arxiv_entry (id : string) : entry :=
  {| entry_id := id; entry_title := "A title"; entry_authors := ["A. Author"];
     summary := "An abstract."; arxiv_primary_category := Some "cs.AI";
     tags := ["cs.AI"; "cs.LG"]; published := "2021-01-01T00:00:00Z";
     updated := "2021-01-02T00:00:00Z";
     links := [{| href := "http://arxiv.org/pdf/x"; link_type := "application/pdf" |}];
     link := id |}.

Definition mk_paper (id : string) : paper :=
  paper_dict (mk_entry id) (tags (mk_entry id)).

(** The papers of a page of entries that all build. *)
Definition papers_of (entries : list entry) : list paper :=
  match papers_of_entries entries with
  | inl ps => ps
  | inr _ => []
  end.

(** An upstream with a fixed list of matches for every keyword, served
    in pages as requested. *)
Definition serve (corpus : list entry) (h : list event) (kw : string) (s m : Z)
  : response :=
  Feed (firstn (Z.to_nat m) (skipn (Z.to_nat s) corpus)) (Z.of_nat (List.length corpus)).

Definition quiet_env (corpus : list entry) : environment :=
  {| urlopen := serve corpus;
     shutdown_requested := fun _ => false;
     CURRENT_TIMESTAMP := fun h => List.length h;
     keywords_file := ["graph neural networks"; ""; "  malformed topic  "];
     db_path_exists := true |}.

(** The flag is set while the [n]-th request is in flight. *)
Definition signalled_env (corpus : list entry) (n : nat) : environment :=
  {| urlopen := serve corpus;
     shutdown_requested := fun h => (n <=? List.length (List.filter is_request h))%nat;
     CURRENT_TIMESTAMP := fun h => List.length h;
     keywords_file := ["graph neural networks"];
     db_path_exists := true |}.

(** Every request for ["malformed topic"] fails. *)
Definition failing_env (corpus : list entry) : environment :=
  {| urlopen := fun h kw s m =>
       if String.eqb kw "malformed topic" then Raise "<urlopen error timed out>"
       else serve corpus h kw s m;
     shutdown_requested := fun _ => false;
     CURRENT_TIMESTAMP := fun h => List.length h;
     keywords_file := ["malformed topic"; "graph neural networks"];
     db_path_exists := true |}.

(** Every request fails with an exception whose text is empty, as
    that of an exception raised without arguments. *)
Definition mute_env : environment :=
  {| urlopen := fun _ _ _ _ => Raise EmptyString;
     shutdown_requested := fun _ => false;
     CURRENT_TIMESTAMP := fun h => List.length h;
     keywords_file := ["malformed topic"];
     db_path_exists := true |}.

Definition corpus3 : list entry :=
  [mk_entry "http://arxiv.org/abs/2101.00001v1";
   mk_entry "http://arxiv.org/abs/2101.00002v3";
   mk_entry "http://arxiv.org/abs/2101.00003v2"].

(** Three entries as the arXiv API serves them. *)
Definition arxiv3 : list entry :=
  [arxiv_entry "http://arxiv.org/abs/2101.00001v1";
   arxiv_entry "http://arxiv.org/abs/2101.00002v3";
   arxiv_entry "http://arxiv.org/abs/2101.00003v2"].

Definition fresh_world : world := {| db := setup_database; history := [] |}.

(** [n] entries with distinct identifiers and no primary category. *)
Definition numbered (n : nat) : list entry :=
  List.map (fun i => mk_entry ("http://arxiv.org/abs/2101."
                               ++ NilEmpty.string_of_uint (Nat.to_uint i) ++ "v1"))
           (seq 0 n).

(** The events of a history that are not reads of the flag, and what a
    run on a fresh database leaves: the rows of [keywords], those events
    and the number of papers. *)
Definition outward (evs : list event) : list event :=
  List.filter (fun ev => match ev with FlagRead _ => false | _ => true end) evs.

Definition fresh_run (E : environment)
  : option (list keyword_row * list event * nat) :=
  option_map (fun w => (keywords (db w), outward (history w), List.length (papers (db w))))
             (run E false fresh_world).

(** One paper stored for keyword 1, and two keywords. *)
Definition db1 : database :=
  fst (store_papers 0 [mk_paper "http://arxiv.org/abs/2101.00001v1"] 1
         (fold_left insert_keyword ["graph neural networks"; "malformed topic"]
            setup_database)).

Definition mk_row (id : Z) (k : string) (s : query_status) : keyword_row :=
  {| keyword_id := id; keyword := k; total_results := 0; processed_results := 0;
     status := s; started_at := None; completed_at := None; error_message := None |}.

(** A store left by earlier runs, with queries in four statuses. *)
Definition db_mixed : database :=
  {| papers := []; paper_keywords := []; sqlite_sequence := 4;
     keywords := [mk_row 1 "expert systems" completed;
                  mk_row 2 "malformed topic" failed;
                  mk_row 3 "fuzzy logic" interrupted;
                  mk_row 4 "graph neural networks" pending] |}.

End Sample.

(* ================================================================== *)
(** * Further vocabulary: the rest of the collector                    *)
(* ================================================================== *)

(** The last character of a string, and strings with no white space at
    their start or at their end. *)
Fixpoint last_char (s : string) : option ascii :=
  match s with
  | EmptyString => None
  | String c EmptyString => Some c
  | String _ s' => last_char s'
  end.

Definition starts_clean (s : string) : bool :=
  match s with
  | EmptyString => true
  | String c _ => negb (PyStr.isspace c)
  end.

Definition ends_clean (s : string) : bool :=
  match last_char s with
  | None => true
  | Some c => negb (PyStr.isspace c)
  end.

(** Equality of the values of [keywords.status]. *)
Definition status_eqb (a b : query_status) : bool :=
  match a, b with
  | pending, pending | processing, processing | completed, completed
  | failed, failed | interrupted, interrupted => true
  | _, _ => false
  end.

(** The statuses [process_keyword] ends a query in. *)
Definition terminal (s : query_status) : bool :=
  match s with
  | completed | failed | interrupted => true
  | pending | processing => false
  end.

(** [get_progress_summary] (lines 350-391).  [status_counts] is the
    dictionary built from the rows of [SELECT status, COUNT ... GROUP BY
    status]: a key for each status that occurs.  [linked] counts the
    distinct [paper_id] of [paper_keywords].  The two sums run over the
    rows whose status is not [pending]; a sum over no row is [NULL], which
    [or 0] turns into 0. *)
Definition count_status (s : query_status) (d : database) : Z :=
  Z.of_nat (List.length (List.filter (fun r => status_eqb (status r) s) (keywords d))).

Definition status_counts (d : database) (s : query_status) : option Z :=
  if count_status s d =? 0 then None else Some (count_status s d).

Definition sum_started (f : keyword_row -> Z) (d : database) : Z :=
  fold_right Z.add 0
    (List.map f (List.filter (fun r => negb (status_eqb (status r) pending)) (keywords d))).

Record progress_summary := {
  summary_keywords : query_status -> option Z;
  total_unique : Z;
  linked : Z;
  total_found : Z;
  summary_total_processed : Z
}.

Definition get_progress_summary (d : database) : progress_summary :=
  {| summary_keywords := status_counts d;
     total_unique := Z.of_nat (List.length (papers d));
     linked := Z.of_nat (List.length (nodup string_dec (List.map fst (paper_keywords d))));
     total_found := sum_started total_results d;
     summary_total_processed := sum_started processed_results d |}.

(** The [UNIQUE] constraint of [keywords.keyword]. *)
Definition keywords_unique (d : database) : Prop :=
  List.NoDup (List.map keyword (keywords d)).

(** The foreign key of [paper_keywords] into [papers] (declared at
    lines 99-100 and not enforced by SQLite unless asked), and its
    converse: every paper is linked to some keyword. *)
Definition links_integrity (d : database) : Prop :=
  (forall l, In l (paper_keywords d) -> has_paper (fst l) (papers d) = true) /\
  (forall r, In r (papers d) ->
     exists kid, In (arxiv_id (row_paper r), kid) (paper_keywords d)).

(** A row as [INSERT INTO keywords (keyword)] creates it. *)
Definition new_row (r : keyword_row) : Prop :=
  total_results r = 0 /\ processed_results r = 0 /\ status r = pending /\
  started_at r = None /\ completed_at r = None /\ error_message r = None.

(** A request within the limits of the collector: an offset below the
    ceiling, a size of one page at most, and no entry asked for beyond
    the ceiling. *)
Definition request_ok (ev : event) : bool :=
  match ev with
  | Request _ s m =>
      (0 <=? s) && (s <? max_results_per_keyword) && (1 <=? m) &&
      (m <=? batch_size) && (s + m <=? max_results_per_keyword)
  | _ => true
  end.

(** The number of requests in a history. *)
Definition requests (evs : list event) : nat :=
  List.length (List.filter is_request evs).

(** A request for the keyword [kw]. *)
Definition request_for (kw : string) (ev : event) : bool :=
  match ev with
  | Request k _ _ => String.eqb k kw
  | _ => true
  end.

(** The world a round ends in. *)
Definition round_world (r : round_result) : world :=
  match r with
  | Stop _ w => w
  | Next _ w => w
  end.

(** The number of rows of [paper_keywords] in [w] beyond those of [d]. *)
Definition links_since (d : database) (w : world) : Z :=
  Z.of_nat (List.length (paper_keywords (db w)))
  - Z.of_nat (List.length (paper_keywords d)).

(** The statuses a query is left in by a call that ran to its end
    without a shutdown request. *)
Definition settled (s : query_status) : Prop := s = completed \/ s = failed.

(** The id of the row [r] is the place, counted from 1, of the first
    occurrence of its text in the list [pre] of keywords. *)
Definition first_place (pre : list string) (r : keyword_row) : Prop :=
  exists i, keyword_id r = Z.of_nat (S i) /\
    nth_error pre i = Some (keyword r) /\
    forall j, (j < i)%nat -> nth_error pre j <> Some (keyword r).

(** The delay of lines 297-300 read off a list of events: every request
    comes after a [Sleep] that follows the request before it, or asks for
    an offset at or beyond [T].  [slept] tells whether the events so far
    end in such a delay; a first request needs none. *)
Fixpoint paced_from (T : Z) (slept : bool) (evs : list event) : bool :=
  match evs with
  | [] => true
  | Request _ s _ :: rest => (slept || (T <=? s)) && paced_from T false rest
  | Sleep :: rest => paced_from T true rest
  | _ :: rest => paced_from T slept rest
  end.

Fixpoint slept_after (slept : bool) (evs : list event) : bool :=
  match evs with
  | [] => slept
  | Request _ _ _ :: rest => slept_after false rest
  | Sleep :: rest => slept_after true rest
  | _ :: rest => slept_after slept rest
  end.

Definition paced (T : Z) (evs : list event) : bool := paced_from T true evs.

(* ================================================================== *)
(** * The record store: uniqueness and idempotence                     *)
(* ================================================================== *)

Section Tables.

Lemma has_paper_true id t :
  has_paper id t = true <-> In id (List.map (fun r => arxiv_id (row_paper r)) t).
Proof.
  unfold has_paper. rewrite existsb_exists, in_map_iff.
  split; intros (r & H1 & H2).
  - apply String.eqb_eq in H2. eauto.
  - exists r. split; [done|]. by apply String.eqb_eq.
Qed.

Lemma has_paper_false id t :
  has_paper id t = false <-> ~ In id (List.map (fun r => arxiv_id (row_paper r)) t).
Proof.
  rewrite <- has_paper_true. destruct (has_paper id t); split; congruence.
Qed.

Lemma has_link_true id kid t : has_link id kid t = true <-> In (id, kid) t.
Proof.
  unfold has_link. rewrite existsb_exists. split.
  - intros ([a b] & Hin & H). simpl in H.
    apply andb_true_iff in H as [Ha Hb].
    apply String.eqb_eq in Ha. apply Z.eqb_eq in Hb. by subst.
  - intros Hin. exists (id, kid). split; [done|]. simpl.
    by rewrite String.eqb_refl, Z.eqb_refl.
Qed.

Lemma has_link_false id kid t : has_link id kid t = false <-> ~ In (id, kid) t.
Proof.
  rewrite <- has_link_true. destruct (has_link id kid t); split; congruence.
Qed.

Lemma filter_none {A} (f : A -> bool) (l : list A) :
  (forall y, In y l -> f y = false) -> List.filter f l = [].
Proof.
  induction l as [|x l IH]; simpl; [done|]. intros H.
  rewrite (H x) by auto. apply IH. auto.
Qed.

(** A key that occurs once selects one row. *)
Lemma filter_unique_key {A} (key : A -> string) (l : list A) (r : A) :
  List.NoDup (List.map key l) -> In r l ->
  List.filter (fun x => String.eqb (key x) (key r)) l = [r].
Proof.
  induction l as [|x l IH]; simpl; [done|].
  intros Hnd [->|Hin]; inversion_clear Hnd as [|? ? Hx Hl].
  - rewrite String.eqb_refl. f_equal.
    apply filter_none. intros y Hy. apply String.eqb_neq. intros Heq.
    apply Hx. rewrite <- Heq. by apply in_map.
  - destruct (String.eqb (key x) (key r)) eqn:Heq; [|by apply IH].
    apply String.eqb_eq in Heq. exfalso. apply Hx. rewrite Heq. by apply in_map.
Qed.

End Tables.

Section Growth.

Lemma store_grows_refl d : store_grows d d.
Proof.
  repeat split; try done; exists []; by rewrite app_nil_r.
Qed.

Lemma store_grows_trans d1 d2 d3 :
  store_grows d1 d2 -> store_grows d2 d3 -> store_grows d1 d3.
Proof.
  intros ([e1 H1] & [f1 G1] & P1 & L1) ([e2 H2] & [f2 G2] & P2 & L2).
  repeat split; auto.
  - exists (e1 ++ e2). by rewrite H2, H1, app_assoc.
  - exists (f1 ++ f2). by rewrite G2, G1, app_assoc.
Qed.

Lemma store_grows_same d d' :
  papers d' = papers d -> paper_keywords d' = paper_keywords d -> store_grows d d'.
Proof.
  intros Hp Hl. unfold store_grows, papers_pk, links_pk. rewrite Hp, Hl.
  repeat split; try done; exists []; by rewrite app_nil_r.
Qed.

Lemma insert_paper_spec now p t :
  (has_paper (arxiv_id p) t = true /\ insert_paper now p t = (t, 0)) \/
  (has_paper (arxiv_id p) t = false /\
   insert_paper now p t = (t ++ [{| row_paper := p; created_at := now |}], 1)).
Proof.
  unfold insert_paper. destruct (has_paper (arxiv_id p) t); auto.
Qed.

Lemma insert_link_spec id kid t :
  (has_link id kid t = true /\ insert_link id kid t = (t, 0)) \/
  (has_link id kid t = false /\ insert_link id kid t = (t ++ [(id, kid)], 1)).
Proof.
  unfold insert_link. destruct (has_link id kid t); auto.
Qed.

Lemma NoDup_snoc {A} (l : list A) (x : A) :
  List.NoDup l -> ~ In x l -> List.NoDup (l ++ [x]).
Proof.
  intros Hl Hx. apply List.NoDup_app; auto.
  - constructor; [intros []|constructor].
  - intros y Hy [->|[]]. done.
Qed.

Lemma store_paper_grows now kid d n p :
  store_grows d (fst (store_paper now kid (d, n) p)).
Proof.
  unfold store_paper, store_grows, papers_pk, links_pk. simpl.
  destruct (insert_paper_spec now p (papers d)) as [[Hp ->]|[Hp ->]];
  destruct (insert_link_spec (arxiv_id p) kid (paper_keywords d)) as [[Hl ->]|[Hl ->]];
  simpl; repeat split; eauto using app_nil_r;
  try (exists []; by rewrite app_nil_r);
  try (intros Hnd; rewrite map_app; simpl; apply NoDup_snoc; [done|];
       by apply has_paper_false);
  try (intros Hnd; apply NoDup_snoc; [done|]; by apply has_link_false).
Qed.

Lemma store_papers_fold_grows now kid ps d n :
  store_grows d (fst (fold_left (store_paper now kid) ps (d, n))).
Proof.
  revert d n. induction ps as [|p ps IH]; intros d n; simpl.
  - apply store_grows_refl.
  - destruct (store_paper now kid (d, n) p) as [d1 n1] eqn:Hstep.
    eapply store_grows_trans; [|apply IH].
    pose proof (store_paper_grows now kid d n p) as H. by rewrite Hstep in H.
Qed.

Lemma store_papers_grows now ps kid d :
  store_grows d (fst (store_papers now ps kid d)).
Proof. apply store_papers_fold_grows. Qed.

Lemma store_paper_keywords now kid acc p :
  keywords (fst (store_paper now kid acc p)) = keywords (fst acc) /\
  sqlite_sequence (fst (store_paper now kid acc p)) = sqlite_sequence (fst acc).
Proof. done. Qed.

Lemma store_papers_keywords now ps kid d :
  keywords (fst (store_papers now ps kid d)) = keywords d /\
  sqlite_sequence (fst (store_papers now ps kid d)) = sqlite_sequence d.
Proof.
  unfold store_papers. generalize 0 as n. revert d.
  induction ps as [|p ps IH]; intros d n; simpl; [done|].
  destruct (store_paper now kid (d, n) p) as [d1 n1] eqn:Hstep.
  destruct (IH d1 n1) as [-> ->].
  pose proof (store_paper_keywords now kid (d, n) p) as H.
  by rewrite Hstep in H.
Qed.

Lemma update_keyword_grows kid f d : store_grows d (update_keyword kid f d).
Proof. by apply store_grows_same. Qed.

Lemma insert_keyword_grows d k : store_grows d (insert_keyword d k).
Proof.
  by apply store_grows_same.
Qed.

Lemma insert_keywords_grows ks d : store_grows d (fold_left insert_keyword ks d).
Proof.
  revert d. induction ks as [|k ks IH]; intros d; simpl.
  - apply store_grows_refl.
  - eapply store_grows_trans; [apply insert_keyword_grows|apply IH].
Qed.

(** What growth means for a stored row and for a pair. *)
Lemma store_grows_paper d d' r :
  store_grows d d' -> papers_pk d -> In r (papers d) ->
  papers_with_id (arxiv_id (row_paper r)) d' = [r].
Proof.
  intros ([e He] & _ & Hpk & _) Hd Hin. unfold papers_with_id.
  apply (filter_unique_key (fun x => arxiv_id (row_paper x))).
  - by apply Hpk.
  - rewrite He. apply in_or_app. auto.
Qed.

Lemma NoDup_filter_le1 {A} (f : A -> bool) (l : list A) :
  List.NoDup l -> (forall x y, f x = true -> f y = true -> x = y) ->
  (List.length (List.filter f l) <= 1)%nat.
Proof.
  intros Hnd Hf. induction Hnd as [|x l Hx Hnd IH]; simpl; [lia|].
  destruct (f x) eqn:Hfx; [|done].
  rewrite filter_none; [simpl; lia|].
  intros y Hy. destruct (f y) eqn:Hfy; [|done].
  exfalso. apply Hx. by rewrite (Hf x y).
Qed.

Lemma links_pk_at_most_one d id kid :
  links_pk d -> (List.length (links_with id kid d) <= 1)%nat.
Proof.
  intros Hnd. apply NoDup_filter_le1; [done|].
  intros [a b] [a' b'] H H'. simpl in *.
  apply andb_true_iff in H as [Ha Hb]. apply andb_true_iff in H' as [Ha' Hb'].
  apply String.eqb_eq in Ha, Ha'. apply Z.eqb_eq in Hb, Hb'. congruence.
Qed.

End Growth.

(* ================================================================== *)
(** * The query table                                                  *)
(* ================================================================== *)

Section Keywords.

Lemma rows_kept_refl ids d : rows_kept ids d d.
Proof.
  unfold rows_kept. induction (keywords d); constructor; auto.
Qed.

Lemma rows_kept_same ids d d' : keywords d' = keywords d -> rows_kept ids d d'.
Proof. unfold rows_kept. intros ->. apply rows_kept_refl. Qed.

Lemma rows_kept_weaken ids ids' d d' :
  incl ids ids' -> rows_kept ids d d' -> rows_kept ids' d d'.
Proof.
  unfold rows_kept. intros Hincl H.
  induction H as [|r r' l l' [Hid Hr] _ IH]; constructor; [|done].
  split; [done|]. intros Hnot. apply Hr. intros Hin. apply Hnot, Hincl, Hin.
Qed.

Lemma rows_kept_trans ids d1 d2 d3 :
  rows_kept ids d1 d2 -> rows_kept ids d2 d3 -> rows_kept ids d1 d3.
Proof.
  unfold rows_kept. generalize (keywords d1) (keywords d2) (keywords d3).
  intros l1 l2 l3 H12. revert l3.
  induction H12 as [|r1 r2 l1 l2 [[Hid Hkw] Hr] _ IH]; intros l3 H23;
    inversion H23 as [|? r3 ? l3' [[Hid' Hkw'] Hr'] Hrest]; subst; constructor.
  - split; [split; congruence|]. intros Hnot.
    rewrite Hr' by (by rewrite Hid). auto.
  - by apply IH.
Qed.

Lemma rows_kept_update kid f d :
  (forall r, keyword_id (f r) = keyword_id r /\ keyword (f r) = keyword r) ->
  rows_kept [kid] d (update_keyword kid f d).
Proof.
  intros Hf. unfold rows_kept. simpl.
  induction (keywords d) as [|r l IH]; simpl; constructor; auto.
  destruct (keyword_id r =? kid) eqn:Heq.
  - split; [apply Hf|]. intros Hnot. apply Z.eqb_eq in Heq.
    exfalso. apply Hnot. simpl. auto.
  - done.
Qed.

Lemma rows_kept_lookup ids d d' k :
  rows_kept ids d d' -> ~ In k ids -> lookup_keyword k d' = lookup_keyword k d.
Proof.
  unfold rows_kept, lookup_keyword. intros H Hk.
  induction H as [|r r' l l' [[Hid _] Hr] _ IH]; simpl; [done|].
  rewrite Hid. destruct (keyword_id r =? k) eqn:Heq; [|done].
  apply Z.eqb_eq in Heq. rewrite Hr; [done|]. by rewrite Heq.
Qed.

Lemma rows_kept_ids ids d d' :
  rows_kept ids d d' ->
  List.map keyword_id (keywords d') = List.map keyword_id (keywords d).
Proof.
  unfold rows_kept. intros H.
  induction H as [|r r' l l' [[Hid _] Hr] _ IH]; simpl; [done|].
  by rewrite Hid, IH.
Qed.

Lemma rows_kept_texts ids d d' :
  rows_kept ids d d' ->
  List.map keyword (keywords d') = List.map keyword (keywords d).
Proof.
  unfold rows_kept. intros H.
  induction H as [|r r' l l' [[_ Hkw] Hr] _ IH]; simpl; [done|].
  by rewrite Hkw, IH.
Qed.

Lemma rows_kept_in ids d d' r :
  rows_kept ids d d' -> In r (keywords d) -> ~ In (keyword_id r) ids ->
  In r (keywords d').
Proof.
  unfold rows_kept. intros H.
  induction H as [|x x' l l' [Hid Hx] _ IH]; simpl; [done|].
  intros [->|Hin] Hnot; [left; auto|right; auto].
Qed.

(** In a table with distinct ids a row is found under its id. *)
Lemma lookup_keyword_in d r :
  List.NoDup (List.map keyword_id (keywords d)) -> In r (keywords d) ->
  lookup_keyword (keyword_id r) d = Some r.
Proof.
  unfold lookup_keyword. induction (keywords d) as [|x l IH]; simpl; [done|].
  intros Hnd [->|Hin]; inversion_clear Hnd as [|? ? Hx Hl].
  - by rewrite Z.eqb_refl.
  - destruct (keyword_id x =? keyword_id r) eqn:Heq; [|auto].
    apply Z.eqb_eq in Heq. exfalso. apply Hx. rewrite Heq. by apply in_map.
Qed.

Lemma lookup_keyword_some k d r :
  lookup_keyword k d = Some r -> In r (keywords d) /\ keyword_id r = k.
Proof.
  unfold lookup_keyword. intros H. apply find_some in H as [Hin Heq].
  split; [done|]. by apply Z.eqb_eq.
Qed.

Lemma lookup_update_same kid f d :
  (forall r, keyword_id (f r) = keyword_id r) ->
  lookup_keyword kid (update_keyword kid f d) = option_map f (lookup_keyword kid d).
Proof.
  intros Hf. unfold lookup_keyword, update_keyword. simpl.
  induction (keywords d) as [|x l IH]; simpl; [done|].
  destruct (keyword_id x =? kid) eqn:Heq.
  - by rewrite Hf, Heq.
  - by rewrite Heq.
Qed.

Lemma ascending_NoDup (l : list Z) : StronglySorted Z.lt l -> List.NoDup l.
Proof.
  induction 1 as [|x l Hl IH Hx]; constructor; [|done].
  intros Hin. rewrite List.Forall_forall in Hx. specialize (Hx x Hin). lia.
Qed.

Lemma ascending_pk d :
  keywords_ascending d -> List.NoDup (List.map keyword_id (keywords d)).
Proof. apply ascending_NoDup. Qed.

Lemma rows_kept_ascending ids d d' :
  rows_kept ids d d' -> keywords_ascending d -> keywords_ascending d'.
Proof.
  unfold keywords_ascending. intros H. by rewrite (rows_kept_ids _ _ _ H).
Qed.

(** [ORDER BY id] on rows already in id order. *)
Lemma insert_by_id_front r l :
  Forall (fun y => keyword_id r < keyword_id y) l -> insert_by_id r l = r :: l.
Proof.
  destruct l as [|x l]; simpl; [done|]. intros H.
  inversion_clear H as [|? ? Hx _].
  destruct (keyword_id r <=? keyword_id x) eqn:Hle; [done|].
  apply Z.leb_gt in Hle. lia.
Qed.

Lemma order_by_id_filter f l :
  StronglySorted Z.lt (List.map keyword_id l) ->
  order_by_id (List.filter f l) = List.filter f l.
Proof.
  induction l as [|x l IH]; simpl; [done|]. intros H.
  inversion_clear H as [|? ? Hl Hx].
  destruct (f x); simpl; [|auto].
  unfold order_by_id in *. simpl. rewrite IH by done.
  apply insert_by_id_front. rewrite List.Forall_forall in *.
  intros y Hy. apply filter_In in Hy as [Hy _].
  apply Hx. by apply in_map.
Qed.

Lemma insert_by_id_in r x l : In x (insert_by_id r l) <-> x = r \/ In x l.
Proof.
  induction l as [|y l IH]; simpl; [intuition auto|].
  destruct (keyword_id r <=? keyword_id y); simpl; rewrite ?IH; intuition auto.
Qed.

Lemma order_by_id_in x l : In x (order_by_id l) <-> In x l.
Proof.
  unfold order_by_id. induction l as [|y l IH]; simpl; [done|].
  rewrite insert_by_id_in, IH. intuition auto.
Qed.

Lemma insert_by_id_sorted r l :
  StronglySorted (fun a b => keyword_id a <= keyword_id b) l ->
  StronglySorted (fun a b => keyword_id a <= keyword_id b) (insert_by_id r l).
Proof.
  induction 1 as [|x l Hl IH Hx]; simpl.
  - repeat constructor.
  - destruct (keyword_id r <=? keyword_id x) eqn:Hle.
    + apply Z.leb_le in Hle. constructor; [by constructor|].
      constructor; [done|]. rewrite List.Forall_forall in *.
      intros y Hy. specialize (Hx y Hy). lia.
    + apply Z.leb_gt in Hle. constructor; [done|].
      rewrite List.Forall_forall in *. intros y Hy.
      apply insert_by_id_in in Hy as [->|Hy]; [lia|auto].
Qed.

Lemma order_by_id_sorted l :
  StronglySorted (fun a b => keyword_id a <= keyword_id b) (order_by_id l).
Proof.
  unfold order_by_id. induction l; simpl; [constructor|].
  by apply insert_by_id_sorted.
Qed.

End Keywords.

(* ================================================================== *)
(** * The pagination loop                                              *)
(* ================================================================== *)

Section Loop.

Variable E : environment.

Lemma follows_refl ids w : follows ids [] w w.
Proof.
  split; [by rewrite app_nil_r|].
  split; [apply store_grows_refl|apply rows_kept_refl].
Qed.

Lemma follows_trans ids evs1 evs2 w1 w2 w3 :
  follows ids evs1 w1 w2 -> follows ids evs2 w2 w3 ->
  follows ids (evs1 ++ evs2) w1 w3.
Proof.
  intros (H1 & G1 & K1) (H2 & G2 & K2). split; [|split].
  - by rewrite H2, H1, app_assoc.
  - eapply store_grows_trans; eauto.
  - eapply rows_kept_trans; eauto.
Qed.

Lemma follows_weaken ids ids' evs w w' :
  incl ids ids' -> follows ids evs w w' -> follows ids' evs w w'.
Proof.
  intros Hincl (H & G & K). split; [done|]. split; [done|].
  eapply rows_kept_weaken; eauto.
Qed.

Lemma follows_emit ids ev w : follows ids [ev] w (emit ev w).
Proof.
  split; [done|]. split; [apply store_grows_refl|apply rows_kept_refl].
Qed.

Lemma follows_read_flag ids w :
  follows ids [FlagRead (shutdown_requested E (history w))] w (snd (read_flag E w)).
Proof. apply follows_emit. Qed.

Lemma follows_update kid f w :
  (forall r, keyword_id (f r) = keyword_id r /\ keyword (f r) = keyword r) ->
  follows [kid] [] w (with_db (update_keyword kid f (db w)) w).
Proof.
  intros Hf. split; [simpl; by rewrite app_nil_r|].
  split; [apply update_keyword_grows|by apply rows_kept_update].
Qed.

Lemma follows_commit_page kid st ps t w :
  follows [kid] [] w (snd (commit_page E kid st ps t w)).
Proof.
  unfold commit_page. simpl. split; [simpl; by rewrite app_nil_r|]. simpl.
  split.
  - eapply store_grows_trans; [apply store_papers_grows|apply update_keyword_grows].
  - eapply rows_kept_trans; [|by apply rows_kept_update].
    apply rows_kept_same. apply store_papers_keywords.
Qed.

Lemma query_arxiv_world kw s m w :
  snd (query_arxiv E kw s (Some m) w) = emit (Request kw s (Z.min m batch_size)) w.
Proof.
  unfold query_arxiv. simpl.
  destruct (urlopen E (history w) kw s (Z.min m batch_size)) as [entries t|msg];
    [|done].
  by destruct (papers_of_entries entries).
Qed.

Lemma query_arxiv_result kw s m w :
  fst (query_arxiv E kw s (Some m) w) =
  match urlopen E (history w) kw s (Z.min m batch_size) with
  | Feed entries total =>
      match papers_of_entries entries with
      | inl ps => inl (ps, total)
      | inr msg => inr msg
      end
  | Raise msg => inr msg
  end.
Proof.
  unfold query_arxiv. simpl.
  destruct (urlopen E (history w) kw s (Z.min m batch_size)) as [entries t|msg];
    [|done].
  by destruct (papers_of_entries entries).
Qed.

(** The call of [query_arxiv] in a round: what it gives and the world
    it leaves. *)
Lemma query_arxiv_asked kw st w :
  query_arxiv E kw (start st)
    (Some (Z.min batch_size (max_results_per_keyword - start st))) (asking w)
  = (answer E kw st w, asked kw st w).
Proof.
  unfold answer.
  rewrite (surjective_pairing (query_arxiv E kw (start st) _ (asking w))) at 1.
  by rewrite query_arxiv_world.
Qed.

(** What the upstream sent when [query_arxiv] gives a page or raises. *)
Lemma answer_page kw st w ps t :
  answer E kw st w = inl (ps, t) ->
  exists entries,
    urlopen E (history (asking w)) kw (start st) (request_size st) = Feed entries t /\
    papers_of_entries entries = inl ps.
Proof.
  unfold answer. rewrite query_arxiv_result. fold (request_size st).
  destruct (urlopen E (history (asking w)) kw (start st) (request_size st))
    as [entries t'|msg]; [|done].
  destruct (papers_of_entries entries) as [ps'|msg] eqn:Hps; [|done].
  intros [= <- <-]. eauto.
Qed.

Lemma papers_of_entries_length entries ps :
  papers_of_entries entries = inl ps -> List.length ps = List.length entries.
Proof.
  revert ps. induction entries as [|e rest IH]; intros ps; simpl.
  - by intros [= <-].
  - destruct (paper_of_entry e) as [p|msg]; [|done].
    destruct (papers_of_entries rest) as [ps'|msg]; [|done].
    intros [= <-]. simpl. by rewrite (IH ps').
Qed.

Lemma answer_raise kw st w msg :
  urlopen E (history (asking w)) kw (start st) (request_size st) = Raise msg ->
  answer E kw st w = inr msg.
Proof.
  intros H. unfold answer. rewrite query_arxiv_result. fold (request_size st).
  by rewrite H.
Qed.

Lemma answer_feed kw st w entries t :
  urlopen E (history (asking w)) kw (start st) (request_size st) = Feed entries t ->
  answer E kw st w =
  match papers_of_entries entries with
  | inl ps => inl (ps, t)
  | inr msg => inr msg
  end.
Proof.
  intros H. unfold answer. rewrite query_arxiv_result. fold (request_size st).
  by rewrite H.
Qed.

(** The events of [rate_limit]: a read of the flag and maybe a sleep. *)
Lemma follows_rate_limit ids st w :
  exists evs, follows ids evs w (rate_limit E st w) /\
    (evs = [] \/ evs = [FlagRead true] \/ evs = [FlagRead false; Sleep]).
Proof.
  unfold rate_limit. destruct (start st <? found_total st).
  - simpl. destruct (shutdown_requested E (history w)) eqn:Hb; simpl.
    + exists [FlagRead true]. split; [|by right; left].
      apply (follows_emit ids (FlagRead true) w).
    + exists ([FlagRead false] ++ [Sleep]). split; [|by right; right].
      apply (follows_trans _ _ _ _ (emit (FlagRead false) w)); apply follows_emit.
  - exists []. split; [apply follows_refl|]. by left.
Qed.

Lemma page_round_cases kw kid st w :
  round_case E kw kid st w (page_round E kw kid st w).
Proof.
  unfold page_round, read_flag.
  destruct (shutdown_requested E (history w)) eqn:Hflag.
  - by constructor.
  - change (emit (FlagRead false) w) with (asking w).
    rewrite query_arxiv_asked.
    destruct (answer E kw st w) as [[ps t]|msg] eqn:Hresp.
    + change (commit_page E kid st ps t (asked kw st w))
        with (committed E kw kid st w ps t).
      destruct (Z.of_nat (List.length ps) <? batch_size) eqn:Hlen.
      * apply Z.ltb_lt in Hlen.
        pose proof (round_short E kw kid st w ps t Hflag Hresp Hlen) as H.
        by destruct (committed E kw kid st w ps t).
      * apply Z.ltb_ge in Hlen.
        pose proof (round_full E kw kid st w ps t Hflag Hresp Hlen) as H.
        by destruct (committed E kw kid st w ps t).
    + by apply round_raise.
Qed.

(** The cases of a round that leaves the loop, and of one that does
    not. *)
Lemma round_stop_inv kw kid st w x w' :
  round_case E kw kid st w (Stop x w') ->
  (shutdown_requested E (history w) = true /\
   x = Done st /\ w' = emit (FlagRead true) w) \/
  (shutdown_requested E (history w) = false /\
   exists msg, answer E kw st w = inr msg /\
     x = Failed msg /\ w' = asked kw st w) \/
  (shutdown_requested E (history w) = false /\
   exists ps t, answer E kw st w = inl (ps, t) /\
     Z.of_nat (List.length ps) < batch_size /\
     x = Done (fst (committed E kw kid st w ps t)) /\
     w' = snd (committed E kw kid st w ps t)).
Proof.
  inversion 1; subst.
  - left. auto.
  - right. left. eauto.
  - right. right. split; [done|]. eexists _, _. eauto.
Qed.

Lemma round_next_inv kw kid st w st' w' :
  round_case E kw kid st w (Next st' w') ->
  shutdown_requested E (history w) = false /\
  exists ps t, answer E kw st w = inl (ps, t) /\
    batch_size <= Z.of_nat (List.length ps) /\
    st' = advance (Z.of_nat (List.length ps)) (fst (committed E kw kid st w ps t)) /\
    w' = rate_limit E st' (snd (committed E kw kid st w ps t)).
Proof.
  inversion 1; subst. split; [done|]. eexists _, _. eauto.
Qed.

End Loop.

Section LoopRule.

Variable E : environment.

Lemma rounds_enough st : max_results_per_keyword - start st <= Z.of_nat (rounds st).
Proof. unfold rounds. lia. Qed.

(** A round that goes back to the head of the loop has moved the offset
    forward by a full page at least. *)
Lemma round_next_progress kw kid st w st' w' :
  round_case E kw kid st w (Next st' w') -> start st + batch_size <= start st'.
Proof.
  intros H. apply round_next_inv in H as (_ & ps & t & _ & Hlen & -> & _).
  unfold advance, committed, commit_page. simpl. lia.
Qed.

(** The loop rule: an invariant [P] of the head of the loop and a
    property [Q] of its exits give [Q] of the exit the loop takes, and the
    loop does take one when the fuel covers the distance to the ceiling. *)
Lemma page_loop_rule kw kid (P : locals -> world -> Prop)
    (Q : loop_exit -> world -> Prop) :
  (forall st w, P st w -> max_results_per_keyword <= start st -> Q (Done st) w) ->
  (forall st w x w', P st w -> start st < max_results_per_keyword ->
     round_case E kw kid st w (Stop x w') -> Q x w') ->
  (forall st w st' w', P st w -> start st < max_results_per_keyword ->
     round_case E kw kid st w (Next st' w') -> P st' w') ->
  forall fuel st w, P st w ->
    max_results_per_keyword - start st <= Z.of_nat fuel ->
    exists x w', page_loop fuel E kw kid st w = Some (x, w') /\ Q x w'.
Proof.
  intros Hexit Hstop Hnext. induction fuel as [|fuel IH]; intros st w HP Hfuel.
  - simpl. destruct (start st <? max_results_per_keyword) eqn:Hlt.
    + apply Z.ltb_lt in Hlt. lia.
    + apply Z.ltb_ge in Hlt. simpl. eauto.
  - simpl. destruct (start st <? max_results_per_keyword) eqn:Hlt; simpl.
    + apply Z.ltb_lt in Hlt.
      pose proof (page_round_cases E kw kid st w) as Hcase.
      destruct (page_round E kw kid st w) as [x w'|st' w'].
      * eauto.
      * apply IH; [eauto|].
        apply round_next_progress in Hcase. unfold batch_size in Hcase. lia.
    + apply Z.ltb_ge in Hlt. eauto.
Qed.

(** More fuel than needed changes nothing. *)
Lemma page_loop_fuel kw kid fuel fuel' st w r :
  page_loop fuel E kw kid st w = Some r -> (fuel <= fuel')%nat ->
  page_loop fuel' E kw kid st w = Some r.
Proof.
  revert fuel' st w. induction fuel as [|fuel IH]; intros fuel' st w Hr Hle.
  - simpl in Hr. destruct fuel'; simpl;
      destruct (negb (start st <? max_results_per_keyword)); done.
  - destruct fuel' as [|fuel']; [lia|]. simpl in *.
    destruct (negb (start st <? max_results_per_keyword)); [done|].
    destruct (page_round E kw kid st w); [done|].
    apply IH; [done|lia].
Qed.

Lemma page_loop_total kw kid st w :
  exists x w', page_loop (rounds st) E kw kid st w = Some (x, w').
Proof.
  destruct (page_loop_rule kw kid (fun _ _ => True) (fun _ _ => True))
    with (fuel := rounds st) (st := st) (w := w) as (x & w' & H & _);
    auto using rounds_enough. eauto.
Qed.

(** [process_keyword] always comes back. *)
Lemma continue_keyword_total kw kid st w :
  exists o w', continue_keyword E kw kid st w = Some (o, w').
Proof.
  unfold continue_keyword.
  destruct (page_loop_total kw kid st w) as (x & w' & ->). unfold option_map.
  destruct (finish_keyword E kw kid (x, w')) as [o w'']. eauto.
Qed.

(** [continue_keyword] through the loop rule. *)
Lemma continue_keyword_rule kw kid (P : locals -> world -> Prop)
    (Q : loop_exit -> world -> Prop) :
  (forall st w, P st w -> max_results_per_keyword <= start st -> Q (Done st) w) ->
  (forall st w x w', P st w -> start st < max_results_per_keyword ->
     round_case E kw kid st w (Stop x w') -> Q x w') ->
  (forall st w st' w', P st w -> start st < max_results_per_keyword ->
     round_case E kw kid st w (Next st' w') -> P st' w') ->
  forall st w, P st w ->
    exists x w1, Q x w1 /\
      continue_keyword E kw kid st w = Some (finish_keyword E kw kid (x, w1)).
Proof.
  intros Hexit Hstop Hnext st w HP.
  destruct (page_loop_rule kw kid P Q Hexit Hstop Hnext (rounds st) st w HP
              (rounds_enough st)) as (x & w1 & Hloop & HQ).
  exists x, w1. split; [done|]. unfold continue_keyword. by rewrite Hloop.
Qed.

(** The first round unfolded. *)
Lemma continue_keyword_stop kw kid st w x w' :
  start st < max_results_per_keyword ->
  page_round E kw kid st w = Stop x w' ->
  continue_keyword E kw kid st w = Some (finish_keyword E kw kid (x, w')).
Proof.
  intros Hlt Hround. unfold continue_keyword, rounds.
  destruct (Z.to_nat (max_results_per_keyword - start st)) as [|n] eqn:Hn; [lia|].
  simpl. apply Z.ltb_lt in Hlt. rewrite Hlt. simpl. by rewrite Hround.
Qed.

Lemma continue_keyword_next kw kid st w st' w' :
  start st < max_results_per_keyword ->
  page_round E kw kid st w = Next st' w' ->
  continue_keyword E kw kid st w = continue_keyword E kw kid st' w'.
Proof.
  intros Hlt Hround. unfold continue_keyword.
  destruct (page_loop_total kw kid st' w') as (x & w1 & Hloop).
  rewrite Hloop. f_equal.
  pose proof (page_round_cases E kw kid st w) as Hcase. rewrite Hround in Hcase.
  apply round_next_progress in Hcase. unfold batch_size in Hcase.
  unfold rounds in *.
  destruct (Z.to_nat (max_results_per_keyword - start st)) as [|n] eqn:Hn; [lia|].
  simpl. apply Z.ltb_lt in Hlt. rewrite Hlt. simpl. rewrite Hround.
  eapply page_loop_fuel; [exact Hloop|lia].
Qed.

Lemma continue_keyword_exit kw kid st w :
  max_results_per_keyword <= start st ->
  continue_keyword E kw kid st w = Some (finish_keyword E kw kid (Done st, w)).
Proof.
  intros Hge. unfold continue_keyword.
  assert (page_loop (rounds st) E kw kid st w = Some (Done st, w)) as ->; [|done].
  apply Z.ltb_ge in Hge. destruct (rounds st); simpl; by rewrite Hge.
Qed.

End LoopRule.

(* ================================================================== *)
(** * What a query and a run leave behind                              *)
(* ================================================================== *)

Section Effects.

Variable E : environment.

Lemma processing_log_app evs1 evs2 :
  processing_log (evs1 ++ evs2) = processing_log evs1 ++ processing_log evs2.
Proof.
  induction evs1 as [|[] evs1 IH]; simpl; auto. by rewrite IH.
Qed.

Lemma loop_events_log evs :
  forallb is_loop_event evs = true -> processing_log evs = [].
Proof.
  induction evs as [|[] evs IH]; simpl; auto; discriminate.
Qed.

Lemma loop_events_no_open evs :
  forallb is_loop_event evs = true -> ~ In OpenKeywordsFile evs.
Proof.
  rewrite forallb_forall. intros H Hin. by apply H in Hin.
Qed.

Lemma set_processing_id t r :
  keyword_id (set_processing t r) = keyword_id r /\
  keyword (set_processing t r) = keyword r.
Proof. done. Qed.
Lemma set_finished_id s t r :
  keyword_id (set_finished s t r) = keyword_id r /\
  keyword (set_finished s t r) = keyword r.
Proof. done. Qed.
Lemma set_failed_id m t r :
  keyword_id (set_failed m t r) = keyword_id r /\
  keyword (set_failed m t r) = keyword r.
Proof. done. Qed.

(** One round writes only the row of its keyword; its events are reads
    of the flag, one request at most, and a sleep at most. *)
Lemma follows_asked ids kw st w :
  follows ids [FlagRead false; Request kw (start st) (request_size st)] w (asked kw st w).
Proof.
  apply (follows_trans ids [FlagRead false] [_] w (asking w)); apply follows_emit.
Qed.

Lemma follows_committed kw kid st w ps t :
  follows [kid] [FlagRead false; Request kw (start st) (request_size st)]
          w (snd (committed E kw kid st w ps t)).
Proof.
  rewrite <- (app_nil_r [_; _]).
  eapply follows_trans; [apply follows_asked|apply follows_commit_page].
Qed.

Lemma round_case_follows kw kid st w r :
  round_case E kw kid st w r ->
  exists evs, forallb is_loop_event evs = true /\
    match r with
    | Stop _ w' => follows [kid] evs w w'
    | Next _ w' => follows [kid] evs w w'
    end.
Proof.
  destruct 1 as [Hflag|msg Hflag Hresp|ps t Hflag Hresp Hlen|ps t Hflag Hresp Hlen].
  - exists [FlagRead true]. split; [done|]. apply follows_emit.
  - eexists. split; [|apply follows_asked]. done.
  - eexists. split; [|apply follows_committed]. done.
  - match goal with |- context [rate_limit E ?st5 ?w4] =>
      destruct (follows_rate_limit E [kid] st5 w4) as (evs & Hf & Hevs) end.
    eexists. split; [|eapply follows_trans; [apply follows_committed|exact Hf]].
    destruct Hevs as [->|[->| ->]]; done.
Qed.

Lemma finish_keyword_follows kw kid x w :
  exists evs, forallb is_loop_event evs = true /\
    follows [kid] evs w (snd (finish_keyword E kw kid (x, w))).
Proof.
  destruct x as [st|msg]; unfold finish_keyword, read_flag; cbn [snd].
  - exists ([FlagRead (shutdown_requested E (history w))] ++ []). split; [done|].
    eapply follows_trans; [apply follows_emit|].
    apply (follows_update kid _ (emit _ w)), set_finished_id.
  - exists []. split; [done|]. apply follows_update, set_failed_id.
Qed.

Lemma continue_keyword_follows kw kid st w :
  exists o w' evs, continue_keyword E kw kid st w = Some (o, w') /\
    forallb is_loop_event evs = true /\ follows [kid] evs w w'.
Proof.
  destruct (continue_keyword_rule E kw kid
    (fun _ w1 => exists evs, forallb is_loop_event evs = true /\ follows [kid] evs w w1)
    (fun _ w1 => exists evs, forallb is_loop_event evs = true /\ follows [kid] evs w w1))
    with (st := st) (w := w) as (x & w1 & (evs & Hlog & Hf) & Heq).
  - auto.
  - intros st0 w0 x w' (evs & Hlog & Hf) _ Hcase.
    apply round_case_follows in Hcase as (evs' & Hlog' & Hf').
    exists (evs ++ evs'). split; [by rewrite forallb_app, Hlog, Hlog'|].
    eapply follows_trans; eauto.
  - intros st0 w0 st' w' (evs & Hlog & Hf) _ Hcase.
    apply round_case_follows in Hcase as (evs' & Hlog' & Hf').
    exists (evs ++ evs'). split; [by rewrite forallb_app, Hlog, Hlog'|].
    eapply follows_trans; eauto.
  - exists []. split; [done|]. apply follows_refl.
  - destruct (finish_keyword_follows kw kid x w1) as (evs' & Hlog' & Hf').
    rewrite Heq. destruct (finish_keyword E kw kid (x, w1)) as [o w'].
    exists o, w', (evs ++ evs'). split; [done|].
    split; [by rewrite forallb_app, Hlog, Hlog'|].
    eapply follows_trans; eauto.
Qed.

Lemma follows_begin kw kid w :
  follows [kid] [LogProcessing kw] w (begin_keyword E kw kid w).
Proof.
  unfold begin_keyword. cbv zeta.
  change [LogProcessing kw] with ([LogProcessing kw] ++ []).
  eapply follows_trans; [apply follows_emit|].
  apply (follows_update kid _ (emit _ w)), set_processing_id.
Qed.

Lemma process_keyword_follows kw kid w :
  exists o w' evs, process_keyword E kw kid w = Some (o, w') /\
    forallb is_loop_event evs = true /\
    follows [kid] (LogProcessing kw :: evs) w w'.
Proof.
  unfold process_keyword.
  destruct (continue_keyword_follows kw kid initial_locals (begin_keyword E kw kid w))
    as (o & w' & evs & Heq & Hlog & Hf).
  exists o, w', evs. split; [done|]. split; [done|].
  change (LogProcessing kw :: evs) with ([LogProcessing kw] ++ evs).
  eapply follows_trans; [apply follows_begin|exact Hf].
Qed.

(** The loop of [run]: it ends, writes only rows of the pending list,
    never opens the keywords file, and begins the pending keywords in
    order, all of them unless the flag stops it. *)
Lemma run_loop_follows pending w :
  exists w' evs, run_loop E pending w = Some w' /\
    follows (List.map fst pending) evs w w' /\
    ~ In OpenKeywordsFile evs /\
    (exists rest, List.map snd pending = processing_log evs ++ rest) /\
    (never_requested E -> processing_log evs = List.map snd pending).
Proof.
  revert w. induction pending as [|[kid kw] rest IH]; intros w; simpl.
  - exists w, []. split; [done|]. split; [apply follows_refl|].
    split; [by intros []|]. split; [by exists []|done].
  - destruct (shutdown_requested E (history w)) eqn:Hflag.
    + exists (emit (FlagRead true) w), [FlagRead true]. split; [done|].
      split; [apply follows_emit|]. split; [by intros [|[]]|].
      split; [by exists (kw :: List.map snd rest)|].
      intros Hnever. by rewrite Hnever in Hflag.
    + destruct (process_keyword_follows kw kid (emit (FlagRead false) w))
        as (o & w2 & evs & Heq & Hlog & Hf).
      rewrite Heq.
      destruct (IH w2) as (w' & evs' & Hrun & Hf' & Hopen & [rest' Hpre] & Hall).
      exists w', (([FlagRead false] ++ LogProcessing kw :: evs) ++ evs').
      split; [by destruct o|].
      split; [|split; [|split]].
      * eapply follows_trans; [|eapply follows_weaken; [|exact Hf']].
        -- eapply follows_trans; [apply follows_emit|].
           eapply follows_weaken; [|exact Hf].
           intros k [<-|[]]. by left.
        -- intros k Hk. by right.
      * intros Hin. apply in_app_or in Hin as [[Hin|[Hin|Hin]]|Hin];
          try discriminate; [|done].
        by apply loop_events_no_open in Hlog.
      * exists rest'. rewrite !processing_log_app. simpl.
        rewrite (loop_events_log _ Hlog). simpl. by rewrite Hpre.
      * intros Hnever. rewrite !processing_log_app. simpl.
        rewrite (loop_events_log _ Hlog). simpl. by rewrite (Hall Hnever).
Qed.

Lemma load_keywords_grows w : store_grows (db w) (db (snd (load_keywords E w))).
Proof. unfold load_keywords. simpl. apply insert_keywords_grows. Qed.

Lemma run_total resume w :
  exists w', run E resume w = Some w' /\ store_grows (db w) (db w').
Proof.
  unfold run, loaded.
  set (w1 := if negb resume || negb (db_path_exists E)
             then snd (load_keywords E w) else w).
  assert (store_grows (db w) (db w1)) as Hg.
  { subst w1. destruct (negb resume || negb (db_path_exists E)).
    - apply load_keywords_grows.
    - apply store_grows_refl. }
  destruct (run_loop_follows (get_pending_keywords (db w1)) w1)
    as (w' & evs & Hrun & (_ & Hf & _) & _).
  destruct (get_pending_keywords (db w1)) as [|p l] eqn:Hp.
  - eauto.
  - rewrite Hrun. exists w'. split; [done|]. eapply store_grows_trans; eauto.
Qed.

End Effects.

Lemma runs_total jobs d :
  exists d', runs jobs d = Some d' /\ store_grows d d'.
Proof.
  revert d. induction jobs as [|[E resume] jobs IH]; intros d; simpl.
  - exists d. split; [done|]. apply store_grows_refl.
  - destruct (run_total E resume {| db := d; history := [] |}) as (w' & -> & Hg).
    destruct (IH (db w')) as (d' & -> & Hg').
    exists d'. split; [done|]. eapply store_grows_trans; eauto.
Qed.

Lemma commit_pages_grows pages d : store_grows d (commit_pages pages d).
Proof.
  unfold commit_pages. revert d.
  induction pages as [|[[t ps] kid] pages IH]; intros d; simpl.
  - apply store_grows_refl.
  - eapply store_grows_trans; [apply store_papers_grows|apply IH].
Qed.

(* ================================================================== *)
(** * Deduplication (C1, C2, C8, C9)                                   *)
(* ================================================================== *)

(** C1.  Re-ingesting a stored identifier is a no-op.  In a database
    that satisfies the primary key of [papers], take any stored row [r].
    The insertion statement of [store_papers], given any paper with the
    identifier of [r], leaves the table as it is and reports no row.
    After any sequence of page commits, and after any sequence of runs
    (each with its own upstream, signals, keywords file and [resume]
    argument), the rows of [papers] with that identifier are exactly [r]
    itself: one row, with every field as first stored. *)
Theorem C1_reingestion_is_noop
    (jobs : list (environment * bool)) (pages : list (nat * list paper * Z))
    (d : database) (r : paper_row) :
  papers_pk d -> In r (papers d) ->
  (forall t p, arxiv_id p = arxiv_id (row_paper r) ->
     insert_paper t p (papers d) = (papers d, 0)) /\
  papers_with_id (arxiv_id (row_paper r)) (commit_pages pages d) = [r] /\
  exists d', runs jobs d = Some d' /\
    papers_with_id (arxiv_id (row_paper r)) d' = [r].
Proof.
  intros Hpk Hin. split; [|split].
  - intros t p Hid. unfold insert_paper.
    assert (has_paper (arxiv_id p) (papers d) = true) as ->; [|done].
    apply has_paper_true. rewrite Hid.
    by apply (in_map (fun x => arxiv_id (row_paper x))).
  - apply (store_grows_paper d); auto using commit_pages_grows.
  - destruct (runs_total jobs d) as (d' & Hruns & Hg).
    exists d'. split; [done|]. by apply (store_grows_paper d).
Qed.

Lemma C1_reingestion_is_noop_witness :
  papers_with_id "2101.00001"
    (commit_pages [(7%nat, [Sample.mk_paper "http://arxiv.org/abs/2101.00001v2"], 2)]
       Sample.db1)
  = [{| row_paper := Sample.mk_paper "http://arxiv.org/abs/2101.00001v1";
        created_at := 0 |}].
Proof.
  refine (proj1 (proj2 (C1_reingestion_is_noop
    [(Sample.quiet_env Sample.corpus3, true)]
    [(7%nat, [Sample.mk_paper "http://arxiv.org/abs/2101.00001v2"], 2)]
    Sample.db1
    {| row_paper := Sample.mk_paper "http://arxiv.org/abs/2101.00001v1";
       created_at := 0 |} _ _))).
  - unfold papers_pk. vm_compute. repeat constructor. intros [].
  - vm_compute. left. reflexivity.
Defined.

(** C2.  A (record, query) pair is linked at most once.  In a database
    that satisfies the primary key of [paper_keywords], linking a pair
    that is already linked leaves the table as it is and reports no row;
    and after any sequence of page commits, and after any sequence of
    runs, every pair has at most one row in the link table. *)
Theorem C2_pair_linked_at_most_once
    (jobs : list (environment * bool)) (pages : list (nat * list paper * Z))
    (d : database) (id : string) (kid : Z) :
  links_pk d ->
  (has_link id kid (paper_keywords d) = true ->
     insert_link id kid (paper_keywords d) = (paper_keywords d, 0)) /\
  (List.length (links_with id kid (commit_pages pages d)) <= 1)%nat /\
  exists d', runs jobs d = Some d' /\
    (List.length (links_with id kid d') <= 1)%nat.
Proof.
  intros Hpk. split; [|split].
  - intros Hhas. unfold insert_link. by rewrite Hhas.
  - apply links_pk_at_most_one. by apply (commit_pages_grows pages d).
  - destruct (runs_total jobs d) as (d' & Hruns & Hg).
    exists d'. split; [done|]. apply links_pk_at_most_one. by apply Hg.
Qed.

Lemma C2_pair_linked_at_most_once_witness :
  (List.length (links_with "2101.00001" 1%Z
     (commit_pages [(7, [Sample.mk_paper "http://arxiv.org/abs/2101.00001v2"], 1%Z)]
        Sample.db1)) <= 1)%nat.
Proof.
  refine (proj1 (proj2 (C2_pair_linked_at_most_once
    [(Sample.quiet_env Sample.corpus3, true)]
    [(7%nat, [Sample.mk_paper "http://arxiv.org/abs/2101.00001v2"], 1)]
    Sample.db1 "2101.00001" 1 _))).
  unfold links_pk. vm_compute. repeat constructor. intros [].
Defined.

(** C8.  The count [store_papers] returns is taken from the [rowcount]
    of the link insertion, not of the paper insertion.  A paper already
    in [papers] (stored for keyword 1) and committed for keyword 2 is
    counted as new although no row is added to [papers]; committed again
    for keyword 2 it is not counted. *)
Theorem C8_count_follows_the_link :
  let p := Sample.mk_paper "http://arxiv.org/abs/2101.00001v1" in
  let once := store_papers 5 [p] 2 Sample.db1 in
  has_paper (arxiv_id p) (papers Sample.db1) = true /\
  papers (fst once) = papers Sample.db1 /\
  snd once = 1 /\
  snd (store_papers 6 [p] 2 (fst once)) = 0.
Proof. vm_compute. repeat split. Qed.

(** C9.  The key is the last path segment of the entry id cut at its
    first ['v'].  For entry ids in arXiv's old scheme the archive name is
    a path segment of the identifier and is dropped with the URL prefix:
    two entries whose identifiers differ after version-stripping get the
    same key. *)
Theorem C9_archive_name_is_dropped :
  extract_arxiv_id "http://arxiv.org/abs/hep-th/9901001v1" = "9901001" /\
  extract_arxiv_id "http://arxiv.org/abs/math/9901001v2" = "9901001" /\
  SpecWords.strip_version "http://arxiv.org/abs/hep-th/9901001v1"
    = "http://arxiv.org/abs/hep-th/9901001" /\
  SpecWords.strip_version "http://arxiv.org/abs/math/9901001v2"
    = "http://arxiv.org/abs/math/9901001".
Proof. vm_compute. repeat split. Qed.

(* ================================================================== *)
(** * Resuming (C3, C10)                                               *)
(* ================================================================== *)

Section Resume.

Variable E : environment.

Lemma run_unfold resume w :
  run E resume w =
  let w1 := if negb resume || negb (db_path_exists E)
            then snd (load_keywords E w) else w in
  run_loop E (get_pending_keywords (db w1)) w1.
Proof.
  unfold run, loaded. cbv zeta.
  by destruct (get_pending_keywords _).
Qed.

Lemma load_keywords_history w :
  history (snd (load_keywords E w)) = history w ++ [OpenKeywordsFile].
Proof. done. Qed.

Lemma pending_texts d k :
  In k (List.map snd (get_pending_keywords d)) -> In k (List.map keyword (keywords d)).
Proof.
  unfold get_pending_keywords. rewrite map_map. simpl.
  rewrite !in_map_iff. intros (r & <- & Hin).
  apply order_by_id_in, filter_In in Hin as [Hin _]. eauto.
Qed.

Lemma pending_ascending d :
  keywords_ascending d ->
  get_pending_keywords d =
  List.map (fun r => (keyword_id r, keyword r)) (List.filter eligible (keywords d)).
Proof.
  intros Hasc. unfold get_pending_keywords. by rewrite order_by_id_filter.
Qed.

Lemma NoDup_map_inj_in {A B} (f : A -> B) (l : list A) x y :
  List.NoDup (List.map f l) -> In x l -> In y l -> f x = f y -> x = y.
Proof.
  induction l as [|a l IH]; simpl; [done|].
  intros Hnd Hx Hy Heq. inversion_clear Hnd as [|? ? Ha Hl].
  destruct Hx as [->|Hx], Hy as [->|Hy]; auto.
  - exfalso. apply Ha. rewrite Heq. by apply in_map.
  - exfalso. apply Ha. rewrite <- Heq. by apply in_map.
Qed.

Lemma ineligible_not_pending d r :
  keywords_ascending d -> In r (keywords d) -> eligible r = false ->
  ~ In (keyword_id r) (List.map fst (get_pending_keywords d)).
Proof.
  intros Hasc Hin Hel Hp. unfold get_pending_keywords in Hp.
  rewrite map_map in Hp. simpl in Hp.
  apply in_map_iff in Hp as (r2 & Hid & Hin2).
  apply order_by_id_in, filter_In in Hin2 as [Hin2 Hel2].
  assert (r2 = r) as ->; [|congruence].
  eapply NoDup_map_inj_in; eauto. by apply ascending_pk.
Qed.

End Resume.

(** C10.  [run] opens the keywords file exactly when it is called with
    [resume] false or finds no database file.  Called in resume mode on
    an existing database file it never opens it: no query is created (the
    texts in [keywords] are the same afterwards) and every keyword whose
    processing begins is one of the store. *)
Theorem C10_resume_never_reads_keywords_file (E : environment) (resume : bool)
    (w : world) :
  exists w' evs, run E resume w = Some w' /\ history w' = history w ++ evs /\
    (In OpenKeywordsFile evs <-> resume = false \/ db_path_exists E = false) /\
    (resume = true -> db_path_exists E = true ->
       List.map keyword (keywords (db w')) = List.map keyword (keywords (db w)) /\
       forall k, In k (processing_log evs) ->
                 In k (List.map keyword (keywords (db w)))).
Proof.
  rewrite run_unfold. cbv zeta.
  destruct (negb resume || negb (db_path_exists E)) eqn:Hload.
  - set (w1 := snd (load_keywords E w)).
    destruct (run_loop_follows E (get_pending_keywords (db w1)) w1)
      as (w' & evs & Hrun & (Hh & _) & _).
    exists w', ([OpenKeywordsFile] ++ evs). split; [done|].
    split; [by rewrite Hh, app_assoc|]. split.
    + split; [intros _|intros _; by left].
      apply orb_true_iff in Hload as [H|H]; apply negb_true_iff in H; auto.
    + intros Hr Hd. rewrite Hr, Hd in Hload. discriminate.
  - apply orb_false_iff in Hload as [Hr Hd].
    apply negb_false_iff in Hr, Hd.
    destruct (run_loop_follows E (get_pending_keywords (db w)) w)
      as (w' & evs & Hrun & (Hh & _ & Hk) & Hopen & [rest Hpre] & _).
    exists w', evs. split; [done|]. split; [done|]. split.
    + split; [done|]. intros [H|H]; congruence.
    + intros _ _. split; [by apply rows_kept_texts in Hk|].
      intros k Hin. apply pending_texts. rewrite Hpre. apply in_or_app. auto.
Qed.

Lemma C10_resume_never_reads_keywords_file_witness :
  exists w' evs,
    run (Sample.quiet_env Sample.corpus3) true
        {| db := Sample.db1; history := [] |} = Some w' /\
    history w' = [] ++ evs /\
    (In OpenKeywordsFile evs <->
     true = false \/ db_path_exists (Sample.quiet_env Sample.corpus3) = false).
Proof.
  destruct (C10_resume_never_reads_keywords_file (Sample.quiet_env Sample.corpus3)
              true {| db := Sample.db1; history := [] |})
    as (w' & evs & H1 & H2 & H3 & _).
  exists w', evs. auto.
Defined.

(** The order of ids is an invariant of the store: it holds of a fresh
    database and every run keeps it. *)
Section Ascending.

Lemma max_rowid_bound t r : In r t -> keyword_id r <= max_rowid t.
Proof.
  induction t as [|x t IH]; simpl; [done|].
  intros [->|Hin]; [lia|]. specialize (IH Hin). lia.
Qed.

Lemma ascending_snoc (l : list Z) (x : Z) :
  StronglySorted Z.lt l -> Forall (fun y => y < x) l ->
  StronglySorted Z.lt (l ++ [x]).
Proof.
  induction 1 as [|y l Hl IH Hy]; simpl; intros Hx.
  - repeat constructor.
  - inversion_clear Hx as [|? ? Hyx Hlx]. constructor; [auto|].
    apply Forall_app. split; [done|]. by repeat constructor.
Qed.

Lemma insert_keyword_ascending d k :
  keywords_ascending d -> keywords_ascending (insert_keyword d k).
Proof.
  unfold insert_keyword, keywords_ascending.
  destruct (has_keyword k (keywords d)); [done|]. simpl. intros Hasc.
  rewrite map_app. simpl. apply ascending_snoc; [done|].
  apply List.Forall_forall. intros y Hy.
  apply in_map_iff in Hy as (r & <- & Hr).
  apply max_rowid_bound in Hr. lia.
Qed.

Lemma load_keywords_ascending E w :
  keywords_ascending (db w) -> keywords_ascending (db (snd (load_keywords E w))).
Proof.
  unfold load_keywords. simpl. generalize (read_keywords (keywords_file E)) (db w).
  induction l as [|k l IH]; intros d Hd; simpl; [done|].
  by apply IH, insert_keyword_ascending.
Qed.

Lemma run_ascending E resume w w' :
  keywords_ascending (db w) -> run E resume w = Some w' ->
  keywords_ascending (db w').
Proof.
  rewrite run_unfold. cbv zeta. intros Hasc.
  set (w1 := if negb resume || negb (db_path_exists E)
             then snd (load_keywords E w) else w).
  assert (keywords_ascending (db w1)) as H1.
  { subst w1. destruct (negb resume || negb (db_path_exists E));
      [by apply load_keywords_ascending|done]. }
  destruct (run_loop_follows E (get_pending_keywords (db w1)) w1)
    as (w2 & evs & -> & (_ & _ & Hk) & _).
  intros [= <-]. eapply rows_kept_ascending; eauto.
Qed.

Lemma runs_ascending jobs d d' :
  keywords_ascending d -> runs jobs d = Some d' -> keywords_ascending d'.
Proof.
  revert d. induction jobs as [|[E resume] jobs IH]; intros d Hd; simpl.
  - by intros [= <-].
  - destruct (run E resume {| db := d; history := [] |}) as [w|] eqn:Hrun; [|done].
    apply IH. eapply run_ascending; [|exact Hrun]. done.
Qed.

Lemma setup_database_ascending : keywords_ascending setup_database.
Proof. constructor. Qed.

End Ascending.

Section Selection.

Variable E : environment.

Lemma insert_keyword_rows d k :
  exists extra, keywords (insert_keyword d k) = keywords d ++ extra.
Proof.
  unfold insert_keyword. destruct (has_keyword k (keywords d)); simpl.
  - exists []. by rewrite app_nil_r.
  - eauto.
Qed.

Lemma loaded_rows resume w r :
  In r (keywords (db w)) -> In r (keywords (db (loaded E resume w))).
Proof.
  unfold loaded. destruct (negb resume || negb (db_path_exists E)); [|done].
  unfold load_keywords. simpl. generalize (read_keywords (keywords_file E)) (db w).
  induction l as [|k l IH]; intros d Hin; simpl; [done|].
  apply IH. destruct (insert_keyword_rows d k) as [extra ->].
  apply in_or_app. auto.
Qed.

Lemma loaded_ascending resume w :
  keywords_ascending (db w) -> keywords_ascending (db (loaded E resume w)).
Proof.
  unfold loaded. destruct (negb resume || negb (db_path_exists E)); [|done].
  apply load_keywords_ascending.
Qed.

(** What [get_pending_keywords] returns on any table: the eligible
    rows, by id. *)
Lemma get_pending_keywords_exact d kid kw :
  In (kid, kw) (get_pending_keywords d) <->
  exists r, In r (keywords d) /\ keyword_id r = kid /\ keyword r = kw /\
            (status r = pending \/ status r = failed).
Proof.
  unfold get_pending_keywords. rewrite in_map_iff. split.
  - intros (r & [= <- <-] & Hin).
    apply order_by_id_in, filter_In in Hin as [Hin Hel].
    exists r. repeat (split; [done|]).
    unfold eligible in Hel. destruct (status r); auto; discriminate.
  - intros (r & Hin & <- & <- & Hst). exists r. split; [done|].
    apply order_by_id_in, filter_In. split; [done|].
    unfold eligible. by destruct Hst as [-> | ->].
Qed.

Lemma get_pending_keywords_sorted d :
  StronglySorted Z.le (List.map fst (get_pending_keywords d)).
Proof.
  unfold get_pending_keywords. rewrite map_map. simpl.
  induction (order_by_id_sorted (List.filter eligible (keywords d)))
    as [|r l _ IH Hr]; simpl; constructor; [done|].
  rewrite List.Forall_forall in *. intros k Hk.
  apply in_map_iff in Hk as (x & <- & Hx). auto.
Qed.

End Selection.

(** C3.  A run re-invoked over an existing store, whose ids grow in
    creation order, iterates over exactly the rows whose status is
    [pending] or [failed] once the keywords file has been loaded or
    skipped (skipped in resume mode on an existing database file, where
    the store is the one found), in creation order.  It begins their
    processing in that order: a prefix of them always, and all of them
    when no shutdown is ever requested.  Every row the store held in
    another status ([completed], [interrupted], [processing]) is found
    unchanged under its id afterwards. *)
Theorem C3_resume_selects_pending_and_failed (E : environment) (resume : bool)
    (w : world) :
  keywords_ascending (db w) ->
  let w1 := loaded E resume w in
  let selected := List.filter eligible (keywords (db w1)) in
  (resume = true -> db_path_exists E = true -> w1 = w) /\
  get_pending_keywords (db w1) = List.map (fun r => (keyword_id r, keyword r)) selected /\
  (forall r, In r selected <->
             In r (keywords (db w1)) /\ (status r = pending \/ status r = failed)) /\
  exists w' evs, run E resume w = Some w' /\ history w' = history w1 ++ evs /\
    (exists rest, List.map keyword selected = processing_log evs ++ rest) /\
    (never_requested E -> processing_log evs = List.map keyword selected) /\
    (forall r, In r (keywords (db w)) -> eligible r = false ->
       lookup_keyword (keyword_id r) (db w') = Some r).
Proof.
  intros Hasc w1 selected.
  assert (keywords_ascending (db w1)) as Hasc1 by by apply loaded_ascending.
  split; [|split; [by apply pending_ascending|split]].
  - intros Hr Hd. subst w1. unfold loaded. by rewrite Hr, Hd.
  - intros r. subst selected. rewrite filter_In. unfold eligible.
    split; intros [Hin Hst]; (split; [done|]).
    + destruct (status r); auto; discriminate.
    + by destruct Hst as [-> | ->].
  - rewrite run_unfold. cbv zeta. fold (loaded E resume w). fold w1.
    destruct (run_loop_follows E (get_pending_keywords (db w1)) w1)
      as (w' & evs & Hrun & (Hh & _ & Hk) & _ & Hpre & Hall).
    assert (List.map snd (get_pending_keywords (db w1)) = List.map keyword selected)
      as Hsnd.
    { rewrite pending_ascending by done. by rewrite map_map. }
    rewrite Hsnd in *.
    exists w', evs. repeat (split; [done|]).
    intros r Hin Hel. apply (loaded_rows E resume) in Hin. fold w1 in Hin.
    rewrite (rows_kept_lookup _ _ _ _ Hk).
    + apply lookup_keyword_in; [by apply ascending_pk|done].
    + by apply ineligible_not_pending.
Qed.

Lemma C3_resume_selects_pending_and_failed_witness :
  exists w' evs,
    run (Sample.quiet_env Sample.corpus3) true
        {| db := Sample.db_mixed; history := [] |} = Some w' /\
    history w' = [] ++ evs /\
    processing_log evs = ["malformed topic"; "graph neural networks"] /\
    lookup_keyword 1 (db w') = Some (Sample.mk_row 1 "expert systems" completed) /\
    lookup_keyword 3 (db w') = Some (Sample.mk_row 3 "fuzzy logic" interrupted).
Proof.
  destruct (C3_resume_selects_pending_and_failed
              (Sample.quiet_env Sample.corpus3) true
              {| db := Sample.db_mixed; history := [] |})
    as (_ & _ & _ & w' & evs & Hrun & Hh & _ & Hall & Hrows).
  - unfold keywords_ascending. simpl. repeat constructor.
  - exists w', evs. split; [exact Hrun|]. split; [exact Hh|].
    split; [apply Hall; intros h; reflexivity|]. split.
    + apply (Hrows (Sample.mk_row 1 "expert systems" completed));
        [simpl; auto|reflexivity].
    + apply (Hrows (Sample.mk_row 3 "fuzzy logic" interrupted));
        [simpl; auto|reflexivity].
Defined.


(* ================================================================== *)
(** * The ceiling (C4)                                                 *)
(* ================================================================== *)

Section Ceiling.

Variable E : environment.

Lemma within_ceiling_update kid f d :
  within_ceiling d ->
  (forall r, processed_results r <= max_results_per_keyword /\
             total_results r <= max_results_per_keyword ->
             processed_results (f r) <= max_results_per_keyword /\
             total_results (f r) <= max_results_per_keyword) ->
  within_ceiling (update_keyword kid f d).
Proof.
  intros Hd Hf r Hin. unfold update_keyword in Hin. simpl in Hin.
  apply in_map_iff in Hin as (r0 & <- & Hin0).
  destruct (keyword_id r0 =? kid); auto.
Qed.

Lemma within_ceiling_commit kid st ps t w :
  within_ceiling (db w) ->
  total_processed st + Z.of_nat (List.length ps) <= max_results_per_keyword ->
  found_total st <= max_results_per_keyword ->
  within_ceiling (db (snd (commit_page E kid st ps t w))).
Proof.
  intros Hd Hp Ht. unfold commit_page. simpl.
  apply within_ceiling_update.
  - intros r Hin. apply Hd.
    by rewrite (proj1 (store_papers_keywords _ _ _ _)) in Hin.
  - intros r _. simpl. split; [done|].
    destruct (start st =? 0); [|done].
    apply Z.le_min_r.
Qed.

Lemma commit_page_locals kid st ps t w :
  fst (commit_page E kid st ps t w) =
  {| start := start st;
     total_processed := total_processed st + Z.of_nat (List.length ps);
     total_stored := total_stored st + snd (store_papers (now E w) ps kid (db w));
     found_total := if start st =? 0 then Z.min t max_results_per_keyword
                    else found_total st |}.
Proof. done. Qed.

Lemma commit_page_lookup kid st ps t w :
  lookup_keyword kid (db (snd (commit_page E kid st ps t w))) =
  option_map (set_progress (found_total (fst (commit_page E kid st ps t w)))
                           (total_processed (fst (commit_page E kid st ps t w))))
             (lookup_keyword kid (db w)).
Proof.
  unfold commit_page. cbn [fst snd db with_db found_total total_processed].
  rewrite lookup_update_same by done. f_equal.
  unfold lookup_keyword. by rewrite (proj1 (store_papers_keywords _ _ _ _)).
Qed.

Lemma rate_limit_db st w : db (rate_limit E st w) = db w.
Proof.
  unfold rate_limit. destruct (start st <? found_total st); [|done].
  simpl. by destruct (shutdown_requested E (history w)).
Qed.

Lemma finish_keyword_ceiling kw kid x w :
  within_ceiling (db w) -> within_ceiling (db (snd (finish_keyword E kw kid (x, w)))).
Proof.
  intros Hd. destruct x as [st|msg]; simpl; by apply within_ceiling_update.
Qed.

(** The size of the page a well-behaved upstream returns below the
    ceiling. *)
Lemma page_within_request kw st w ps t :
  well_behaved E -> start st < max_results_per_keyword ->
  answer E kw st w = inl (ps, t) ->
  Z.of_nat (List.length ps) <= max_results_per_keyword - start st.
Proof.
  intros Hwb Hlt Hresp. apply answer_page in Hresp as (entries & Hfeed & Hps).
  apply Hwb in Hfeed. apply papers_of_entries_length in Hps.
  unfold request_size, batch_size in *. lia.
Qed.

Lemma committed_ceiling kw kid st w ps t :
  well_behaved E -> start st < max_results_per_keyword ->
  answer E kw st w = inl (ps, t) ->
  within_ceiling (db w) -> total_processed st <= start st ->
  found_total st <= max_results_per_keyword ->
  within_ceiling (db (snd (committed E kw kid st w ps t))) /\
  total_processed (fst (committed E kw kid st w ps t))
    <= start st + Z.of_nat (List.length ps) /\
  start st + Z.of_nat (List.length ps) <= max_results_per_keyword /\
  found_total (fst (committed E kw kid st w ps t)) <= max_results_per_keyword.
Proof.
  intros Hwb Hlt Hresp Hd Hp Ht.
  pose proof (page_within_request _ _ _ _ _ Hwb Hlt Hresp) as Hsize.
  unfold committed. split.
  { apply within_ceiling_commit; [exact Hd| |done]. lia. }
  rewrite commit_page_locals. simpl.
  split; [lia|]. split; [lia|].
  destruct (start st =? 0); [apply Z.le_min_r|done].
Qed.

(** The invariant of the head of the loop under a well-behaved
    upstream. *)
Lemma page_loop_ceiling kw kid st w :
  well_behaved E -> within_ceiling (db w) ->
  total_processed st <= start st -> start st <= max_results_per_keyword ->
  found_total st <= max_results_per_keyword ->
  exists x w1,
    continue_keyword E kw kid st w = Some (finish_keyword E kw kid (x, w1)) /\
    within_ceiling (db w1) /\
    match x with
    | Done st' => total_processed st' <= max_results_per_keyword /\
                  found_total st' <= max_results_per_keyword
    | Failed _ => True
    end.
Proof.
  intros Hwb Hd Hps Hs Ht.
  destruct (continue_keyword_rule E kw kid
    (fun st w => within_ceiling (db w) /\ total_processed st <= start st /\
                 start st <= max_results_per_keyword /\
                 found_total st <= max_results_per_keyword)
    (fun x w => within_ceiling (db w) /\
                match x with
                | Done st' => total_processed st' <= max_results_per_keyword /\
                              found_total st' <= max_results_per_keyword
                | Failed _ => True
                end)) with (st := st) (w := w) as (x & w1 & HQ & Heq); [| | |auto|eauto].
  - intros st0 w0 (Hd0 & Hp0 & Hs0 & Ht0) Hge. split; [done|]. split; [lia|done].
  - intros st0 w0 x w' (Hd0 & Hp0 & Hs0 & Ht0) Hlt Hcase.
    apply round_stop_inv in Hcase
      as [(_ & -> & ->)|[(_ & msg & _ & -> & ->)|(_ & ps & t & Hresp & _ & -> & ->)]].
    + split; [done|]. split; [lia|done].
    + done.
    + destruct (committed_ceiling kw kid st0 w0 ps t) as (H1 & H2 & H3 & H4); auto.
      split; [done|]. split; [lia|done].
  - intros st0 w0 st' w' (Hd0 & Hp0 & Hs0 & Ht0) Hlt Hcase.
    apply round_next_inv in Hcase as (_ & ps & t & Hresp & _ & -> & ->).
    destruct (committed_ceiling kw kid st0 w0 ps t) as (H1 & H2 & H3 & H4); auto.
    rewrite rate_limit_db. unfold advance. simpl. auto.
Qed.

(** One round, case by case, as equations. *)
Lemma page_round_shutdown kw kid st w :
  shutdown_requested E (history w) = true ->
  page_round E kw kid st w = Stop (Done st) (emit (FlagRead true) w).
Proof. intros H. unfold page_round, read_flag. by rewrite H. Qed.

Lemma page_round_answer kw kid st w :
  shutdown_requested E (history w) = false ->
  page_round E kw kid st w =
  match answer E kw st w with
  | inr msg => Stop (Failed msg) (asked kw st w)
  | inl (ps, t) =>
      if Z.of_nat (List.length ps) <? batch_size
      then Stop (Done (fst (committed E kw kid st w ps t)))
                (snd (committed E kw kid st w ps t))
      else Next (advance (Z.of_nat (List.length ps)) (fst (committed E kw kid st w ps t)))
             (rate_limit E
                (advance (Z.of_nat (List.length ps)) (fst (committed E kw kid st w ps t)))
                (snd (committed E kw kid st w ps t)))
  end.
Proof.
  intros H. unfold page_round, read_flag. rewrite H.
  change (emit (FlagRead false) w) with (asking w).
  rewrite query_arxiv_asked.
  destruct (answer E kw st w) as [[ps t]|msg]; [|done].
  change (commit_page E kid st ps t (asked kw st w))
    with (committed E kw kid st w ps t).
  by destruct (committed E kw kid st w ps t).
Qed.

(** Once the offset has left zero the recorded total no longer moves. *)
Lemma committed_total kw kid st w ps t :
  found_total (fst (committed E kw kid st w ps t)) =
  if start st =? 0 then Z.min t max_results_per_keyword else found_total st.
Proof. done. Qed.

Lemma committed_row kw kid st w ps t r :
  lookup_keyword kid (db (snd (committed E kw kid st w ps t))) = Some r ->
  total_results r = found_total (fst (committed E kw kid st w ps t)) /\
  processed_results r = total_processed (fst (committed E kw kid st w ps t)).
Proof.
  unfold committed. rewrite commit_page_lookup.
  destruct (lookup_keyword kid (db (asked kw st w))); [|done].
  simpl. by intros [= <-].
Qed.

Lemma finish_keyword_row kw kid x w r' :
  lookup_keyword kid (db (snd (finish_keyword E kw kid (x, w)))) = Some r' ->
  exists r, lookup_keyword kid (db w) = Some r /\
    total_results r' = total_results r /\
    processed_results r' = processed_results r /\
    completed_at r' = Some (now E (snd (finish_keyword E kw kid (x, w)))) /\
    match x with
    | Done _ => status r' = (if shutdown_requested E (history w)
                             then interrupted else completed) /\
                error_message r' = error_message r
    | Failed msg => status r' = failed /\ error_message r' = Some msg
    end.
Proof.
  destruct x as [st|msg]; unfold finish_keyword, read_flag; cbn [snd];
    unfold with_db; cbn [db]; rewrite lookup_update_same by done;
    change (db (emit _ w)) with (db w);
    destruct (lookup_keyword kid (db w)) as [r|]; try done;
    simpl; intros [= <-]; exists r; done.
Qed.

Lemma page_loop_fixed_total kw kid st w T :
  0 < start st -> found_total st = T ->
  (forall r, lookup_keyword kid (db w) = Some r -> total_results r = T) ->
  exists x w1,
    continue_keyword E kw kid st w = Some (finish_keyword E kw kid (x, w1)) /\
    (forall r, lookup_keyword kid (db w1) = Some r -> total_results r = T).
Proof.
  intros Hs Ht Hrow.
  destruct (continue_keyword_rule E kw kid
    (fun st w => 0 < start st /\ found_total st = T /\
       forall r, lookup_keyword kid (db w) = Some r -> total_results r = T)
    (fun _ w => forall r, lookup_keyword kid (db w) = Some r -> total_results r = T))
    with (st := st) (w := w) as (x & w1 & HQ & Heq); [| | |auto|eauto].
  - by intros st0 w0 (_ & _ & H) _.
  - intros st0 w0 x w' (Hs0 & Ht0 & Hrow0) _ Hcase.
    apply round_stop_inv in Hcase
      as [(_ & -> & ->)|[(_ & msg & _ & -> & ->)|(_ & ps & t & _ & _ & -> & ->)]];
      [exact Hrow0|exact Hrow0|].
    intros r Hr. apply committed_row in Hr as [-> _].
    rewrite committed_total.
    destruct (start st0 =? 0) eqn:H0; [|done]. apply Z.eqb_eq in H0. lia.
  - intros st0 w0 st' w' (Hs0 & Ht0 & Hrow0) _ Hcase.
    apply round_next_inv in Hcase as (_ & ps & t & _ & Hlen & -> & ->).
    assert (found_total (fst (committed E kw kid st0 w0 ps t)) = T) as Hc.
    { rewrite committed_total.
      destruct (start st0 =? 0) eqn:H0; [|done]. apply Z.eqb_eq in H0. lia. }
    split; [unfold advance, committed, commit_page; simpl; lia|].
    split; [done|]. rewrite rate_limit_db.
    intros r Hr. by apply committed_row in Hr as [-> _].
Qed.

End Ceiling.

(** C4.  With an upstream that returns at most the requested number
    of entries, processing a query never counts more than the ceiling of
    2000: the counters the call returns and the counters of every row of
    [keywords] stay within it.  When [query_arxiv] returns the first page
    with a reported total [t], the total recorded on the row of the query
    is [t] clamped to the ceiling, and it stays so until the call ends. *)
Theorem C4_processed_within_ceiling (E : environment) (kw : string) (kid : Z)
    (w : world) :
  well_behaved E -> within_ceiling (db w) ->
  max_results_per_keyword = 2000 /\
  exists o w', process_keyword E kw kid w = Some (o, w') /\
    within_ceiling (db w') /\
    (forall r, o = Returned r ->
       res_processed r <= max_results_per_keyword /\
       res_total_results r <= max_results_per_keyword) /\
    (forall ps t,
       shutdown_requested E (history (begin_keyword E kw kid w)) = false ->
       answer E kw initial_locals (begin_keyword E kw kid w) = inl (ps, t) ->
       forall r, lookup_keyword kid (db w') = Some r ->
         total_results r = Z.min t max_results_per_keyword).
Proof.
  intros Hwb Hd. split; [done|].
  set (w0 := begin_keyword E kw kid w).
  assert (within_ceiling (db w0)) as Hd0.
  { subst w0. unfold begin_keyword. cbv zeta. simpl.
    by apply within_ceiling_update. }
  destruct (page_loop_ceiling E kw kid initial_locals w0)
    as (x & w1 & Heq & Hd1 & Hx); auto; try (simpl; unfold max_results_per_keyword; lia).
  unfold process_keyword. fold w0. rewrite Heq.
  destruct (finish_keyword E kw kid (x, w1)) as [o w'] eqn:Hfin.
  exists o, w'. split; [done|].
  split; [|split].
  - replace w' with (snd (finish_keyword E kw kid (x, w1))) by (by rewrite Hfin).
    by apply finish_keyword_ceiling.
  - intros r ->. destruct x as [st'|msg]; simpl in Hfin; [|done].
    by injection Hfin as <- _.
  - intros ps t Hflag Hresp r Hr.
    assert (exists x2 w2,
      continue_keyword E kw kid initial_locals w0
        = Some (finish_keyword E kw kid (x2, w2)) /\
      forall r, lookup_keyword kid (db w2) = Some r ->
                total_results r = Z.min t max_results_per_keyword)
      as (x2 & w2 & Heq2 & Hrow).
    { pose proof (page_round_answer E kw kid initial_locals w0 Hflag) as Hround.
      rewrite Hresp in Hround.
      destruct (Z.of_nat (List.length ps) <? batch_size) eqn:Hlen.
      - eexists _, _. split.
        + apply continue_keyword_stop; [done|exact Hround].
        + intros r0 Hr0. by apply committed_row in Hr0 as [-> _].
      - apply Z.ltb_ge in Hlen.
        rewrite (continue_keyword_next E kw kid initial_locals w0 _ _ eq_refl Hround).
        apply page_loop_fixed_total.
        + unfold advance, committed, commit_page, batch_size in *. simpl. lia.
        + done.
        + rewrite rate_limit_db. intros r0 Hr0.
          by apply committed_row in Hr0 as [-> _]. }
    rewrite Heq in Heq2.
    apply (f_equal (fun p => match p with Some q => snd q | None => w' end)) in Heq2.
    cbn beta iota in Heq2. change (snd (o, w')) with w' in Heq2. rewrite Heq2 in Hr.
    apply finish_keyword_row in Hr as (r0 & Hr0 & -> & _).
    by apply Hrow.
Qed.

Lemma C4_processed_within_ceiling_witness :
  exists o w',
    process_keyword (Sample.quiet_env (Sample.numbered 2600)) "graph neural networks" 1
      {| db := Sample.db1; history := [] |} = Some (o, w') /\
    within_ceiling (db w') /\
    (forall r, o = Returned r -> res_processed r <= 2000 /\ res_total_results r <= 2000) /\
    (forall r, lookup_keyword 1 (db w') = Some r -> total_results r = Z.min 2600 2000).
Proof.
  destruct (C4_processed_within_ceiling (Sample.quiet_env (Sample.numbered 2600))
              "graph neural networks" 1 {| db := Sample.db1; history := [] |})
    as (_ & o & w' & Hrun & Hd & Hr & Hclamp).
  - intros h kw s m es t [= <- _].
    rewrite length_firstn. lia.
  - intros r Hin. vm_compute in Hin.
    destruct Hin as [<-|[<-|[]]]; vm_compute; split; discriminate.
  - exists o, w'. repeat (split; [assumption|]).
    apply (Hclamp (Sample.papers_of (firstn 500 (Sample.numbered 2600))) 2600).
    + reflexivity.
    + vm_compute. reflexivity.
Defined.

(* ================================================================== *)
(** * Short pages, shutdown and failures (C5, C6, C7)                  *)
(* ================================================================== *)

Section Exits.

Variable E : environment.

Lemma only_row_changed_update kid f d :
  (forall r, keyword_id (f r) = keyword_id r /\ keyword (f r) = keyword r) ->
  only_row_changed kid d (update_keyword kid f d).
Proof.
  intros Hf. split; [done|]. split; [done|]. intros k Hk.
  apply (rows_kept_lookup [kid]); [by apply rows_kept_update|].
  intros [->|[]]. done.
Qed.

(** The final update of a query that left its loop normally. *)
Lemma finish_done kw kid st w :
  exists r w',
    finish_keyword E kw kid (Done st, w) = (Returned r, w') /\
    res_processed r = total_processed st /\
    res_total_results r = found_total st /\
    res_status r = (if shutdown_requested E (history w) then interrupted else completed) /\
    history w' = history w ++ [FlagRead (shutdown_requested E (history w))] /\
    row_finished (res_status r) kid (db w) (db w').
Proof.
  eexists _, _. split; [reflexivity|]. simpl.
  repeat (split; [done|]). split.
  - by apply only_row_changed_update.
  - intros row Hrow. eexists. rewrite lookup_update_same by done.
    rewrite Hrow. simpl. done.
Qed.

(** The final update of a query whose fetch raised. *)
Lemma finish_failed kw kid msg w :
  exists w',
    finish_keyword E kw kid (Failed msg, w) = (Raised msg, w') /\
    history w' = history w /\
    row_finished failed kid (db w) (db w') /\
    forall row', lookup_keyword kid (db w') = Some row' ->
                 error_message row' = Some msg.
Proof.
  eexists. split; [reflexivity|]. simpl. split; [done|]. split; [split|].
  - by apply only_row_changed_update.
  - intros row Hrow. eexists. rewrite lookup_update_same by done.
    rewrite Hrow. simpl. done.
  - intros row'. rewrite lookup_update_same by done.
    destruct (lookup_keyword kid (db w)); [|done]. simpl. by intros [= <-].
Qed.

Lemma continue_keyword_reaches kw kid st w st' w' :
  reaches E kw kid st w st' w' ->
  continue_keyword E kw kid st w = continue_keyword E kw kid st' w'.
Proof.
  induction 1 as [|st w st1 w1 st2 w2 Hlt Hround _ IH]; [done|].
  by rewrite (continue_keyword_next E kw kid st w st1 w1 Hlt Hround).
Qed.

(** With the flag set, the loop of [run] stops at once. *)
Lemma run_loop_halted rest w :
  shutdown_requested E (history w) = true -> halted E rest w.
Proof.
  intros Hflag. unfold halted. destruct rest as [|[kid kw] rest]; simpl.
  - exists w, []. by rewrite app_nil_r.
  - rewrite Hflag. by exists (emit (FlagRead true) w), [FlagRead true].
Qed.

End Exits.

(** After the flag has been seen set, nothing but reads of it. *)
Section Orderly.

Variable E : environment.
Hypothesis Hmono : flag_monotone E.

Lemma calm_all_true evs : forallb is_flag_read_true evs = true -> calm evs = true.
Proof.
  destruct evs as [|[[]| | | |] evs]; simpl; done.
Qed.

Lemma calm_app evs1 evs2 :
  calm evs1 = true -> calm evs2 = true ->
  (existsb is_flag_read_true evs1 = true -> forallb is_flag_read_true evs2 = true) ->
  calm (evs1 ++ evs2) = true.
Proof.
  induction evs1 as [|ev evs1 IH]; simpl; [done|].
  destruct ev as [[]| | | |]; simpl; auto.
  intros H1 H2 H12. rewrite forallb_app, H1. simpl. by apply H12.
Qed.

Lemma orderly_refl w : orderly E w [] w.
Proof. split; [by rewrite app_nil_r|]. done. Qed.

Lemma orderly_trans w1 evs1 w2 evs2 w3 :
  orderly E w1 evs1 w2 -> orderly E w2 evs2 w3 -> orderly E w1 (evs1 ++ evs2) w3.
Proof.
  intros (Hh1 & Hc1 & Hs1 & He1) (Hh2 & Hc2 & Hs2 & He2).
  split; [by rewrite Hh2, Hh1, app_assoc|]. split; [|split].
  - apply calm_app; auto.
  - intros Hflag. rewrite forallb_app, (Hs1 Hflag). simpl.
    apply Hs2. rewrite Hh1. by apply Hmono.
  - rewrite existsb_app. intros H. apply orb_true_iff in H as [H|H]; [|auto].
    rewrite Hh2. by apply Hmono, He1.
Qed.

Lemma orderly_read_flag w :
  orderly E w [FlagRead (shutdown_requested E (history w))] (snd (read_flag E w)).
Proof.
  split; [done|]. destruct (shutdown_requested E (history w)) eqn:Hflag; simpl.
  - repeat split; auto.
  - repeat split; auto; discriminate.
Qed.

(** Events that are not reads of the set flag, from a world where the
    flag is not set. *)
Lemma orderly_unset w evs w' :
  shutdown_requested E (history w) = false ->
  history w' = history w ++ evs ->
  existsb is_flag_read_true evs = false ->
  orderly E w evs w'.
Proof.
  intros Hflag Hh Hex. split; [done|]. split; [|split].
  - clear Hh. induction evs as [|[[]| | | |] evs IH]; simpl in *; auto; discriminate.
  - intros H. congruence.
  - intros H. congruence.
Qed.

Lemma orderly_rate_limit st w : exists evs, orderly E w evs (rate_limit E st w).
Proof.
  unfold rate_limit. destruct (start st <? found_total st).
  - destruct (shutdown_requested E (history w)) eqn:Hflag.
    + exists [FlagRead true].
      pose proof (orderly_read_flag w) as H. rewrite Hflag in H.
      unfold read_flag in *. by rewrite Hflag in *.
    + exists [FlagRead false; Sleep]. apply orderly_unset; try done.
      unfold read_flag. rewrite Hflag. simpl. by rewrite <- app_assoc.
  - exists []. apply orderly_refl.
Qed.

Lemma orderly_committed kw kid st w ps t :
  shutdown_requested E (history w) = false ->
  orderly E w [FlagRead false; Request kw (start st) (request_size st)]
          (snd (committed E kw kid st w ps t)).
Proof.
  intros Hflag. apply orderly_unset; try done.
  unfold committed, commit_page. simpl. by rewrite <- app_assoc.
Qed.

Lemma round_case_orderly kw kid st w r :
  round_case E kw kid st w r ->
  exists evs,
    match r with
    | Stop _ w' => orderly E w evs w'
    | Next _ w' => orderly E w evs w'
    end.
Proof.
  destruct 1 as [Hflag|msg Hflag Hresp|ps t Hflag Hresp Hlen|ps t Hflag Hresp Hlen].
  - exists [FlagRead true].
    pose proof (orderly_read_flag w) as H. unfold read_flag in H.
    by rewrite Hflag in H.
  - exists [FlagRead false; Request kw (start st) (request_size st)].
    apply orderly_unset; try done.
    unfold asked, asking. simpl. by rewrite <- app_assoc.
  - eexists. by apply orderly_committed.
  - match goal with |- context [rate_limit E ?st5 ?w4] =>
      destruct (orderly_rate_limit st5 w4) as (evs & Hrl) end.
    eexists. eapply orderly_trans; [by apply orderly_committed|exact Hrl].
Qed.

Lemma finish_keyword_orderly kw kid x w :
  exists evs, orderly E w evs (snd (finish_keyword E kw kid (x, w))).
Proof.
  destruct x as [st|msg].
  - exists [FlagRead (shutdown_requested E (history w))].
    apply (orderly_read_flag w).
  - exists []. split; [simpl; by rewrite app_nil_r|]. done.
Qed.

Lemma continue_keyword_orderly kw kid st w :
  exists o w' evs, continue_keyword E kw kid st w = Some (o, w') /\ orderly E w evs w'.
Proof.
  destruct (continue_keyword_rule E kw kid
    (fun _ w1 => exists evs, orderly E w evs w1)
    (fun _ w1 => exists evs, orderly E w evs w1))
    with (st := st) (w := w) as (x & w1 & (evs & Hord) & Heq).
  - auto.
  - intros st0 w0 x w' (evs & Hord) _ Hcase.
    apply round_case_orderly in Hcase as (evs' & Hord').
    exists (evs ++ evs'). eapply orderly_trans; eauto.
  - intros st0 w0 st' w' (evs & Hord) _ Hcase.
    apply round_case_orderly in Hcase as (evs' & Hord').
    exists (evs ++ evs'). eapply orderly_trans; eauto.
  - exists []. apply orderly_refl.
  - destruct (finish_keyword_orderly kw kid x w1) as (evs' & Hord').
    rewrite Heq. destruct (finish_keyword E kw kid (x, w1)) as [o w'].
    exists o, w', (evs ++ evs'). split; [done|]. eapply orderly_trans; eauto.
Qed.

Lemma run_loop_orderly pending w :
  exists w' evs, run_loop E pending w = Some w' /\ orderly E w evs w'.
Proof.
  revert w. induction pending as [|[kid kw] rest IH]; intros w; simpl.
  - exists w, []. split; [done|apply orderly_refl].
  - destruct (shutdown_requested E (history w)) eqn:Hflag.
    + exists (emit (FlagRead true) w), [FlagRead true]. split; [done|].
      pose proof (orderly_read_flag w) as H. unfold read_flag in H.
      by rewrite Hflag in H.
    + unfold process_keyword.
      destruct (continue_keyword_orderly kw kid initial_locals
                  (begin_keyword E kw kid (emit (FlagRead false) w)))
        as (o & w2 & evs & Heq & Hord).
      rewrite Heq.
      destruct (IH w2) as (w' & evs' & Hrun & Hord').
      exists w', (([FlagRead false; LogProcessing kw] ++ evs) ++ evs').
      split; [by destruct o|].
      eapply orderly_trans; [|exact Hord'].
      destruct Hord as (Hh & Hc & _ & He).
      split; [|split; [|split]].
      * rewrite Hh. unfold begin_keyword. simpl. by rewrite <- !app_assoc.
      * done.
      * intros H. congruence.
      * done.
Qed.

Lemma run_calm resume w :
  exists w' evs, run E resume w = Some w' /\
    history w' = history w ++ evs /\ calm evs = true.
Proof.
  rewrite run_unfold. cbv zeta. fold (loaded E resume w).
  destruct (run_loop_orderly (get_pending_keywords (db (loaded E resume w)))
              (loaded E resume w)) as (w' & evs & Hrun & Hh & Hc & _).
  unfold loaded in *. destruct (negb resume || negb (db_path_exists E)).
  - exists w', ([OpenKeywordsFile] ++ evs). split; [done|].
    split; [by rewrite Hh, load_keywords_history, <- app_assoc|done].
  - exists w', evs. done.
Qed.

End Orderly.

(** C5.  At the head of the loop, below the ceiling and with no
    shutdown requested, let [query_arxiv] return a page [ps] with any
    reported total [t].  If the page has fewer papers than the page size,
    the round leaves the loop right after the commit of that page: the
    query returns with the page counted, and the only later event is the
    read of the flag at line 303, which chooses the final status, on the
    returned dictionary and on the row: [completed] when the flag is
    unset there, [interrupted] when a shutdown was requested while the
    page was fetched.  Otherwise the loop goes back to its head with the
    offset moved by the number of papers returned.  Below the last page
    before the ceiling the size asked for is the page size. *)
Theorem C5_short_page_ends_pagination (E : environment) (kw : string) (kid : Z)
    (st : locals) (w : world) (ps : list paper) (t : Z) :
  start st < max_results_per_keyword ->
  shutdown_requested E (history w) = false ->
  answer E kw st w = inl (ps, t) ->
  let n := Z.of_nat (List.length ps) in
  let c := committed E kw kid st w ps t in
  (start st <= max_results_per_keyword - batch_size -> request_size st = batch_size) /\
  (n < batch_size ->
     page_round E kw kid st w = Stop (Done (fst c)) (snd c) /\
     history (snd c) =
       history w ++ [FlagRead false; Request kw (start st) (request_size st)] /\
     exists r w',
       continue_keyword E kw kid st w = Some (Returned r, w') /\
       res_processed r = total_processed st + n /\
       history w' = history (snd c) ++ [FlagRead (shutdown_requested E (history (snd c)))] /\
       res_status r =
         (if shutdown_requested E (history (snd c)) then interrupted else completed) /\
       row_finished (res_status r) kid (db (snd c)) (db w')) /\
  (batch_size <= n ->
     exists w5,
       page_round E kw kid st w = Next (advance n (fst c)) w5 /\
       start (advance n (fst c)) = start st + n /\
       continue_keyword E kw kid st w = continue_keyword E kw kid (advance n (fst c)) w5).
Proof.
  intros Hlt Hflag Hresp n c.
  pose proof (page_round_answer E kw kid st w Hflag) as Hround.
  rewrite Hresp in Hround. fold n c in Hround.
  split; [|split].
  - unfold request_size, batch_size, max_results_per_keyword. lia.
  - intros Hn. apply Z.ltb_lt in Hn. rewrite Hn in Hround.
    split; [done|]. split.
    { subst c. unfold committed, commit_page. simpl. by rewrite <- app_assoc. }
    destruct (finish_done E kw kid (fst c) (snd c))
      as (r & w' & Hfin & Hp & _ & Hs & Hh & Hrow).
    exists r, w'. split.
    { rewrite (continue_keyword_stop E kw kid st w _ _ Hlt Hround).
      by rewrite Hfin. }
    split; [|done].
    rewrite Hp. subst c n. unfold committed. rewrite commit_page_locals.
    simpl. done.
  - intros Hn. apply Z.ltb_ge in Hn. rewrite Hn in Hround.
    eexists. split; [exact Hround|]. split; [done|].
    by apply continue_keyword_next.
Qed.

Lemma C5_short_page_ends_pagination_witness :
  exists r w',
    continue_keyword (Sample.quiet_env Sample.corpus3) "graph neural networks" 1
      initial_locals {| db := Sample.db1; history := [] |} = Some (Returned r, w') /\
    res_processed r = 0 + 3 /\ res_status r = completed.
Proof.
  destruct (C5_short_page_ends_pagination (Sample.quiet_env Sample.corpus3)
              "graph neural networks" 1 initial_locals
              {| db := Sample.db1; history := [] |}
              (Sample.papers_of Sample.corpus3) 3)
    as (_ & Hshort & _).
  - reflexivity.
  - reflexivity.
  - reflexivity.
  - destruct Hshort as (_ & _ & r & w' & Hrun & Hp & _ & Hs & _); [reflexivity|].
    exists r, w'. split; [exact Hrun|]. split; [exact Hp|]. exact Hs.
Defined.

(** C5, the claim as worded: a short page need not end the query as
    [completed].  With the flag set while the only request is in flight, a
    page of three papers is committed and the query ends [interrupted]. *)
Lemma C5_short_page_may_end_interrupted :
  shutdown_requested (Sample.signalled_env Sample.corpus3 1) [] = false /\
  answer (Sample.signalled_env Sample.corpus3 1) "graph neural networks"
    initial_locals {| db := Sample.db1; history := [] |}
    = inl (Sample.papers_of Sample.corpus3, 3) /\
  Z.of_nat (List.length (Sample.papers_of Sample.corpus3)) < batch_size /\
  exists r w',
    continue_keyword (Sample.signalled_env Sample.corpus3 1) "graph neural networks" 1
      initial_locals {| db := Sample.db1; history := [] |} = Some (Returned r, w') /\
    res_processed r = 3 /\ res_status r = interrupted.
Proof.
  split; [reflexivity|]. split; [reflexivity|]. split; [reflexivity|].
  vm_compute. eexists _, _. repeat split.
Qed.

(** C6.  Let the shutdown flag, which is never cleared, be set when the
    head of the page loop is reached.  The round issues no request and
    leaves the loop with the locals as they are.  The query then returns
    [interrupted]: its row gets that status and a completion time and
    keeps the counters committed so far, no other row, paper or link
    changes, and nothing happens but reads of the flag.  The same holds
    when the flag is first seen after the loop (line 303); seen before
    the delay (line 298) it suppresses the delay.  In all cases, and
    whenever the loop of [run] is reached with the flag set, that loop
    ends without starting a query: the database is left as it is.  Over
    a whole run, once a read of the flag has returned true, the only
    later events are further such reads: no request, no delay, no query
    begun. *)
Theorem C6_shutdown_interrupts_and_stops (E : environment) (kw : string) (kid : Z)
    (st : locals) (w : world) (rest : list (Z * string)) :
  flag_monotone E -> shutdown_requested E (history w) = true ->
  page_round E kw kid st w = Stop (Done st) (emit (FlagRead true) w) /\
  (exists r w' evs,
     continue_keyword E kw kid st w = Some (Returned r, w') /\
     res_status r = interrupted /\ res_processed r = total_processed st /\
     history w' = history w ++ evs /\ forallb is_flag_read_true evs = true /\
     row_finished interrupted kid (db w) (db w') /\
     halted E rest w') /\
  (exists r w',
     finish_keyword E kw kid (Done st, w) = (Returned r, w') /\
     res_status r = interrupted /\ res_processed r = total_processed st /\
     history w' = history w ++ [FlagRead true] /\
     row_finished interrupted kid (db w) (db w') /\
     halted E rest w') /\
  (forall st', exists evs,
     history (rate_limit E st' w) = history w ++ evs /\
     forallb is_flag_read_true evs = true /\
     db (rate_limit E st' w) = db w) /\
  halted E rest w /\
  (forall resume w0, exists w1 evs,
     run E resume w0 = Some w1 /\ history w1 = history w0 ++ evs /\ calm evs = true).
Proof.
  intros Hmono Hflag.
  assert (forall st0 w0, shutdown_requested E (history w0) = true ->
    exists r w',
      finish_keyword E kw kid (Done st0, w0) = (Returned r, w') /\
      res_status r = interrupted /\ res_processed r = total_processed st0 /\
      history w' = history w0 ++ [FlagRead true] /\
      row_finished interrupted kid (db w0) (db w') /\
      halted E rest w') as Hfinish.
  { intros st0 w0 Hflag0.
    destruct (finish_done E kw kid st0 w0) as (r & w' & Hfin & Hp & _ & Hs & Hh & Hrow).
    rewrite Hflag0 in Hs, Hh. rewrite Hs in Hrow.
    exists r, w'. repeat (split; [done|]).
    apply run_loop_halted. rewrite Hh. by apply Hmono. }
  split; [by apply page_round_shutdown|]. split; [|split; [|split; [|split]]].
  - destruct (Z.ltb_spec (start st) max_results_per_keyword) as [Hlt|Hge].
    + destruct (Hfinish st (emit (FlagRead true) w))
        as (r & w' & Hfin & Hs & Hp & Hh & Hrow & Hhalt).
      { simpl. by apply Hmono. }
      exists r, w', ([FlagRead true] ++ [FlagRead true]).
      split.
      { rewrite (continue_keyword_stop E kw kid st w (Done st) (emit (FlagRead true) w));
          [by rewrite Hfin|done|by apply page_round_shutdown]. }
      repeat (split; [done|]). split; [by rewrite Hh; simpl; rewrite <- app_assoc|].
      done.
    + destruct (Hfinish st w Hflag) as (r & w' & Hfin & Hs & Hp & Hh & Hrow & Hhalt).
      exists r, w', [FlagRead true].
      split; [by rewrite (continue_keyword_exit E kw kid st w Hge), Hfin|].
      done.
  - by apply Hfinish.
  - intros st'. unfold rate_limit.
    destruct (start st' <? found_total st').
    + simpl. rewrite Hflag. simpl. by exists [FlagRead true].
    + exists []. by rewrite app_nil_r.
  - by apply run_loop_halted.
  - intros resume w0. by apply run_calm.
Qed.

Lemma C6_shutdown_interrupts_and_stops_witness :
  exists r w' evs,
    continue_keyword (Sample.signalled_env Sample.corpus3 0) "graph neural networks" 1
      initial_locals {| db := Sample.db1; history := [] |} = Some (Returned r, w') /\
    res_status r = interrupted /\
    history w' = [] ++ evs /\ forallb is_flag_read_true evs = true /\
    halted (Sample.signalled_env Sample.corpus3 0) [(2, "malformed topic")] w'.
Proof.
  destruct (C6_shutdown_interrupts_and_stops (Sample.signalled_env Sample.corpus3 0)
              "graph neural networks" 1 initial_locals
              {| db := Sample.db1; history := [] |} [(2, "malformed topic")])
    as (_ & (r & w' & evs & Hrun & Hs & _ & Hh & Hevs & _ & Hhalt) & _ & _ & _ & _).
  - intros h h' _. reflexivity.
  - reflexivity.
  - exists r, w', evs. auto.
Defined.

(** C7.  Let a query begun by the loop of [run] come, after any number
    of rounds, to a round in which [query_arxiv] raises an exception with
    text [msg].  Then [process_keyword] re-raises it after recording it:
    the row of the query has status [failed], the text as it is (empty
    when [str(e)] is empty) as its error message and a completion time,
    nothing else in the database differs from the moment of the request,
    and no further request is made.  The loop of [run] catches the
    exception and goes on with the rest of its list from that state, and
    it ends normally. *)
Theorem C7_failed_query_is_recorded_and_skipped (E : environment) (kw : string)
    (kid : Z) (rest : list (Z * string)) (w : world) (st1 : locals) (w1 : world)
    (msg : string) :
  shutdown_requested E (history w) = false ->
  reaches E kw kid initial_locals (begin_keyword E kw kid (asking w)) st1 w1 ->
  start st1 < max_results_per_keyword ->
  shutdown_requested E (history w1) = false ->
  answer E kw st1 w1 = inr msg ->
  exists w',
    process_keyword E kw kid (asking w) = Some (Raised msg, w') /\
    history w' = history (asked kw st1 w1) /\
    row_finished failed kid (db w1) (db w') /\
    (forall row', lookup_keyword kid (db w') = Some row' ->
       error_message row' = Some msg) /\
    run_loop E ((kid, kw) :: rest) w = run_loop E rest w' /\
    exists w'', run_loop E rest w' = Some w''.
Proof.
  intros Hflag Hreach Hlt Hflag1 Hresp.
  pose proof (page_round_answer E kw kid st1 w1 Hflag1) as Hround.
  rewrite Hresp in Hround.
  destruct (finish_failed E kw kid msg (asked kw st1 w1))
    as (w' & Hfin & Hh & Hrow & Herr).
  assert (process_keyword E kw kid (asking w) = Some (Raised msg, w')) as Hrun.
  { unfold process_keyword. rewrite (continue_keyword_reaches E kw kid _ _ _ _ Hreach).
    rewrite (continue_keyword_stop E kw kid st1 w1 _ _ Hlt Hround).
    by rewrite Hfin. }
  exists w'. do 3 (split; [done|]). split; [|split].
  - intros row' Hrow'. by rewrite (Herr row' Hrow').
  - simpl. rewrite Hflag. change (emit (FlagRead false) w) with (asking w).
    by rewrite Hrun.
  - destruct (run_loop_follows E rest w') as (w'' & _ & Hloop & _). eauto.
Qed.

Lemma C7_failed_query_is_recorded_and_skipped_witness :
  exists w',
    process_keyword (Sample.failing_env Sample.corpus3) "malformed topic" 2
      (asking {| db := Sample.db1; history := [] |})
      = Some (Raised "<urlopen error timed out>", w') /\
    run_loop (Sample.failing_env Sample.corpus3)
      [(2, "malformed topic"); (1, "graph neural networks")]
      {| db := Sample.db1; history := [] |}
    = run_loop (Sample.failing_env Sample.corpus3) [(1, "graph neural networks")] w'.
Proof.
  destruct (C7_failed_query_is_recorded_and_skipped (Sample.failing_env Sample.corpus3)
              "malformed topic" 2 [(1, "graph neural networks")]
              {| db := Sample.db1; history := [] |}
              initial_locals
              (begin_keyword (Sample.failing_env Sample.corpus3) "malformed topic" 2
                 (asking {| db := Sample.db1; history := [] |}))
              "<urlopen error timed out>")
    as (w' & Hrun & _ & _ & _ & Hloop & _).
  - reflexivity.
  - apply reaches_here.
  - reflexivity.
  - reflexivity.
  - reflexivity.
  - exists w'. split; [exact Hrun|exact Hloop].
Defined.

(** C7, the claim as worded: the error message recorded need not be
    non-empty.  When the exception raised has an empty text, the query
    ends [failed] with the empty string as its error message. *)
Lemma C7_error_message_may_be_empty :
  exists w' row',
    process_keyword Sample.mute_env "malformed topic" 2
      (asking {| db := Sample.db1; history := [] |})
      = Some (Raised EmptyString, w') /\
    lookup_keyword 2 (db w') = Some row' /\
    status row' = failed /\ error_message row' = Some EmptyString.
Proof. vm_compute. eexists _, _. repeat split. Qed.

(* ================================================================== *)
(** * The scenarios of the specification, run on the model             *)
(* ================================================================== *)

(** The scenarios but the last are run on feeds whose entries carry no
    primary category, so that [query_arxiv] returns their pages.

    Three pages of 500, 500 and 120 entries: the query ends
    [completed] with 1120 processed, after three requests with a delay
    between each pair. *)
Example scenario_three_pages :
  Sample.fresh_run {| urlopen := Sample.serve (Sample.numbered 1120);
                 shutdown_requested := fun _ => false;
                 CURRENT_TIMESTAMP := fun h => List.length h;
                 keywords_file := ["graph neural networks"];
                 db_path_exists := false |}
  = Some ([{| keyword_id := 1; keyword := "graph neural networks";
              total_results := 1120; processed_results := 1120;
              status := completed; started_at := Some 3%nat;
              completed_at := Some 14%nat; error_message := None |}],
          [OpenKeywordsFile; LogProcessing "graph neural networks";
           Request "graph neural networks" 0 500; Sleep;
           Request "graph neural networks" 500 500; Sleep;
           Request "graph neural networks" 1000 500],
          1120%nat).
Proof. vm_compute. reflexivity. Qed.

(** An upstream with 2600 matches: the total recorded is the ceiling,
    2000, and the query ends [completed] with 2000 processed after four
    requests, the last of them for the 500 entries below the ceiling. *)
Example scenario_ceiling :
  Sample.fresh_run {| urlopen := Sample.serve (Sample.numbered 2600);
                 shutdown_requested := fun _ => false;
                 CURRENT_TIMESTAMP := fun h => List.length h;
                 keywords_file := ["graph neural networks"];
                 db_path_exists := false |}
  = Some ([{| keyword_id := 1; keyword := "graph neural networks";
              total_results := 2000; processed_results := 2000;
              status := completed; started_at := Some 3%nat;
              completed_at := Some 18%nat; error_message := None |}],
          [OpenKeywordsFile; LogProcessing "graph neural networks";
           Request "graph neural networks" 0 500; Sleep;
           Request "graph neural networks" 500 500; Sleep;
           Request "graph neural networks" 1000 500; Sleep;
           Request "graph neural networks" 1500 500],
          2000%nat).
Proof. vm_compute. reflexivity. Qed.

(** The flag is set while the first page of an eventual 1200 matches
    is in flight: the query ends [interrupted] with 500 processed, no
    further request is made and the next query is not begun. *)
Example scenario_cancelled :
  Sample.fresh_run
    {| urlopen := Sample.serve (Sample.numbered 1200);
       shutdown_requested := fun h => (1 <=? List.length (List.filter is_request h))%nat;
       CURRENT_TIMESTAMP := fun h => List.length h;
       keywords_file := ["graph neural networks"; "fuzzy logic"];
       db_path_exists := false |}
  = Some ([{| keyword_id := 1; keyword := "graph neural networks";
              total_results := 1200; processed_results := 500;
              status := interrupted; started_at := Some 3%nat;
              completed_at := Some 8%nat; error_message := None |};
           Sample.mk_row 2 "fuzzy logic" pending],
          [OpenKeywordsFile; LogProcessing "graph neural networks";
           Request "graph neural networks" 0 500],
          500%nat).
Proof. vm_compute. reflexivity. Qed.

(** The request for ["malformed topic"] raises: the query ends
    [failed] with the text of the exception and the run goes on to the
    next query. *)
Example scenario_transport_error :
  Sample.fresh_run (Sample.failing_env Sample.corpus3)
  = Some ([{| keyword_id := 1; keyword := "malformed topic";
              total_results := 0; processed_results := 0;
              status := failed; started_at := Some 3%nat;
              completed_at := Some 5%nat;
              error_message := Some "<urlopen error timed out>" |};
           {| keyword_id := 2; keyword := "graph neural networks";
              total_results := 3; processed_results := 3;
              status := completed; started_at := Some 7%nat;
              completed_at := Some 10%nat; error_message := None |}],
          [OpenKeywordsFile; LogProcessing "malformed topic";
           Request "malformed topic" 0 500;
           LogProcessing "graph neural networks";
           Request "graph neural networks" 0 500],
          3%nat).
Proof. vm_compute. reflexivity. Qed.

(** A keywords file that repeats a line: the repeated keyword adds no
    row but uses up the id 2, and the last keyword gets the id 3. *)
Example scenario_repeated_keyword :
  let d := db (snd (load_keywords
                      {| urlopen := Sample.serve [];
                         shutdown_requested := fun _ => false;
                         CURRENT_TIMESTAMP := fun h => List.length h;
                         keywords_file := ["fuzzy logic"; "fuzzy logic"; "expert systems"];
                         db_path_exists := false |} Sample.fresh_world)) in
  List.map (fun r => (keyword_id r, keyword r)) (keywords d)
    = [(1, "fuzzy logic"); (3, "expert systems")] /\
  sqlite_sequence d = 3.
Proof. vm_compute. done. Qed.

(** Entries as arXiv serves them, each with its primary category:
    every query ends [failed] on its first page with the text of the
    [AttributeError] of line 180, and no paper is stored. *)
Example scenario_arxiv_entries :
  Sample.fresh_run (Sample.quiet_env Sample.arxiv3)
  = Some ([{| keyword_id := 1; keyword := "graph neural networks";
              total_results := 0; processed_results := 0;
              status := failed; started_at := Some 3%nat;
              completed_at := Some 5%nat;
              error_message := Some attribute_error |};
           {| keyword_id := 2; keyword := "malformed topic";
              total_results := 0; processed_results := 0;
              status := failed; started_at := Some 7%nat;
              completed_at := Some 9%nat;
              error_message := Some attribute_error |}],
          [OpenKeywordsFile; LogProcessing "graph neural networks";
           Request "graph neural networks" 0 500;
           LogProcessing "malformed topic"; Request "malformed topic" 0 500],
          0%nat).
Proof. vm_compute. reflexivity. Qed.

(* ================================================================== *)
(** * Parsing an entry                                                 *)
(* ================================================================== *)

Section Strings.

#[local] Arguments PyStr.isspace : simpl never.

Lemma contains_replace a b s : a <> b -> PyStr.contains a (PyStr.replace a b s) = false.
Proof.
  intros Hab. induction s as [|c s IH]; simpl; [done|].
  rewrite IH, orb_false_r. destruct (Ascii.eqb_spec c a) as [->|Hc].
  - apply Ascii.eqb_neq. congruence.
  - by apply Ascii.eqb_neq.
Qed.

Lemma contains_lstrip c s :
  PyStr.contains c s = false -> PyStr.contains c (PyStr.lstrip s) = false.
Proof.
  induction s as [|d s IH]; simpl; [done|]. intros H.
  apply orb_false_iff in H as [Hd Hs].
  destruct (PyStr.isspace d); [auto|]. simpl. by rewrite Hd, Hs.
Qed.

Lemma contains_rstrip c s :
  PyStr.contains c s = false -> PyStr.contains c (PyStr.rstrip s) = false.
Proof.
  induction s as [|d s IH]; simpl; [done|]. intros H.
  apply orb_false_iff in H as [Hd Hs]. specialize (IH Hs).
  destruct (PyStr.rstrip s) as [|e r].
  - destruct (PyStr.isspace d); simpl; [done|]. by rewrite Hd.
  - simpl in *. by rewrite Hd, IH.
Qed.

Lemma contains_strip c s :
  PyStr.contains c s = false -> PyStr.contains c (PyStr.strip s) = false.
Proof. intros H. by apply contains_rstrip, contains_lstrip. Qed.

Lemma lstrip_starts_clean s : starts_clean (PyStr.lstrip s) = true.
Proof.
  induction s as [|c s IH]; simpl; [done|].
  destruct (PyStr.isspace c) eqn:Hc; [done|]. simpl. by rewrite Hc.
Qed.

Lemma rstrip_starts_clean s :
  starts_clean s = true -> starts_clean (PyStr.rstrip s) = true.
Proof.
  destruct s as [|c s]; simpl; [done|]. intros Hc.
  destruct (PyStr.rstrip s); simpl; [|done].
  apply negb_true_iff in Hc. rewrite Hc. simpl. by rewrite Hc.
Qed.

Lemma rstrip_ends_clean s : ends_clean (PyStr.rstrip s) = true.
Proof.
  unfold ends_clean. induction s as [|c s IH]; simpl; [done|].
  destruct (PyStr.rstrip s) as [|d r].
  - destruct (PyStr.isspace c) eqn:Hc; simpl; [done|]. by rewrite Hc.
  - exact IH.
Qed.

Lemma lstrip_clean s : starts_clean s = true -> PyStr.lstrip s = s.
Proof.
  destruct s as [|c s]; simpl; [done|]. intros Hc.
  apply negb_true_iff in Hc. by rewrite Hc.
Qed.

Lemma rstrip_clean s : ends_clean s = true -> PyStr.rstrip s = s.
Proof.
  unfold ends_clean. induction s as [|c s IH]; [done|].
  destruct s as [|d s].
  - simpl. intros Hc. apply negb_true_iff in Hc. by rewrite Hc.
  - intros H. change (last_char (String c (String d s))) with (last_char (String d s)) in H.
    specialize (IH H). change (PyStr.rstrip (String c (String d s)))
      with (match PyStr.rstrip (String d s) with
            | EmptyString => if PyStr.isspace c then EmptyString else String c EmptyString
            | r => String c r
            end).
    by rewrite IH.
Qed.

Lemma strip_clean s :
  starts_clean (PyStr.strip s) = true /\ ends_clean (PyStr.strip s) = true.
Proof.
  unfold PyStr.strip. split.
  - apply rstrip_starts_clean, lstrip_starts_clean.
  - apply rstrip_ends_clean.
Qed.

Lemma strip_strip s : PyStr.strip (PyStr.strip s) = PyStr.strip s.
Proof.
  destruct (strip_clean s) as [H1 H2].
  unfold PyStr.strip at 1. rewrite (lstrip_clean _ H1). by apply rstrip_clean.
Qed.

(** Fields of a split hold no separator; the first is a prefix. *)
Lemma split_fields sep s :
  Forall (fun f => PyStr.contains sep f = false) (PyStr.split sep s).
Proof.
  induction s as [|c s IH]; simpl; [by repeat constructor|].
  destruct (Ascii.eqb c sep) eqn:Hc; [by constructor|].
  destruct (PyStr.split sep s) as [|f fs]; [by repeat constructor; simpl; rewrite Hc|].
  inversion_clear IH as [|? ? Hf Hfs]. constructor; [|done].
  simpl. by rewrite Hc, Hf.
Qed.

Lemma split_not_nil sep s : PyStr.split sep s <> [].
Proof.
  destruct s as [|c s]; simpl; [done|].
  destruct (Ascii.eqb c sep); [done|]. by destruct (PyStr.split sep s).
Qed.

Lemma split_none sep s : PyStr.contains sep s = false -> PyStr.split sep s = [s].
Proof.
  induction s as [|c s IH]; simpl; [done|]. intros H.
  apply orb_false_iff in H as [Hc Hs]. by rewrite Hc, (IH Hs).
Qed.

Lemma split_app sep a b :
  PyStr.split sep (a ++ String sep b) = PyStr.split sep a ++ PyStr.split sep b.
Proof.
  induction a as [|c a IH]; simpl.
  - by rewrite Ascii.eqb_refl.
  - destruct (Ascii.eqb c sep); [by rewrite IH|]. rewrite IH.
    pose proof (split_not_nil sep a) as Hne.
    by destruct (PyStr.split sep a).
Qed.

Lemma first_item_contains sep c s :
  PyStr.contains c s = false ->
  PyStr.contains c (PyStr.first_item (PyStr.split sep s)) = false.
Proof.
  induction s as [|d s IH]; simpl; [done|]. intros H.
  apply orb_false_iff in H as [Hd Hs]. specialize (IH Hs).
  destruct (Ascii.eqb d sep); [done|].
  destruct (PyStr.split sep s) as [|f fs]; simpl in *; by rewrite Hd, ?IH.
Qed.

Lemma last_item_field (P : string -> Prop) l :
  P EmptyString -> Forall P l -> P (PyStr.last_item l).
Proof.
  intros H0 Hl. unfold PyStr.last_item.
  induction Hl as [|x l Hx Hl IH]; simpl; [done|]. by destruct l.
Qed.

Lemma last_item_app l x : PyStr.last_item (l ++ [x]) = x.
Proof. unfold PyStr.last_item. apply last_last. Qed.

End Strings.

Lemma contains_append c a b :
  PyStr.contains c (a ++ b)%string = PyStr.contains c a || PyStr.contains c b.
Proof.
  induction a as [|d a IH]; simpl; [done|]. by rewrite IH, orb_assoc.
Qed.

Lemma extract_arxiv_id_chars id :
  PyStr.contains "/" (extract_arxiv_id id) = false /\
  PyStr.contains "v" (extract_arxiv_id id) = false.
Proof.
  unfold extract_arxiv_id.
  assert (PyStr.contains "/" (PyStr.last_item (PyStr.split "/" id)) = false) as Hslash.
  { apply (last_item_field (fun f => PyStr.contains "/" f = false)); [done|].
    apply split_fields. }
  destruct (PyStr.contains "v" (PyStr.last_item (PyStr.split "/" id))) eqn:Hv.
  - split; [by apply first_item_contains|].
    pose proof (split_fields "v" (PyStr.last_item (PyStr.split "/" id))) as Hf.
    pose proof (split_not_nil "v" (PyStr.last_item (PyStr.split "/" id))) as Hne.
    destruct (PyStr.split "v" (PyStr.last_item (PyStr.split "/" id))); [done|].
    by inversion_clear Hf.
  - done.
Qed.

(** X1.  The key [query_arxiv] derives from an entry id never holds a
    ['/'] or a ['v'], and deriving a key from a key changes nothing. *)
Theorem X1_key_has_no_slash_no_v (id : string) :
  PyStr.contains "/" (extract_arxiv_id id) = false /\
  PyStr.contains "v" (extract_arxiv_id id) = false /\
  extract_arxiv_id (extract_arxiv_id id) = extract_arxiv_id id.
Proof.
  destruct (extract_arxiv_id_chars id) as [Hs Hv]. repeat split; try done.
  set (k := extract_arxiv_id id) in *. unfold extract_arxiv_id.
  rewrite (split_none _ _ Hs). change (PyStr.last_item [k]) with k.
  by rewrite Hv.
Qed.

(** X2.  For an entry id that ends in a path segment [base], or in
    [base] followed by ['v'] and a version, where [base] holds no ['/']
    and no ['v'] and the version no ['/'], the key is [base]: the
    identifiers arXiv has issued since 2007 are of this form. *)
Theorem X2_key_of_new_style_id (prefix base version : string) :
  PyStr.contains "/" base = false -> PyStr.contains "v" base = false ->
  PyStr.contains "/" version = false ->
  extract_arxiv_id (prefix ++ String "/" (base ++ String "v" version))%string = base /\
  extract_arxiv_id (prefix ++ String "/" base)%string = base.
Proof.
  intros Hb Hbv Hver. unfold extract_arxiv_id. split.
  - rewrite split_app.
    assert (PyStr.contains "/" (base ++ String "v" version)%string = false) as Hx.
    { rewrite contains_append. simpl. by rewrite Hb, Hver. }
    rewrite (split_none _ _ Hx), last_item_app.
    assert (PyStr.contains "v" (base ++ String "v" version)%string = true) as ->.
    { rewrite contains_append. simpl. by rewrite orb_true_r. }
    rewrite split_app, (split_none _ _ Hbv). done.
  - rewrite split_app, (split_none _ _ Hb), last_item_app. by rewrite Hbv.
Qed.

Lemma X2_key_of_new_style_id_witness :
  extract_arxiv_id ("http://arxiv.org/abs" ++ String "/" ("2101.00001" ++ String "v" "12"))%string
  = "2101.00001".
Proof.
  apply (X2_key_of_new_style_id "http://arxiv.org/abs" "2101.00001" "12");
    reflexivity.
Defined.

(** X3.  The title and the abstract [query_arxiv] stores are on one
    line and have no white space at either end: so it is of the
    dictionary built for any entry, whatever its categories. *)
Theorem X3_title_and_abstract_are_clean (e : entry) (categories : list string) :
  let p := paper_dict e categories in
  (PyStr.contains newline (title p) = false /\
   starts_clean (title p) = true /\ ends_clean (title p) = true) /\
  (PyStr.contains newline (abstract p) = false /\
   starts_clean (abstract p) = true /\ ends_clean (abstract p) = true).
Proof.
  simpl. split; (split; [|apply strip_clean]);
    apply contains_strip, contains_replace; discriminate.
Qed.

(* ================================================================== *)
(** * Committing a page                                                *)
(* ================================================================== *)

Section Commit.

Lemma store_grows_has_paper d d' id :
  store_grows d d' -> has_paper id (papers d) = true -> has_paper id (papers d') = true.
Proof.
  intros ([e He] & _) H. apply has_paper_true in H. apply has_paper_true.
  rewrite He, map_app. apply in_or_app. auto.
Qed.

Lemma store_grows_has_link d d' id kid :
  store_grows d d' -> has_link id kid (paper_keywords d) = true ->
  has_link id kid (paper_keywords d') = true.
Proof.
  intros (_ & [e He] & _) H. apply has_link_true in H. apply has_link_true.
  rewrite He. apply in_or_app. auto.
Qed.

Lemma store_paper_stored t kid d n p :
  has_paper (arxiv_id p) (papers (fst (store_paper t kid (d, n) p))) = true /\
  has_link (arxiv_id p) kid (paper_keywords (fst (store_paper t kid (d, n) p))) = true.
Proof.
  unfold store_paper. simpl.
  destruct (insert_paper_spec t p (papers d)) as [[Hp ->]|[Hp ->]];
  destruct (insert_link_spec (arxiv_id p) kid (paper_keywords d)) as [[Hl ->]|[Hl ->]];
  simpl; split; try done.
  - apply has_link_true, in_or_app. right. by left.
  - apply has_paper_true. rewrite map_app. apply in_or_app. right. by left.
  - apply has_paper_true. rewrite map_app. apply in_or_app. right. by left.
  - apply has_link_true, in_or_app. right. by left.
Qed.

Lemma store_papers_fold_stored t kid ps d n p :
  In p ps ->
  has_paper (arxiv_id p) (papers (fst (fold_left (store_paper t kid) ps (d, n)))) = true /\
  has_link (arxiv_id p) kid
    (paper_keywords (fst (fold_left (store_paper t kid) ps (d, n)))) = true.
Proof.
  revert d n. induction ps as [|q ps IH]; intros d n; simpl; [done|].
  destruct (store_paper t kid (d, n) q) as [d1 n1] eqn:Hstep.
  intros [->|Hin]; [|by apply IH].
  pose proof (store_paper_stored t kid d n p) as [H1 H2]. rewrite Hstep in H1, H2.
  pose proof (store_papers_fold_grows t kid ps d1 n1) as Hg.
  split; [eapply store_grows_has_paper|eapply store_grows_has_link]; eauto.
Qed.

(** The count goes up by the number of links added. *)
Lemma store_paper_count t kid d n p :
  let r := store_paper t kid (d, n) p in
  snd r - n =
    Z.of_nat (List.length (paper_keywords (fst r))) - Z.of_nat (List.length (paper_keywords d)) /\
  n <= snd r <= n + 1.
Proof.
  unfold store_paper. simpl.
  destruct (insert_link_spec (arxiv_id p) kid (paper_keywords d)) as [[Hl ->]|[Hl ->]];
    simpl; [lia|]. rewrite length_app. simpl. lia.
Qed.

Lemma store_papers_fold_count t kid ps d n :
  let r := fold_left (store_paper t kid) ps (d, n) in
  snd r - n =
    Z.of_nat (List.length (paper_keywords (fst r))) - Z.of_nat (List.length (paper_keywords d)) /\
  n <= snd r <= n + Z.of_nat (List.length ps).
Proof.
  revert d n. induction ps as [|p ps IH]; intros d n; simpl; [lia|].
  pose proof (store_paper_count t kid d n p) as Hstep. cbv zeta in Hstep.
  destruct (store_paper t kid (d, n) p) as [d1 n1]. simpl in Hstep.
  specialize (IH d1 n1). cbv zeta in IH. lia.
Qed.

(** A page whose papers are all stored and linked changes nothing. *)
Lemma store_paper_present t kid d n p :
  has_paper (arxiv_id p) (papers d) = true ->
  has_link (arxiv_id p) kid (paper_keywords d) = true ->
  store_paper t kid (d, n) p = (d, n).
Proof.
  intros Hp Hl. unfold store_paper, insert_paper, insert_link. simpl.
  rewrite Hp, Hl. simpl. by destruct d.
Qed.

Lemma store_papers_fold_present t kid ps d n :
  (forall p, In p ps -> has_paper (arxiv_id p) (papers d) = true /\
                        has_link (arxiv_id p) kid (paper_keywords d) = true) ->
  fold_left (store_paper t kid) ps (d, n) = (d, n).
Proof.
  induction ps as [|p ps IH]; simpl; [done|]. intros H.
  destruct (H p) as [Hp Hl]; [by left|].
  rewrite (store_paper_present t kid d n p Hp Hl). apply IH. auto.
Qed.

End Commit.

(** X5.  After [store_papers], every paper of the page has a row in
    [papers] under its identifier and is linked to the keyword. *)
Theorem X5_page_is_stored_and_linked (t : nat) (ps : list paper) (kid : Z)
    (d : database) (p : paper) :
  In p ps ->
  has_paper (arxiv_id p) (papers (fst (store_papers t ps kid d))) = true /\
  has_link (arxiv_id p) kid (paper_keywords (fst (store_papers t ps kid d))) = true.
Proof. apply store_papers_fold_stored. Qed.

Lemma X5_page_is_stored_and_linked_witness :
  has_paper "2101.00002"
    (papers (fst (store_papers 3 (Sample.papers_of Sample.corpus3) 2 Sample.db1)))
  = true.
Proof.
  refine (proj1 (X5_page_is_stored_and_linked 3
            (Sample.papers_of Sample.corpus3) 2 Sample.db1
            (Sample.mk_paper "http://arxiv.org/abs/2101.00002v3") _)).
  simpl. right. left. reflexivity.
Defined.

(** X6.  The count [store_papers] returns is the number of rows the
    call adds to [paper_keywords]; it lies between 0 and the number of
    papers of the page. *)
Theorem X6_count_is_links_added (t : nat) (ps : list paper) (kid : Z) (d : database) :
  let r := store_papers t ps kid d in
  snd r = Z.of_nat (List.length (paper_keywords (fst r)))
          - Z.of_nat (List.length (paper_keywords d)) /\
  0 <= snd r <= Z.of_nat (List.length ps).
Proof.
  pose proof (store_papers_fold_count t kid ps d 0) as H. cbv zeta in *.
  unfold store_papers. lia.
Qed.

(** X7.  Committing the same page for the same keyword a second time
    changes nothing in the database and returns 0. *)
Theorem X7_second_commit_is_noop (t t' : nat) (ps : list paper) (kid : Z)
    (d : database) :
  store_papers t' ps kid (fst (store_papers t ps kid d))
  = (fst (store_papers t ps kid d), 0).
Proof.
  unfold store_papers at 1. apply store_papers_fold_present.
  intros p Hin. by apply store_papers_fold_stored.
Qed.

(* ================================================================== *)
(** * Invariants of the store over runs                                *)
(* ================================================================== *)

(** A property of the papers and the links that [store_papers] keeps is
    kept by every run. *)
Section StoreInvariant.

Variable I : database -> Prop.
Hypothesis I_tables :
  forall d d', papers d' = papers d -> paper_keywords d' = paper_keywords d ->
               I d -> I d'.
Hypothesis I_store : forall t ps kid d, I d -> I (fst (store_papers t ps kid d)).

Variable E : environment.

Lemma invariant_update kid f d : I d -> I (update_keyword kid f d).
Proof. by apply I_tables. Qed.

Lemma invariant_commit kid st ps t w : I (db w) -> I (db (snd (commit_page E kid st ps t w))).
Proof.
  intros H. unfold commit_page. simpl. by apply invariant_update, I_store.
Qed.

Lemma invariant_round kw kid st w r :
  round_case E kw kid st w r -> I (db w) ->
  match r with Stop _ w' => I (db w') | Next _ w' => I (db w') end.
Proof.
  destruct 1; intros HI; try done.
  - by apply invariant_commit.
  - rewrite rate_limit_db. by apply invariant_commit.
Qed.

Lemma invariant_finish kw kid x w :
  I (db w) -> I (db (snd (finish_keyword E kw kid (x, w)))).
Proof. intros H. destruct x; simpl; by apply invariant_update. Qed.

Lemma invariant_continue kw kid st w :
  I (db w) -> exists o w', continue_keyword E kw kid st w = Some (o, w') /\ I (db w').
Proof.
  intros H.
  destruct (continue_keyword_rule E kw kid (fun _ w1 => I (db w1)) (fun _ w1 => I (db w1)))
    with (st := st) (w := w) as (x & w1 & HI & Heq); auto.
  - intros st0 w0 x w' H0 _ Hcase. by apply (invariant_round _ _ _ _ _ Hcase).
  - intros st0 w0 st' w' H0 _ Hcase. by apply (invariant_round _ _ _ _ _ Hcase).
  - rewrite Heq. pose proof (invariant_finish kw kid x w1 HI) as Hfin.
    destruct (finish_keyword E kw kid (x, w1)) as [o w']. eauto.
Qed.

Lemma invariant_run_loop pending w :
  I (db w) -> exists w', run_loop E pending w = Some w' /\ I (db w').
Proof.
  revert w. induction pending as [|[kid kw] rest IH]; intros w H; simpl; [eauto|].
  destruct (shutdown_requested E (history w)); [eauto|].
  destruct (invariant_continue kw kid initial_locals
              (begin_keyword E kw kid (emit (FlagRead false) w)))
    as (o & w2 & Heq & H2).
  { unfold begin_keyword. simpl. by apply invariant_update. }
  unfold process_keyword. rewrite Heq.
  destruct (IH w2 H2) as (w' & Hrun & H'). exists w'. by destruct o.
Qed.

Lemma invariant_insert_keyword d k : I d -> I (insert_keyword d k).
Proof.
  unfold insert_keyword. by apply I_tables.
Qed.

Lemma invariant_loaded resume w : I (db w) -> I (db (loaded E resume w)).
Proof.
  unfold loaded. destruct (negb resume || negb (db_path_exists E)); [|done].
  unfold load_keywords. simpl. generalize (read_keywords (keywords_file E)) (db w).
  induction l as [|k l IH]; intros d H; simpl; [done|].
  by apply IH, invariant_insert_keyword.
Qed.

Lemma invariant_run resume w :
  I (db w) -> exists w', run E resume w = Some w' /\ I (db w').
Proof.
  intros H. rewrite run_unfold. cbv zeta. fold (loaded E resume w).
  apply invariant_run_loop. by apply invariant_loaded.
Qed.

End StoreInvariant.

Lemma invariant_runs (I : database -> Prop) :
  (forall d d', papers d' = papers d -> paper_keywords d' = paper_keywords d ->
                I d -> I d') ->
  (forall t ps kid d, I d -> I (fst (store_papers t ps kid d))) ->
  forall jobs d, I d -> exists d', runs jobs d = Some d' /\ I d'.
Proof.
  intros H1 H2. induction jobs as [|[E resume] jobs IH]; intros d H; simpl; [eauto|].
  destruct (invariant_run I H1 H2 E resume {| db := d; history := [] |} H)
    as (w' & -> & H').
  by apply IH.
Qed.

Section Integrity.

Lemma store_paper_members t kid d n p :
  let d' := fst (store_paper t kid (d, n) p) in
  (forall r, In r (papers d') ->
     In r (papers d) \/ arxiv_id (row_paper r) = arxiv_id p) /\
  (forall l, In l (paper_keywords d') ->
     In l (paper_keywords d) \/ l = (arxiv_id p, kid)).
Proof.
  unfold store_paper. simpl.
  destruct (insert_paper_spec t p (papers d)) as [[Hp ->]|[Hp ->]];
  destruct (insert_link_spec (arxiv_id p) kid (paper_keywords d)) as [[Hl ->]|[Hl ->]];
  simpl; split; intros x Hx; auto;
  apply in_app_or in Hx as [Hx|[<-|[]]]; auto.
Qed.

Lemma store_paper_integrity t kid d n p :
  links_integrity d -> links_integrity (fst (store_paper t kid (d, n) p)).
Proof.
  intros [H1 H2].
  pose proof (store_paper_members t kid d n p) as [Mp Ml].
  pose proof (store_paper_stored t kid d n p) as [Sp Sl].
  pose proof (store_paper_grows t kid d n p) as Hg.
  cbv zeta in *. split.
  - intros l Hl. apply Ml in Hl as [Hl| ->]; [|done].
    eapply store_grows_has_paper; eauto.
  - intros r Hr. apply Mp in Hr as [Hr|Hid].
    + destruct (H2 r Hr) as [k Hk]. exists k.
      destruct Hg as (_ & [e He] & _). rewrite He. apply in_or_app. auto.
    + exists kid. rewrite Hid. by apply has_link_true.
Qed.

Lemma store_papers_integrity t ps kid d :
  links_integrity d -> links_integrity (fst (store_papers t ps kid d)).
Proof.
  unfold store_papers. generalize 0. revert d.
  induction ps as [|p ps IH]; intros d n H; simpl; [done|].
  pose proof (store_paper_integrity t kid d n p H) as Hstep.
  destruct (store_paper t kid (d, n) p) as [d1 n1]. by apply IH.
Qed.

Lemma insert_keyword_unique d k : keywords_unique d -> keywords_unique (insert_keyword d k).
Proof.
  unfold insert_keyword, keywords_unique.
  destruct (has_keyword k (keywords d)) eqn:Hk; [done|]. simpl. intros Hnd.
  rewrite map_app. simpl. apply NoDup_snoc; [done|].
  intros Hin. apply in_map_iff in Hin as (r & Hr & Hin).
  assert (has_keyword k (keywords d) = true); [|congruence].
  unfold has_keyword. apply existsb_exists. exists r. split; [done|].
  by apply String.eqb_eq.
Qed.

Lemma run_keywords_unique E resume w w' :
  keywords_unique (db w) -> run E resume w = Some w' -> keywords_unique (db w').
Proof.
  rewrite run_unfold. cbv zeta. fold (loaded E resume w). intros Hu.
  assert (keywords_unique (db (loaded E resume w))) as H1.
  { unfold loaded. destruct (negb resume || negb (db_path_exists E)); [|done].
    unfold load_keywords. simpl.
    generalize (read_keywords (keywords_file E)) (db w) Hu.
    induction l as [|k l IH]; intros d Hd; simpl; [done|].
    by apply IH, insert_keyword_unique. }
  destruct (run_loop_follows E (get_pending_keywords (db (loaded E resume w)))
              (loaded E resume w)) as (w2 & evs & -> & (_ & _ & Hk) & _).
  intros [= <-]. unfold keywords_unique. by rewrite (rows_kept_texts _ _ _ Hk).
Qed.

End Integrity.

(** X8.  The constraints the schema declares are kept by the code over
    any sequence of runs: identifiers of [papers] are distinct, pairs of
    [paper_keywords] are distinct, every link points to a stored paper
    and every stored paper is linked, keyword texts are distinct and
    keyword ids grow in insertion order.  A fresh database has them
    all. *)
Theorem X8_runs_keep_schema_constraints (jobs : list (environment * bool))
    (d : database) :
  papers_pk d -> links_pk d -> links_integrity d ->
  keywords_unique d -> keywords_ascending d ->
  exists d', runs jobs d = Some d' /\
    papers_pk d' /\ links_pk d' /\ links_integrity d' /\
    keywords_unique d' /\ keywords_ascending d'.
Proof.
  intros Hp Hl Hi Hu Ha.
  destruct (runs_total jobs d) as (d' & Hruns & Hg).
  exists d'. split; [done|]. split; [by apply Hg|]. split; [by apply Hg|].
  split; [|split].
  - destruct (invariant_runs links_integrity) with (jobs := jobs) (d := d)
      as (d2 & Hruns2 & H2); auto.
    + intros d0 d1 E1 E2 [H1 H2]. unfold links_integrity. by rewrite E1, E2.
    + intros. by apply store_papers_integrity.
    + congruence.
  - clear Hg Hp Hl Hi Ha. revert d Hu Hruns.
    induction jobs as [|[E resume] jobs IH]; intros d Hu; simpl.
    + by intros [= <-].
    + destruct (run E resume {| db := d; history := [] |}) as [w|] eqn:Hrun; [|done].
      apply IH. eapply run_keywords_unique; [|exact Hrun]. done.
  - eapply runs_ascending; eauto.
Qed.

Lemma X8_runs_keep_schema_constraints_witness :
  exists d',
    runs [(Sample.quiet_env Sample.corpus3, false); (Sample.failing_env Sample.corpus3, true)]
         setup_database = Some d' /\
    papers_pk d' /\ links_pk d' /\ links_integrity d' /\
    keywords_unique d' /\ keywords_ascending d'.
Proof.
  apply (X8_runs_keep_schema_constraints
           [(Sample.quiet_env Sample.corpus3, false);
            (Sample.failing_env Sample.corpus3, true)] setup_database).
  - constructor.
  - constructor.
  - split; intros x [].
  - constructor.
  - constructor.
Defined.

(** X9.  On a store with distinct paper identifiers in which links and
    papers cover each other, [get_progress_summary] reports as many
    linked papers as papers. *)
Theorem X9_summary_linked_equals_total (d : database) :
  papers_pk d -> links_integrity d ->
  linked (get_progress_summary d) = total_unique (get_progress_summary d).
Proof.
  intros Hpk [H1 H2]. simpl. f_equal.
  rewrite <- (length_map (fun r => arxiv_id (row_paper r)) (papers d)).
  apply Nat.le_antisymm; apply NoDup_incl_length.
  - apply NoDup_nodup.
  - intros x Hx. apply nodup_In, in_map_iff in Hx as (l & <- & Hl).
    by apply has_paper_true, H1.
  - exact Hpk.
  - intros x Hx. apply in_map_iff in Hx as (r & <- & Hr).
    destruct (H2 r Hr) as [k Hk]. apply nodup_In.
    by apply (in_map fst) in Hk.
Qed.

Lemma X9_summary_linked_equals_total_witness :
  linked (get_progress_summary Sample.db1) = total_unique (get_progress_summary Sample.db1).
Proof.
  apply X9_summary_linked_equals_total.
  - unfold papers_pk. vm_compute. repeat constructor. intros [].
  - split.
    + intros l Hl. vm_compute in Hl. destruct Hl as [<-|[]]. reflexivity.
    + intros r Hr. vm_compute in Hr. destruct Hr as [<-|[]]. exists 1. vm_compute. by left.
Defined.

(** X10.  The status counts of [get_progress_summary] add up to the
    number of rows of [keywords]; a status has an entry exactly when some
    row has it, and the entry is the number of such rows. *)
Theorem X10_summary_counts_partition (d : database) :
  count_status pending d + count_status processing d + count_status completed d
    + count_status failed d + count_status interrupted d
  = Z.of_nat (List.length (keywords d)) /\
  forall s,
    (summary_keywords (get_progress_summary d) s = None <->
       forall r, In r (keywords d) -> status r <> s) /\
    (forall n, summary_keywords (get_progress_summary d) s = Some n ->
       0 < n /\ n = count_status s d).
Proof.
  split.
  - unfold count_status. induction (keywords d) as [|r l IH]; simpl; [done|].
    destruct (status r); simpl; lia.
  - intros s. simpl. unfold status_counts. split.
    + unfold count_status. split.
      * intros H r Hin Hs.
        destruct (Z.eqb_spec (Z.of_nat (List.length
          (List.filter (fun r => status_eqb (status r) s) (keywords d)))) 0) as [H0|]; [|done].
        assert (In r (List.filter (fun r => status_eqb (status r) s) (keywords d))) as Hf.
        { apply filter_In. split; [done|]. rewrite Hs. by destruct s. }
        destruct (List.filter _ (keywords d)); [done|]. simpl in H0. lia.
      * intros H. rewrite filter_none; [done|].
        intros r Hin. specialize (H r Hin).
        destruct (status r), s; try done; by exfalso.
    + intros n. destruct (Z.eqb_spec (count_status s d) 0) as [|Hne]; [done|].
      intros [= <-]. split; [|done]. unfold count_status in *. lia.
Qed.

(* ================================================================== *)
(** * Loading the keywords file                                        *)
(* ================================================================== *)

Section Load.

Lemma has_keyword_true k t : has_keyword k t = true <-> In k (List.map keyword t).
Proof.
  unfold has_keyword. rewrite existsb_exists, in_map_iff.
  split; intros (r & H1 & H2).
  - apply String.eqb_eq in H2. eauto.
  - exists r. split; [done|]. by apply String.eqb_eq.
Qed.

Lemma insert_keyword_spec d k :
  papers (insert_keyword d k) = papers d /\
  paper_keywords (insert_keyword d k) = paper_keywords d /\
  ((has_keyword k (keywords d) = true /\
    keywords (insert_keyword d k) = keywords d) \/
   (has_keyword k (keywords d) = false /\
    exists row, new_row row /\ keyword row = k /\
      keywords (insert_keyword d k) = keywords d ++ [row])).
Proof.
  unfold insert_keyword. cbn [papers paper_keywords keywords].
  split; [done|]. split; [done|].
  destruct (has_keyword k (keywords d)); [by left|].
  right. split; [done|]. eexists. split; [|split; [|reflexivity]].
  - by repeat split.
  - done.
Qed.

(** Every insertion, ignored or not, moves the counter by one at
    least, to an id above every id of the table. *)
Lemma max_rowid_nonneg t : 0 <= max_rowid t.
Proof. induction t as [|r t IH]; simpl; lia. Qed.

Lemma max_rowid_snoc t r :
  max_rowid (t ++ [r]) = Z.max (max_rowid t) (Z.max (keyword_id r) 0).
Proof. induction t as [|x t IH]; simpl; [lia|]. rewrite IH. lia. Qed.

Lemma insert_keyword_sequence d k :
  sqlite_sequence (insert_keyword d k)
    = Z.max (sqlite_sequence d) (max_rowid (keywords d)) + 1 /\
  max_rowid (keywords (insert_keyword d k)) <= sqlite_sequence (insert_keyword d k).
Proof.
  unfold insert_keyword. cbn [sqlite_sequence keywords]. split; [done|].
  pose proof (max_rowid_nonneg (keywords d)) as H0.
  destruct (has_keyword k (keywords d)); [lia|].
  rewrite max_rowid_snoc. cbn [keyword_id]. lia.
Qed.

(** What a sequence of insertions adds to the table. *)
Lemma insert_keywords_rows ks d :
  exists extra,
    keywords (fold_left insert_keyword ks d) = keywords d ++ extra /\
    Forall (fun x => new_row x /\ In (keyword x) ks /\
                     has_keyword (keyword x) (keywords d) = false) extra /\
    (List.length extra <= List.length ks)%nat /\
    papers (fold_left insert_keyword ks d) = papers d /\
    paper_keywords (fold_left insert_keyword ks d) = paper_keywords d.
Proof.
  revert d. induction ks as [|k ks IH]; intros d; simpl.
  - exists []. rewrite app_nil_r. repeat split; auto.
  - destruct (IH (insert_keyword d k)) as (extra & Hk & Hrows & Hlen & Hp & Hl).
    destruct (insert_keyword_spec d k)
      as (Hps & Hls & [[Hhas Hks]|(Hhas & row & Hnew & Hrow & Hks)]).
    + rewrite Hks in Hk, Hrows. rewrite Hps in Hp. rewrite Hls in Hl.
      exists extra. split; [done|]. split; [|split; [lia|done]].
      eapply List.Forall_impl; [|exact Hrows]. intros x (H1 & H2 & H3). auto.
    + rewrite Hks in Hk, Hrows. rewrite Hps in Hp. rewrite Hls in Hl.
      exists (row :: extra). rewrite Hk, <- app_assoc. simpl.
      split; [reflexivity|]. split; [|split; [lia|done]].
      constructor; [rewrite Hrow; auto|].
      eapply List.Forall_impl; [|exact Hrows]. intros x (H1 & H2 & H3).
      split; [done|]. split; [auto|].
      destruct (has_keyword (keyword x) (keywords d)) eqn:Hx; [|done].
      apply has_keyword_true in Hx.
      assert (has_keyword (keyword x) (keywords d ++ [row]) = true); [|congruence].
      apply has_keyword_true. rewrite map_app. apply in_or_app. auto.
Qed.

Lemma insert_keywords_texts ks d k :
  In k (List.map keyword (keywords (fold_left insert_keyword ks d))) <->
  In k (List.map keyword (keywords d)) \/ In k ks.
Proof.
  revert d. induction ks as [|k0 ks IH]; intros d; simpl; [tauto|].
  rewrite IH. unfold insert_keyword. cbn [keywords].
  destruct (has_keyword k0 (keywords d)) eqn:Hhas.
  - apply has_keyword_true in Hhas. split; [tauto|].
    intros [H|[<-|H]]; auto.
  - rewrite map_app, in_app_iff. simpl. tauto.
Qed.

(** Insertions of texts that are all there add no row; each uses up
    an id. *)
Lemma insert_keywords_present ks d :
  (forall k, In k ks -> has_keyword k (keywords d) = true) ->
  max_rowid (keywords d) <= sqlite_sequence d ->
  papers (fold_left insert_keyword ks d) = papers d /\
  keywords (fold_left insert_keyword ks d) = keywords d /\
  paper_keywords (fold_left insert_keyword ks d) = paper_keywords d /\
  sqlite_sequence (fold_left insert_keyword ks d)
    = sqlite_sequence d + Z.of_nat (List.length ks).
Proof.
  revert d. induction ks as [|k ks IH]; intros d H Hseq.
  - simpl. repeat split; lia.
  - cbn [fold_left].
    assert (keywords (insert_keyword d k) = keywords d) as Hk.
    { unfold insert_keyword. cbn [keywords]. by rewrite (H k) by (by left). }
    destruct (insert_keyword_sequence d k) as [Hs Hb].
    destruct (IH (insert_keyword d k)) as (H1 & H2 & H3 & H4).
    { intros k' Hin. rewrite Hk. apply H. by right. }
    { exact Hb. }
    rewrite H1, H2, H3, H4, Hk, Hs. repeat split; try done.
    cbn [List.length]. lia.
Qed.

(** After a sequence of insertions that is not empty the counter is
    at or above every id of the table. *)
Lemma insert_keywords_sequence ks d :
  ks <> [] ->
  max_rowid (keywords (fold_left insert_keyword ks d))
    <= sqlite_sequence (fold_left insert_keyword ks d).
Proof.
  revert d. induction ks as [|k ks IH]; intros d Hne; [done|]. cbn [fold_left].
  destruct ks as [|k' ks'].
  - simpl. apply insert_keyword_sequence.
  - by apply IH.
Qed.

Lemma read_keywords_in lines k :
  In k (read_keywords lines) <->
  exists l, In l lines /\ k = PyStr.strip l /\ k <> EmptyString.
Proof.
  unfold read_keywords. rewrite in_map_iff. split.
  - intros (l & <- & Hl). apply filter_In in Hl as [Hl Hne].
    exists l. repeat split; auto. by apply negb_true_iff, String.eqb_neq in Hne.
  - intros (l & Hl & -> & Hne). exists l. split; [done|].
    apply filter_In. split; [done|]. by apply negb_true_iff, String.eqb_neq.
Qed.

End Load.

(** X11.  [load_keywords] leaves every row of [keywords] as it is, and
    the papers and the links: what it adds comes after the rows there
    were, each added row in the state of a query never begun ([pending],
    counters 0, no times, no error) with a text of the file that was not
    in the table.  It returns the number of non-blank lines, which is at
    least the number of rows added. *)
Theorem X11_load_keeps_rows (E : environment) (w : world) :
  let r := load_keywords E w in
  exists extra,
    keywords (db (snd r)) = keywords (db w) ++ extra /\
    Forall (fun x => new_row x /\ In (keyword x) (read_keywords (keywords_file E)) /\
                     has_keyword (keyword x) (keywords (db w)) = false) extra /\
    Z.of_nat (List.length extra) <= fst r /\
    fst r = Z.of_nat (List.length (read_keywords (keywords_file E))) /\
    papers (db (snd r)) = papers (db w) /\
    paper_keywords (db (snd r)) = paper_keywords (db w).
Proof.
  unfold load_keywords. simpl.
  destruct (insert_keywords_rows (read_keywords (keywords_file E)) (db w))
    as (extra & Hk & Hrows & Hlen & Hp & Hl).
  exists extra. repeat split; auto. lia.
Qed.

(** X12.  After [load_keywords] the texts of [keywords] are those
    there were and the stripped non-blank lines of the file, and they are
    distinct if they were. *)
Theorem X12_load_adds_file_keywords (E : environment) (w : world) (k : string) :
  (In k (List.map keyword (keywords (db (snd (load_keywords E w))))) <->
   In k (List.map keyword (keywords (db w))) \/
   exists l, In l (keywords_file E) /\ k = PyStr.strip l /\ k <> EmptyString) /\
  (keywords_unique (db w) -> keywords_unique (db (snd (load_keywords E w)))).
Proof.
  unfold load_keywords. simpl. split.
  - by rewrite insert_keywords_texts, read_keywords_in.
  - generalize (read_keywords (keywords_file E)) (db w).
    induction l as [|k0 l IH]; intros d Hd; simpl; [done|].
    by apply IH, insert_keyword_unique.
Qed.

(** X13.  Loading the same file again adds no row and resets no
    query: the three tables are as the first load left them.  Only the
    AUTOINCREMENT counter of [keywords] moves, by one for every keyword
    read, so a keyword added later gets an id that much higher. *)
Theorem X13_second_load_adds_no_row (E : environment) (w : world) :
  let d1 := db (snd (load_keywords E w)) in
  let d2 := db (snd (load_keywords E (snd (load_keywords E w)))) in
  papers d2 = papers d1 /\ keywords d2 = keywords d1 /\
  paper_keywords d2 = paper_keywords d1 /\
  sqlite_sequence d2
    = sqlite_sequence d1 + Z.of_nat (List.length (read_keywords (keywords_file E))).
Proof.
  unfold load_keywords. cbn [fst snd db with_db emit].
  destruct (read_keywords (keywords_file E)) as [|k0 ks] eqn:Hks.
  - simpl. repeat split; lia.
  - apply insert_keywords_present.
    + intros k Hk. apply has_keyword_true, insert_keywords_texts. auto.
    + by apply insert_keywords_sequence.
Qed.

(** X14.  Every keyword [load_keywords] reads from the file is
    non-empty, has no white space at either end and is left as it is by
    another [strip]; a line of white space only gives no keyword. *)
Theorem X14_keywords_read_are_stripped (lines : list string) (k : string) :
  In k (read_keywords lines) ->
  k <> EmptyString /\ starts_clean k = true /\ ends_clean k = true /\
  PyStr.strip k = k.
Proof.
  intros H. apply read_keywords_in in H as (l & _ & -> & Hne).
  split; [done|]. destruct (strip_clean l) as [H1 H2].
  repeat split; auto. apply strip_strip.
Qed.

Lemma X14_keywords_read_are_stripped_witness :
  PyStr.strip "malformed topic" = "malformed topic".
Proof.
  refine (proj2 (proj2 (proj2 (X14_keywords_read_are_stripped
            ["graph neural networks"; ""; "  malformed topic  "] "malformed topic" _)))).
  vm_compute. right. left. reflexivity.
Defined.

Section FreshLoad.

Lemma max_rowid_upper t n :
  0 <= n -> (forall r, In r t -> keyword_id r <= n) -> max_rowid t <= n.
Proof.
  intros Hn. induction t as [|x t IH]; simpl; [done|]. intros H.
  apply Z.max_lub; [apply H; auto|apply IH; auto].
Qed.

(** Ids handed out from a fresh counter are 1, 2, 3, ... as long as
    no insertion is ignored. *)
Lemma insert_keyword_counts d k :
  has_keyword k (keywords d) = false ->
  sqlite_sequence d = Z.of_nat (List.length (keywords d)) ->
  List.map keyword_id (keywords d)
    = List.map Z.of_nat (seq 1 (List.length (keywords d))) ->
  sqlite_sequence (insert_keyword d k)
    = Z.of_nat (List.length (keywords (insert_keyword d k))) /\
  List.map keyword_id (keywords (insert_keyword d k))
    = List.map Z.of_nat (seq 1 (List.length (keywords (insert_keyword d k)))) /\
  List.map keyword (keywords (insert_keyword d k))
    = List.map keyword (keywords d) ++ [k].
Proof.
  intros Hhas Hseq Hids. unfold insert_keyword. rewrite Hhas. simpl.
  assert (max_rowid (keywords d) <= Z.of_nat (List.length (keywords d))) as Hmax.
  { apply max_rowid_upper; [lia|]. intros r Hr.
    apply (in_map keyword_id) in Hr. rewrite Hids in Hr.
    apply in_map_iff in Hr as (i & <- & Hi). apply in_seq in Hi. lia. }
  rewrite length_app. simpl. rewrite Nat.add_1_r, seq_S, !map_app, <- Hids. simpl.
  rewrite Hseq. split; [lia|]. split; [|done]. do 2 f_equal. lia.
Qed.

Lemma insert_keywords_counts ks d :
  List.NoDup (List.map keyword (keywords d) ++ ks) ->
  sqlite_sequence d = Z.of_nat (List.length (keywords d)) ->
  List.map keyword_id (keywords d)
    = List.map Z.of_nat (seq 1 (List.length (keywords d))) ->
  List.map keyword_id (keywords (fold_left insert_keyword ks d))
    = List.map Z.of_nat (seq 1 (List.length (keywords (fold_left insert_keyword ks d)))) /\
  List.map keyword (keywords (fold_left insert_keyword ks d))
    = List.map keyword (keywords d) ++ ks.
Proof.
  revert d. induction ks as [|k ks IH]; intros d Hnd Hseq Hids.
  - simpl. by rewrite app_nil_r.
  - cbn [fold_left].
    assert (has_keyword k (keywords d) = false) as Hhas.
    { destruct (has_keyword k (keywords d)) eqn:Hk; [|done].
      apply has_keyword_true in Hk. apply List.NoDup_remove_2 in Hnd.
      exfalso. apply Hnd. apply in_or_app. by left. }
    destruct (insert_keyword_counts d k Hhas Hseq Hids) as (H1 & H2 & H3).
    destruct (IH (insert_keyword d k)) as [H4 H5]; [|done|done|].
    + rewrite H3, <- app_assoc. exact Hnd.
    + split; [done|]. by rewrite H5, H3, <- app_assoc.
Qed.

Lemma first_place_snoc pre k r : first_place pre r -> first_place (pre ++ [k]) r.
Proof.
  intros (i & Hid & Hi & Hfirst). exists i. split; [done|].
  assert (i < List.length pre)%nat as Hlt by (apply nth_error_Some; congruence).
  split.
  - by rewrite nth_error_app1.
  - intros j Hj. rewrite nth_error_app1 by lia. by apply Hfirst.
Qed.

Lemma insert_keyword_first_place pre d k :
  sqlite_sequence d = Z.of_nat (List.length pre) ->
  (forall r, In r (keywords d) -> first_place pre r) ->
  (forall x, In x pre -> has_keyword x (keywords d) = true) ->
  sqlite_sequence (insert_keyword d k) = Z.of_nat (List.length (pre ++ [k])) /\
  (forall r, In r (keywords (insert_keyword d k)) -> first_place (pre ++ [k]) r) /\
  (forall x, In x (pre ++ [k]) -> has_keyword x (keywords (insert_keyword d k)) = true).
Proof.
  intros Hseq Hrows Hpre.
  assert (max_rowid (keywords d) <= Z.of_nat (List.length pre)) as Hmax.
  { apply max_rowid_upper; [lia|]. intros r Hr.
    destruct (Hrows r Hr) as (i & -> & Hi & _).
    assert (i < List.length pre)%nat by (apply nth_error_Some; congruence). lia. }
  unfold insert_keyword. cbn [sqlite_sequence keywords].
  rewrite length_app. cbn [List.length]. split; [lia|].
  destruct (has_keyword k (keywords d)) eqn:Hhas.
  - split.
    + intros r Hr. by apply first_place_snoc, Hrows.
    + intros x Hx. apply in_app_or in Hx as [Hx|[<-|[]]]; auto.
  - split.
    + intros r Hr. apply in_app_or in Hr as [Hr|[<-|[]]].
      * by apply first_place_snoc, Hrows.
      * exists (List.length pre). cbn [keyword_id keyword]. split; [lia|]. split.
        -- by rewrite nth_error_app2, Nat.sub_diag by lia.
        -- intros j Hj Hk. rewrite nth_error_app1 in Hk by lia.
           apply nth_error_In, Hpre in Hk. congruence.
    + intros x Hx. apply has_keyword_true. rewrite map_app. apply in_or_app.
      apply in_app_or in Hx as [Hx|[<-|[]]].
      * left. by apply has_keyword_true, Hpre.
      * right. by left.
Qed.

Lemma insert_keywords_first_place ks pre d :
  sqlite_sequence d = Z.of_nat (List.length pre) ->
  (forall r, In r (keywords d) -> first_place pre r) ->
  (forall x, In x pre -> has_keyword x (keywords d) = true) ->
  sqlite_sequence (fold_left insert_keyword ks d) = Z.of_nat (List.length (pre ++ ks)) /\
  (forall r, In r (keywords (fold_left insert_keyword ks d)) -> first_place (pre ++ ks) r).
Proof.
  revert pre d. induction ks as [|k ks IH]; intros pre d Hseq Hrows Hpre.
  - simpl. by rewrite app_nil_r.
  - cbn [fold_left].
    destruct (insert_keyword_first_place pre d k Hseq Hrows Hpre) as (H1 & H2 & H3).
    destruct (IH (pre ++ [k]) (insert_keyword d k) H1 H2 H3) as [H4 H5].
    rewrite <- app_assoc in H4, H5. done.
Qed.

Lemma filter_all_in {A} (f : A -> bool) (l : list A) :
  (forall x, In x l -> f x = true) -> List.filter f l = l.
Proof.
  induction l as [|x l IH]; simpl; [done|]. intros Hf.
  rewrite Hf by auto. f_equal. apply IH. auto.
Qed.

End FreshLoad.

(** X15.  On a fresh database [load_keywords] gives every keyword,
    as its id, the place (counted from 1) of its first occurrence among
    the keywords read: a repeated keyword adds no row but uses up an id, so
    the ids after it skip a number, and the counter ends at the number of
    keywords read.  When no keyword is repeated the ids are 1, 2, 3, ...
    Either way [get_pending_keywords] then returns every row of the table,
    in the order of insertion. *)
Theorem X15_fresh_load_ids_are_first_places (E : environment) (h : list event) :
  let ks := read_keywords (keywords_file E) in
  let d := db (snd (load_keywords E {| db := setup_database; history := h |})) in
  (forall r, In r (keywords d) -> first_place ks r) /\
  sqlite_sequence d = Z.of_nat (List.length ks) /\
  (List.NoDup ks ->
     List.map keyword (keywords d) = ks /\
     List.map keyword_id (keywords d) = List.map Z.of_nat (seq 1 (List.length ks))) /\
  get_pending_keywords d = List.map (fun r => (keyword_id r, keyword r)) (keywords d).
Proof.
  cbv zeta. split; [|split; [|split]].
  - unfold load_keywords. cbn [snd db with_db emit].
    apply (insert_keywords_first_place (read_keywords (keywords_file E)) []); done.
  - unfold load_keywords. cbn [snd db with_db emit].
    apply (insert_keywords_first_place (read_keywords (keywords_file E)) []); done.
  - intros Hnd. unfold load_keywords. cbn [snd db with_db emit].
    destruct (insert_keywords_counts (read_keywords (keywords_file E)) setup_database)
      as [Hids Htexts]; try done.
    split; [exact Htexts|]. rewrite Hids. do 2 f_equal.
    rewrite <- (length_map keyword). by rewrite Htexts.
  - rewrite pending_ascending.
    + f_equal. apply filter_all_in.
      destruct (insert_keywords_rows (read_keywords (keywords_file E)) setup_database)
        as (extra & Hk & Hrows & _).
      unfold load_keywords. simpl. rewrite Hk. simpl.
      intros r Hr. rewrite List.Forall_forall in Hrows.
      destruct (Hrows r Hr) as ((_ & _ & Hs & _) & _).
      unfold eligible. by rewrite Hs.
    + apply load_keywords_ascending. constructor.
Qed.

(* ================================================================== *)
(** * The requests of a query                                          *)
(* ================================================================== *)

Section Requests.

Variable E : environment.

Lemma requests_app evs1 evs2 : requests (evs1 ++ evs2) = (requests evs1 + requests evs2)%nat.
Proof. unfold requests. by rewrite List.filter_app, length_app. Qed.

Lemma request_size_ok kw st :
  0 <= start st -> start st < max_results_per_keyword ->
  request_ok (Request kw (start st) (request_size st)) = true.
Proof.
  intros H0 Hlt. unfold request_ok, request_size, batch_size, max_results_per_keyword in *.
  repeat (apply andb_true_iff; split);
    first [apply Z.leb_le|apply Z.ltb_lt]; lia.
Qed.

(** The events of one round: one request at most, within the limits
    and for the keyword. *)
Lemma round_events kw kid st w :
  0 <= start st -> start st < max_results_per_keyword ->
  exists evs,
    history (round_world (page_round E kw kid st w)) = history w ++ evs /\
    forallb request_ok evs = true /\ forallb (request_for kw) evs = true /\
    (requests evs <= 1)%nat /\
    (shutdown_requested E (history w) = false ->
       exists more, evs = FlagRead false :: Request kw (start st) (request_size st) :: more).
Proof.
  intros H0 Hlt. pose proof (request_size_ok kw st H0 Hlt) as Hok.
  assert (request_for kw (Request kw (start st) (request_size st)) = true) as Hfor
    by apply String.eqb_refl.
  assert (forall rl, forallb is_flag_read_true rl = true \/ rl = [FlagRead false; Sleep] ->
    forallb request_ok ([FlagRead false; Request kw (start st) (request_size st)] ++ rl) = true /\
    forallb (request_for kw) ([FlagRead false; Request kw (start st) (request_size st)] ++ rl) = true /\
    (requests ([FlagRead false; Request kw (start st) (request_size st)] ++ rl) <= 1)%nat)
    as Htail.
  { intros rl Hrl. rewrite !forallb_app, requests_app. cbn [forallb].
    rewrite Hok, Hfor.
    assert (forallb request_ok rl = true /\ forallb (request_for kw) rl = true /\
            requests rl = 0%nat) as (-> & -> & ->).
    { destruct Hrl as [Hrl| ->]; [|done].
      induction rl as [|[[]| | | |] rl IH]; simpl in *; try done.
      destruct (IH Hrl) as (-> & -> & Hr). done. }
    done. }
  destruct (shutdown_requested E (history w)) eqn:Hflag.
  - rewrite page_round_shutdown by done. exists [FlagRead true].
    repeat split; auto. discriminate.
  - rewrite page_round_answer by done.
    destruct (answer E kw st w) as [[ps t]|msg].
    + destruct (Z.of_nat (List.length ps) <? batch_size).
      * exists ([FlagRead false; Request kw (start st) (request_size st)] ++ []).
        split; [exact (proj1 (follows_committed E kw kid st w ps t))|].
        destruct (Htail []) as (H1 & H2 & H3); [by left|].
        repeat split; auto; try (intros _; by exists []).
      * match goal with |- context [rate_limit E ?st5 ?w4] =>
          destruct (follows_rate_limit E [kid] st5 w4) as (rl & (Hh & _) & Hrl) end.
        exists ([FlagRead false; Request kw (start st) (request_size st)] ++ rl).
        split.
        { cbn [round_world]. rewrite Hh.
          rewrite (proj1 (follows_committed E kw kid st w ps t)).
          by rewrite <- app_assoc. }
        destruct (Htail rl) as (H1 & H2 & H3).
        { destruct Hrl as [->|[->| ->]]; auto. }
        repeat split; auto; try (intros _; by exists rl).
    + exists ([FlagRead false; Request kw (start st) (request_size st)] ++ []).
      split; [exact (proj1 (follows_asked [] kw st w))|].
      destruct (Htail []) as (H1 & H2 & H3); [by left|].
      repeat split; auto; try (intros _; by exists []).
Qed.

Lemma continue_keyword_requests kw kid st w :
  0 <= start st ->
  exists o w' evs,
    continue_keyword E kw kid st w = Some (o, w') /\
    history w' = history w ++ evs /\
    forallb request_ok evs = true /\ forallb (request_for kw) evs = true /\
    (Z.of_nat (requests evs) * batch_size <= max_results_per_keyword + batch_size - 1 - start st
     \/ requests evs = 0%nat).
Proof.
  intros H0.
  destruct (continue_keyword_rule E kw kid
    (fun st1 w1 => exists evs,
       history w1 = history w ++ evs /\
       forallb request_ok evs = true /\ forallb (request_for kw) evs = true /\
       start st <= start st1 /\
       Z.of_nat (requests evs) * batch_size <= start st1 - start st /\
       (Z.of_nat (requests evs) * batch_size
          <= max_results_per_keyword + batch_size - 1 - start st
        \/ requests evs = 0%nat))
    (fun _ w1 => exists evs,
       history w1 = history w ++ evs /\
       forallb request_ok evs = true /\ forallb (request_for kw) evs = true /\
       (Z.of_nat (requests evs) * batch_size
          <= max_results_per_keyword + batch_size - 1 - start st
        \/ requests evs = 0%nat)))
    with (st := st) (w := w) as (x & w1 & (evs & Hh & Hok & Hfor & Hn) & Heq).
  - intros st1 w1 (evs & Hh & Hok & Hfor & Hs & Hn & Hm) Hge.
    exists evs. repeat split; auto.
  - intros st1 w1 x w' (evs & Hh & Hok & Hfor & Hs & Hn & _) Hlt Hcase.
    destruct (round_events kw kid st1 w1) as (evs' & Hh' & Hok' & Hfor' & Hn' & _);
      [lia|done|].
    pose proof (page_round_cases E kw kid st1 w1) as Hcase'.
    assert (page_round E kw kid st1 w1 = Stop x w') as Hround.
    { destruct (shutdown_requested E (history w1)) eqn:Hflag.
      - rewrite page_round_shutdown by done.
        apply round_stop_inv in Hcase as [(_ & -> & ->)|[(Hf & _)|(Hf & _)]];
          [done|congruence|congruence].
      - rewrite page_round_answer by done.
        apply round_stop_inv in Hcase
          as [(Hf & _)|[(_ & msg & -> & -> & ->)|(_ & ps & t & -> & Hlen & -> & ->)]];
          [congruence|done|].
        apply Z.ltb_lt in Hlen. by rewrite Hlen. }
    rewrite Hround in Hh'. simpl in Hh'.
    exists (evs ++ evs'). rewrite Hh', Hh, app_assoc, !forallb_app, Hok, Hok', Hfor, Hfor'.
    repeat split; auto. left. rewrite requests_app.
    unfold batch_size, max_results_per_keyword in *. lia.
  - intros st1 w1 st' w' (evs & Hh & Hok & Hfor & Hs & Hn & _) Hlt Hcase.
    destruct (round_events kw kid st1 w1) as (evs' & Hh' & Hok' & Hfor' & Hn' & _);
      [lia|done|].
    pose proof (round_next_progress E kw kid st1 w1 st' w' Hcase) as Hprog.
    assert (page_round E kw kid st1 w1 = Next st' w') as Hround.
    { apply round_next_inv in Hcase as (Hf & ps & t & Hresp & Hlen & -> & ->).
      rewrite page_round_answer by done. rewrite Hresp.
      apply Z.ltb_ge in Hlen. by rewrite Hlen. }
    rewrite Hround in Hh'. simpl in Hh'.
    exists (evs ++ evs'). rewrite Hh', Hh, app_assoc, !forallb_app, Hok, Hok', Hfor, Hfor'.
    rewrite requests_app.
    repeat split; auto; unfold batch_size, max_results_per_keyword in *; lia.
  - exists []. rewrite app_nil_r. repeat split; auto; unfold requests; simpl; lia.
  - rewrite Heq. destruct x as [st'|msg].
    + destruct (finish_done E kw kid st' w1) as (r & w' & -> & _ & _ & _ & Hh' & _).
      exists (Returned r), w', (evs ++ [FlagRead (shutdown_requested E (history w1))]).
      rewrite Hh', Hh, app_assoc, !forallb_app, Hok, Hfor, requests_app.
      change (requests [FlagRead (shutdown_requested E (history w1))]) with 0%nat.
      rewrite Nat.add_0_r. repeat split; auto.
    + destruct (finish_failed E kw kid msg w1) as (w' & -> & Hh' & _).
      exists (Raised msg), w', evs. rewrite Hh'. repeat split; auto.
Qed.

End Requests.

Lemma process_keyword_requests E kw kid w :
  exists o w' evs,
    process_keyword E kw kid w = Some (o, w') /\
    history w' = history w ++ evs /\
    forallb request_ok evs = true /\ forallb (request_for kw) evs = true /\
    (requests evs <= 4)%nat.
Proof.
  unfold process_keyword.
  destruct (continue_keyword_requests E kw kid initial_locals (begin_keyword E kw kid w))
    as (o & w' & evs & Heq & Hh & Hok & Hfor & Hn); [done|].
  exists o, w', ([LogProcessing kw] ++ evs). split; [done|].
  split; [by rewrite Hh; unfold begin_keyword; simpl; rewrite <- app_assoc|].
  rewrite !forallb_app, requests_app, Hok, Hfor. repeat split; auto.
  change (requests [LogProcessing kw]) with 0%nat.
  unfold batch_size, max_results_per_keyword in Hn. simpl in Hn. lia.
Qed.

(** X16.  Every request [process_keyword] makes is for its keyword,
    at an offset from 0 to 1999, for 1 to 500 entries, and never for an
    entry beyond the 2000th: whatever the upstream answers. *)
Theorem X16_requests_within_limits (E : environment) (kw : string) (kid : Z)
    (w : world) :
  exists o w' evs,
    process_keyword E kw kid w = Some (o, w') /\
    history w' = history w ++ evs /\
    forall k s m, In (Request k s m) evs ->
      k = kw /\ 0 <= s < max_results_per_keyword /\
      1 <= m <= batch_size /\ s + m <= max_results_per_keyword.
Proof.
  destruct (process_keyword_requests E kw kid w)
    as (o & w' & evs & Heq & Hh & Hok & Hfor & _).
  exists o, w', evs. split; [done|]. split; [done|].
  intros k s m Hin. rewrite forallb_forall in Hok, Hfor.
  specialize (Hok _ Hin). specialize (Hfor _ Hin). simpl in Hok, Hfor.
  apply String.eqb_eq in Hfor.
  repeat (apply andb_true_iff in Hok as [Hok ?]).
  repeat match goal with
  | H : (_ <=? _) = true |- _ => apply Z.leb_le in H
  | H : (_ <? _) = true |- _ => apply Z.ltb_lt in H
  end. repeat split; auto.
Qed.

(** X17.  One call of [process_keyword] makes at most four requests,
    whatever the upstream answers. *)
Theorem X17_at_most_four_requests (E : environment) (kw : string) (kid : Z)
    (w : world) :
  exists o w' evs,
    process_keyword E kw kid w = Some (o, w') /\
    history w' = history w ++ evs /\ (requests evs <= 4)%nat.
Proof.
  destruct (process_keyword_requests E kw kid w)
    as (o & w' & evs & Heq & Hh & _ & _ & Hn).
  by exists o, w', evs.
Qed.

Lemma run_loop_requests E pending w0 :
  exists w' evs,
    run_loop E pending w0 = Some w' /\
    history w' = history w0 ++ evs /\
    (requests evs <= 4 * List.length pending)%nat /\
    forall k s m, In (Request k s m) evs -> In k (List.map snd pending).
Proof.
  revert w0. induction pending as [|[kid kw] rest IH]; intros w0; simpl.
  - exists w0, []. rewrite app_nil_r.
    repeat split; auto; try (by intros k s m []); try (unfold requests; simpl; lia).
  - destruct (shutdown_requested E (history w0)) eqn:Hflag.
    + exists (emit (FlagRead true) w0), [FlagRead true].
      split; [done|]. split; [done|]. split; [unfold requests; simpl; lia|].
      intros k s m [H|[]]. discriminate.
    + destruct (process_keyword_requests E kw kid (emit (FlagRead false) w0))
        as (o & w2 & evs & Heq & Hh & _ & Hfor & Hn).
      rewrite Heq. destruct (IH w2) as (w' & evs' & Hrun & Hh' & Hn' & Hfor').
      exists w', (([FlagRead false] ++ evs) ++ evs').
      split; [by destruct o|].
      split; [by rewrite Hh', Hh; simpl; rewrite <- !app_assoc|].
      rewrite !requests_app. change (requests [FlagRead false]) with 0%nat.
      split; [lia|].
      intros k s m Hin. apply in_app_or in Hin as [Hin|Hin]; [|right; eauto].
      apply in_app_or in Hin as [[Hin|[]]|Hin]; [discriminate|].
      rewrite forallb_forall in Hfor. specialize (Hfor _ Hin). simpl in Hfor.
      apply String.eqb_eq in Hfor. by left.
Qed.

(** X18.  A run makes in all at most four times as many requests as
    it finds keywords pending or failed, and none for any other keyword. *)
Theorem X18_run_request_budget (E : environment) (resume : bool) (w : world) :
  let pending := get_pending_keywords (db (loaded E resume w)) in
  exists w' evs,
    run E resume w = Some w' /\
    history w' = history (loaded E resume w) ++ evs /\
    (requests evs <= 4 * List.length pending)%nat /\
    forall k s m, In (Request k s m) evs -> In k (List.map snd pending).
Proof.
  cbv zeta. rewrite run_unfold. cbv zeta. fold (loaded E resume w).
  apply run_loop_requests.
Qed.

(* ================================================================== *)
(** * The row of a query                                               *)
(* ================================================================== *)

Section Row.

Variable E : environment.

Lemma committed_lookup kw kid st w ps t :
  lookup_keyword kid (db (snd (committed E kw kid st w ps t))) =
  option_map (set_progress (found_total (fst (committed E kw kid st w ps t)))
                           (total_processed (fst (committed E kw kid st w ps t))))
             (lookup_keyword kid (db w)).
Proof. unfold committed. by rewrite commit_page_lookup. Qed.

Lemma finish_lookup kw kid x w :
  lookup_keyword kid (db (snd (finish_keyword E kw kid (x, w)))) =
  option_map
    match x with
    | Done _ =>
        set_finished (if shutdown_requested E (history w) then interrupted else completed)
                     (now E (emit (FlagRead (shutdown_requested E (history w))) w))
    | Failed msg => set_failed msg (now E w)
    end
    (lookup_keyword kid (db w)).
Proof.
  destruct x as [st|msg]; unfold finish_keyword, read_flag; cbn [snd];
    unfold with_db; cbn [db]; by rewrite lookup_update_same.
Qed.

Lemma begin_lookup kw kid w :
  lookup_keyword kid (db (begin_keyword E kw kid w)) =
  option_map (set_processing (now E (emit (LogProcessing kw) w)))
             (lookup_keyword kid (db w)).
Proof.
  unfold begin_keyword. cbv zeta. unfold with_db. cbn [db].
  by rewrite lookup_update_same.
Qed.

(** The loop writes only the two counters of the row. *)
Lemma continue_keyword_row kw kid st w row :
  lookup_keyword kid (db w) = Some row ->
  exists x w1 row1,
    continue_keyword E kw kid st w = Some (finish_keyword E kw kid (x, w1)) /\
    lookup_keyword kid (db w1) = Some row1 /\
    keyword_id row1 = keyword_id row /\ keyword row1 = keyword row /\
    status row1 = status row /\ started_at row1 = started_at row /\
    completed_at row1 = completed_at row /\ error_message row1 = error_message row.
Proof.
  intros Hrow.
  set (P := fun w1 : world => exists row1,
    lookup_keyword kid (db w1) = Some row1 /\
    keyword_id row1 = keyword_id row /\ keyword row1 = keyword row /\
    status row1 = status row /\ started_at row1 = started_at row /\
    completed_at row1 = completed_at row /\ error_message row1 = error_message row).
  assert (forall st0 w0 ps t, P w0 -> P (snd (committed E kw kid st0 w0 ps t))) as Hc.
  { intros st0 w0 ps t (row1 & Hl & H). unfold P. rewrite committed_lookup, Hl.
    eexists. split; [reflexivity|]. exact H. }
  destruct (continue_keyword_rule E kw kid (fun _ w1 => P w1) (fun _ w1 => P w1))
    with (st := st) (w := w) as (x & w1 & (row1 & Hl & H) & Heq).
  - auto.
  - intros st0 w0 x w' HP _ Hcase.
    apply round_stop_inv in Hcase
      as [(_ & -> & ->)|[(_ & msg & _ & -> & ->)|(_ & ps & t & _ & _ & -> & ->)]];
      [exact HP|exact HP|by apply Hc].
  - intros st0 w0 st' w' HP _ Hcase.
    apply round_next_inv in Hcase as (_ & ps & t & _ & _ & -> & ->).
    destruct (Hc st0 w0 ps t HP) as (row1 & Hl & H).
    exists row1. by rewrite rate_limit_db.
  - exists row. repeat split; auto.
  - exists x, w1, row1. auto.
Qed.

(** The row when [process_keyword] ends. *)
Lemma process_keyword_row kw kid w row :
  lookup_keyword kid (db w) = Some row ->
  exists o w' row',
    process_keyword E kw kid w = Some (o, w') /\
    lookup_keyword kid (db w') = Some row' /\
    keyword_id row' = keyword_id row /\ keyword row' = keyword row /\
    started_at row' = Some (now E (emit (LogProcessing kw) w)) /\
    completed_at row' <> None /\
    match o with
    | Returned r =>
        status row' = res_status r /\
        (res_status r = completed \/ res_status r = interrupted) /\
        (never_requested E -> res_status r = completed) /\
        error_message row' = error_message row
    | Raised msg => status row' = failed /\ error_message row' = Some msg
    end.
Proof.
  intros Hrow. unfold process_keyword.
  destruct (continue_keyword_row kw kid initial_locals (begin_keyword E kw kid w)
              (set_processing (now E (emit (LogProcessing kw) w)) row))
    as (x & w1 & row1 & Heq & Hl & Hid & Hkw & Hst & Hsa & Hca & Hem).
  { by rewrite begin_lookup, Hrow. }
  rewrite Heq. pose proof (finish_lookup kw kid x w1) as Hfin. rewrite Hl in Hfin.
  destruct x as [st|msg].
  - destruct (finish_done E kw kid st w1) as (r & w' & Hf & _ & _ & Hs & _).
    rewrite Hf in *. simpl in Hfin.
    exists (Returned r), w'. eexists. split; [done|]. split; [exact Hfin|].
    simpl. rewrite Hs. repeat split; auto; try discriminate.
    + destruct (shutdown_requested E (history w1)); auto.
    + intros Hnever. by rewrite Hnever.
  - destruct (finish_failed E kw kid msg w1) as (w' & Hf & _).
    rewrite Hf in *. simpl in Hfin.
    exists (Raised msg), w'. eexists. split; [done|]. split; [exact Hfin|].
    simpl. repeat split; auto; discriminate.
Qed.

End Row.

(** X19.  When [process_keyword] ends, by returning or by raising,
    the row of its keyword is in a final status ([completed],
    [interrupted] or [failed], never [processing] or [pending]) with its
    completion time set and its start time the time the call began; the
    status is the one returned, or [failed] with the text of the exception
    when the call raises. *)
Theorem X19_query_ends_in_final_status (E : environment) (kw : string) (kid : Z)
    (w : world) (row : keyword_row) :
  lookup_keyword kid (db w) = Some row ->
  exists o w' row',
    process_keyword E kw kid w = Some (o, w') /\
    lookup_keyword kid (db w') = Some row' /\
    keyword row' = keyword row /\
    terminal (status row') = true /\
    started_at row' = Some (now E (emit (LogProcessing kw) w)) /\
    completed_at row' <> None /\
    match o with
    | Returned r => status row' = res_status r /\ res_status r <> failed
    | Raised msg => status row' = failed /\ error_message row' = Some msg
    end.
Proof.
  intros Hrow.
  destruct (process_keyword_row E kw kid w row Hrow)
    as (o & w' & row' & Heq & Hl & _ & Hkw & Hsa & Hca & Ho).
  exists o, w', row'. repeat (split; [done|]).
  assert (terminal (status row') = true) as Ht.
  { destruct o as [r|msg].
    - destruct Ho as (Hs & [Hr|Hr] & _); by rewrite Hs, Hr.
    - destruct Ho as [Hs He]. by rewrite Hs. }
  repeat (split; [done|]). destruct o as [r|msg]; [|done].
  destruct Ho as (Hs & [Hr|Hr] & _); rewrite Hr in *; split; auto; discriminate.
Qed.

Lemma X19_query_ends_in_final_status_witness :
  exists o w' row',
    process_keyword (Sample.quiet_env Sample.corpus3) "malformed topic" 2
      {| db := Sample.db_mixed; history := [] |} = Some (o, w') /\
    lookup_keyword 2 (db w') = Some row' /\ terminal (status row') = true.
Proof.
  destruct (X19_query_ends_in_final_status (Sample.quiet_env Sample.corpus3)
              "malformed topic" 2 {| db := Sample.db_mixed; history := [] |}
              (Sample.mk_row 2 "malformed topic" failed))
    as (o & w' & row' & Hrun & Hl & _ & Ht & _).
  - reflexivity.
  - exists o, w', row'. auto.
Defined.

(** X20.  A call of [process_keyword] that returns leaves the error
    message of the row as it was: a query that failed before and now ends
    [completed] or [interrupted] still carries the text of its old
    failure. *)
Theorem X20_error_message_is_never_cleared (E : environment) (kw : string)
    (kid : Z) (w : world) (row : keyword_row) (r : result) (w' : world) :
  lookup_keyword kid (db w) = Some row ->
  process_keyword E kw kid w = Some (Returned r, w') ->
  exists row', lookup_keyword kid (db w') = Some row' /\
    error_message row' = error_message row /\
    (status row' = completed \/ status row' = interrupted).
Proof.
  intros Hrow Hrun.
  destruct (process_keyword_row E kw kid w row Hrow)
    as (o & w2 & row' & Heq & Hl & _ & _ & _ & _ & Ho).
  rewrite Hrun in Heq. injection Heq as <- <-.
  destruct Ho as (Hs & Hr & _ & He). exists row'. rewrite Hs. auto.
Qed.

Lemma X20_error_message_is_never_cleared_witness :
  exists r w' row',
    process_keyword (Sample.quiet_env Sample.corpus3) "malformed topic" 2
      {| db := update_keyword 2 (set_failed "timed out" 0) Sample.db_mixed;
         history := [] |} = Some (Returned r, w') /\
    lookup_keyword 2 (db w') = Some row' /\
    error_message row' = Some "timed out" /\
    (status row' = completed \/ status row' = interrupted).
Proof.
  assert (exists r w',
    process_keyword (Sample.quiet_env Sample.corpus3) "malformed topic" 2
      {| db := update_keyword 2 (set_failed "timed out" 0) Sample.db_mixed;
         history := [] |} = Some (Returned r, w')) as (r & w' & Hrun).
  { vm_compute. eexists _, _. reflexivity. }
  destruct (X20_error_message_is_never_cleared (Sample.quiet_env Sample.corpus3)
              "malformed topic" 2
              {| db := update_keyword 2 (set_failed "timed out" 0) Sample.db_mixed;
                 history := [] |}
              (set_failed "timed out" 0 (Sample.mk_row 2 "malformed topic" failed))
              r w')
    as (row' & Hl & He & Hs).
  - reflexivity.
  - exact Hrun.
  - exists r, w', row'. auto.
Defined.

(* ================================================================== *)
(** * The counters a query returns                                     *)
(* ================================================================== *)

Section Counters.

Variable E : environment.

Lemma finish_keyword_links kw kid x w :
  paper_keywords (db (snd (finish_keyword E kw kid (x, w)))) = paper_keywords (db w).
Proof. destruct x as [st|msg]; unfold finish_keyword, read_flag; done. Qed.

(** The counters of the locals when the loop is left. *)
Lemma continue_keyword_counters kw kid st w :
  0 <= total_stored st <= total_processed st ->
  exists x w1,
    continue_keyword E kw kid st w = Some (finish_keyword E kw kid (x, w1)) /\
    forall st1, x = Done st1 ->
      total_stored st1 - total_stored st = links_since (db w) w1 /\
      0 <= total_stored st1 <= total_processed st1.
Proof.
  intros Hle.
  set (P := fun (st1 : locals) (w1 : world) =>
    total_stored st1 - total_stored st = links_since (db w) w1 /\
    0 <= total_stored st1 <= total_processed st1).
  assert (forall st0 w0 ps t, P st0 w0 ->
            P (fst (committed E kw kid st0 w0 ps t))
              (snd (committed E kw kid st0 w0 ps t))) as Hc.
  { intros st0 w0 ps t [H1 H2]. unfold P.
    unfold committed. rewrite !commit_page_locals.
    unfold commit_page, links_since in *. cbv zeta.
    cbn [fst snd total_stored total_processed start db]. unfold with_db, update_keyword.
    cbn [db paper_keywords].
    pose proof (store_papers_fold_count (now E (asked kw st0 w0)) kid
                  ps (db (asked kw st0 w0)) 0) as Hcnt.
    cbv zeta in Hcnt. unfold store_papers.
    change (db (asked kw st0 w0)) with (db w0) in *. lia. }
  destruct (continue_keyword_rule E kw kid P
              (fun x w1 => forall st1, x = Done st1 -> P st1 w1))
    with (st := st) (w := w) as (x & w1 & HQ & Heq).
  - intros st0 w0 HP _ st1 [= <-]. exact HP.
  - intros st0 w0 x w' HP _ Hcase st1 Hx.
    apply round_stop_inv in Hcase
      as [(_ & -> & ->)|[(_ & msg & _ & -> & ->)|(_ & ps & t & _ & _ & -> & ->)]].
    + injection Hx as <-. exact HP.
    + discriminate.
    + injection Hx as <-. by apply Hc.
  - intros st0 w0 st' w' HP _ Hcase.
    apply round_next_inv in Hcase as (_ & ps & t & _ & _ & -> & ->).
    destruct (Hc st0 w0 ps t HP) as [H1 H2]. unfold P, links_since in *.
    rewrite rate_limit_db. done.
  - unfold P, links_since. lia.
  - exists x, w1. auto.
Qed.

End Counters.

(** X21.  [process_keyword] always ends; when it returns, the
    dictionary carries the keyword it was called with, its [stored] count
    is the number of rows the call added to [paper_keywords], and that
    count lies between 0 and the [processed] count. *)
Theorem X21_stored_is_links_added (E : environment) (kw : string) (kid : Z)
    (w : world) :
  exists o w', process_keyword E kw kid w = Some (o, w') /\
    forall r, o = Returned r ->
      res_keyword r = kw /\
      res_stored r = Z.of_nat (List.length (paper_keywords (db w')))
                     - Z.of_nat (List.length (paper_keywords (db w))) /\
      0 <= res_stored r <= res_processed r.
Proof.
  unfold process_keyword.
  destruct (continue_keyword_counters E kw kid initial_locals (begin_keyword E kw kid w))
    as (x & w1 & Heq & H); [simpl; lia|].
  rewrite Heq. pose proof (finish_keyword_links E kw kid x w1) as Hl.
  destruct (finish_keyword E kw kid (x, w1)) as [o w'] eqn:Hf.
  exists o, w'. split; [done|]. intros r ->.
  destruct x as [st1|msg]; [|discriminate].
  destruct (H st1 eq_refl) as [H1 H2]. unfold links_since in H1.
  unfold finish_keyword, read_flag in Hf. injection Hf as <- <-.
  simpl in *. split; [done|]. lia.
Qed.

(* ================================================================== *)
(** * A run that is not interrupted                                    *)
(* ================================================================== *)

Section Drain.

Variable E : environment.
Hypothesis Hnever : never_requested E.

Lemma update_keyword_row_of kid f d r' :
  In r' (keywords (update_keyword kid f d)) -> keyword_id r' = kid ->
  exists r, r' = f r.
Proof.
  unfold update_keyword. cbn [keywords]. rewrite in_map_iff.
  intros (r & <- & _) Hid. destruct (keyword_id r =? kid) eqn:Heq; [eauto|].
  apply Z.eqb_neq in Heq. done.
Qed.

(** The rows of the keyword when its query ends. *)
Lemma process_keyword_settles kw kid w :
  exists o w', process_keyword E kw kid w = Some (o, w') /\
    rows_kept [kid] (db w) (db w') /\
    forall r', In r' (keywords (db w')) -> keyword_id r' = kid ->
      settled (status r') /\ completed_at r' <> None.
Proof.
  destruct (process_keyword_follows E kw kid w) as (o & w' & evs & Heq & _ & _ & _ & Hk).
  exists o, w'. repeat (split; [done|]).
  unfold process_keyword in Heq.
  destruct (continue_keyword_rule E kw kid (fun _ _ => True) (fun _ _ => True))
    with (st := initial_locals) (w := begin_keyword E kw kid w)
    as (x & w1 & _ & Heq'); auto.
  rewrite Heq' in Heq. injection Heq as Hf.
  apply (f_equal (fun p => keywords (db (snd p)))) in Hf. cbn [snd] in Hf.
  rewrite <- Hf. intros r' Hin Hid.
  destruct x as [st|msg]; unfold finish_keyword, read_flag in Hin;
    cbn [snd] in Hin; unfold with_db in Hin; cbn [db] in Hin;
    apply update_keyword_row_of in Hin as [r ->]; try done.
  - rewrite Hnever. simpl. split; [by left|done].
  - simpl. split; [by right|done].
Qed.

Lemma rows_kept_from ids d d' r' :
  rows_kept ids d d' -> In r' (keywords d') ->
  exists r, In r (keywords d) /\ keyword_id r' = keyword_id r /\
    (~ In (keyword_id r) ids -> r' = r).
Proof.
  unfold rows_kept. intros H.
  induction H as [|x x' l l' [[Hid _] Hx] _ IH]; simpl; [done|].
  intros [<-|Hin].
  - exists x. auto.
  - destruct (IH Hin) as (r & Hr & H'). exists r. auto.
Qed.

Lemma run_loop_settles pending w :
  exists w', run_loop E pending w = Some w' /\
    rows_kept (List.map fst pending) (db w) (db w') /\
    forall r', In r' (keywords (db w')) ->
      In (keyword_id r') (List.map fst pending) ->
      settled (status r') /\ completed_at r' <> None.
Proof.
  revert w. induction pending as [|[kid kw] rest IH]; intros w; simpl.
  - exists w. split; [done|]. split; [apply rows_kept_refl|]. by intros r' _ [].
  - rewrite Hnever.
    destruct (process_keyword_settles kw kid (emit (FlagRead false) w))
      as (o & w2 & Heq & Hk & Hs).
    rewrite Heq.
    destruct (IH w2) as (w' & Hrun & Hk' & Hs').
    exists w'. split; [by destruct o|]. split.
    + eapply rows_kept_trans; eapply rows_kept_weaken; try eassumption.
      * intros k [<-|[]]. by left.
      * intros k Hin. by right.
    + intros r' Hin Hid.
      destruct (in_dec Z.eq_dec (keyword_id r') (List.map fst rest)) as [Hr|Hr];
        [by apply Hs'|].
      destruct Hid as [Hid|Hid]; [|done].
      destruct (rows_kept_from _ _ _ _ Hk' Hin) as (r & Hin2 & Hid2 & Hsame).
      rewrite Hid2 in Hr. rewrite (Hsame Hr) in *. apply Hs; [done|]. cbn in Hid. done.
Qed.

End Drain.

(** X22.  A run during which no shutdown is requested leaves no query
    waiting: it ends, and afterwards every row of [keywords] is either
    [completed] or [failed] with its completion time set, or is a row that
    was not selected (one held as [processing], [interrupted] or
    [completed] when the run began) and is unchanged.  In particular no
    row is [pending]. *)
Theorem X22_uninterrupted_run_leaves_none_pending (E : environment)
    (resume : bool) (w : world) :
  never_requested E ->
  exists w', run E resume w = Some w' /\
    forall r', In r' (keywords (db w')) ->
      status r' <> pending /\
      ((settled (status r') /\ completed_at r' <> None) \/
       (eligible r' = false /\ In r' (keywords (db (loaded E resume w))))).
Proof.
  intros Hnever. rewrite run_unfold. cbv zeta. fold (loaded E resume w).
  set (w1 := loaded E resume w).
  destruct (run_loop_settles E Hnever (get_pending_keywords (db w1)) w1)
    as (w' & Hrun & Hk & Hs).
  exists w'. split; [done|]. intros r' Hin.
  assert ((settled (status r') /\ completed_at r' <> None) \/
          (eligible r' = false /\ In r' (keywords (db w1)))) as H.
  { destruct (in_dec Z.eq_dec (keyword_id r')
                (List.map fst (get_pending_keywords (db w1)))) as [Hr|Hr];
      [left; by apply Hs|right].
    destruct (rows_kept_from _ _ _ _ Hk Hin) as (r & Hin1 & Hid & Hsame).
    rewrite Hid in Hr. rewrite (Hsame Hr) in *. split; [|done].
    destruct (eligible r) eqn:Hel; [|done]. exfalso. apply Hr.
    unfold get_pending_keywords. rewrite map_map. cbn [fst].
    apply in_map_iff. exists r. split; [done|].
    apply order_by_id_in, filter_In. done. }
  split; [|exact H].
  destruct H as [[[Hst|Hst] _]|[Hel _]]; try (rewrite Hst; discriminate).
  unfold eligible in Hel. intros Hp. by rewrite Hp in Hel.
Qed.

Lemma X22_uninterrupted_run_leaves_none_pending_witness :
  exists w', run (Sample.quiet_env Sample.corpus3) true
               {| db := Sample.db_mixed; history := [] |} = Some w' /\
    forall r', In r' (keywords (db w')) -> status r' <> pending.
Proof.
  destruct (X22_uninterrupted_run_leaves_none_pending
              (Sample.quiet_env Sample.corpus3) true
              {| db := Sample.db_mixed; history := [] |})
    as (w' & Hrun & H).
  - intros h. reflexivity.
  - exists w'. split; [exact Hrun|]. intros r' Hin. exact (proj1 (H r' Hin)).
Defined.

(* ================================================================== *)
(** * The delay between the requests of a query                        *)
(* ================================================================== *)

Section Pacing.

Variable E : environment.
Hypothesis Hmono : flag_monotone E.

Lemma paced_from_app T s evs1 evs2 :
  paced_from T s (evs1 ++ evs2) =
  paced_from T s evs1 && paced_from T (slept_after s evs1) evs2.
Proof.
  revert s. induction evs1 as [|[| | | |] evs1 IH]; intros s; simpl; try done.
  rewrite IH. by rewrite andb_assoc.
Qed.

Lemma slept_after_app s evs1 evs2 :
  slept_after s (evs1 ++ evs2) = slept_after (slept_after s evs1) evs2.
Proof. revert s. induction evs1 as [|[| | | |] evs1 IH]; intros s; simpl; done. Qed.

(** What [rate_limit] leaves behind: a delay, an offset at or beyond the
    total, or a flag that is set. *)
Lemma rate_limit_paced st w :
  exists rl, history (rate_limit E st w) = history w ++ rl /\
    (forall T b, paced_from T b rl = true) /\
    (forall b, slept_after b rl = true \/ found_total st <= start st \/
               shutdown_requested E (history (rate_limit E st w)) = true).
Proof.
  unfold rate_limit. destruct (start st <? found_total st) eqn:Hlt.
  - unfold read_flag. cbv zeta.
    destruct (shutdown_requested E (history w)) eqn:Hb; cbn [negb].
    + exists [FlagRead true]. split; [done|]. split; [done|].
      intros b. right. right. cbn [emit history]. by apply Hmono.
    + exists [FlagRead false; Sleep]. split; [cbn; by rewrite <- app_assoc|].
      split; [done|]. intros b. by left.
  - apply Z.ltb_ge in Hlt. exists []. split; [by rewrite app_nil_r|].
    split; [done|]. intros b. auto.
Qed.

Lemma committed_found_total kw kid st w ps t :
  found_total (fst (committed E kw kid st w ps t)) =
  if start st =? 0 then Z.min t max_results_per_keyword else found_total st.
Proof. unfold committed. by rewrite commit_page_locals. Qed.

Lemma committed_start kw kid st w ps t :
  start (fst (committed E kw kid st w ps t)) = start st.
Proof. unfold committed. by rewrite commit_page_locals. Qed.

(** The events of a query from the head of its loop to the exit of the
    loop. *)
Lemma continue_keyword_paced kw kid w :
  exists x w1 evs,
    continue_keyword E kw kid initial_locals w = Some (finish_keyword E kw kid (x, w1)) /\
    history w1 = history w ++ evs /\
    forall st1, x = Done st1 -> paced (found_total st1) evs = true.
Proof.
  set (P := fun (st : locals) (w1 : world) =>
    0 <= start st /\
    exists evs, history w1 = history w ++ evs /\
      (start st = 0 -> evs = []) /\
      (0 < start st ->
         paced (found_total st) evs = true /\
         (slept_after true evs = true \/ found_total st <= start st \/
          shutdown_requested E (history w1) = true))).
  set (Q := fun (x : loop_exit) (w1 : world) =>
    exists evs, history w1 = history w ++ evs /\
      forall st1, x = Done st1 -> paced (found_total st1) evs = true).
  assert (forall st w1 evs T,
    P st w1 -> history w1 = history w ++ evs ->
    shutdown_requested E (history w1) = false ->
    T = (if start st =? 0 then T else found_total st) ->
    paced T (evs ++ [FlagRead false; Request kw (start st) (request_size st)]) = true)
    as Hreq.
  { intros st w1 evs T (H0 & evs' & Hh & Hzero & Hpos) Hh' Hflag HT.
    assert (evs' = evs) as -> by (rewrite Hh in Hh'; by apply app_inv_head in Hh').
    unfold paced. rewrite paced_from_app. cbn [paced_from].
    destruct (start st =? 0) eqn:Hs.
    - apply Z.eqb_eq in Hs. rewrite (Hzero Hs). done.
    - apply Z.eqb_neq in Hs. destruct Hpos as [Hp Hd]; [lia|].
      rewrite HT. unfold paced in Hp. rewrite Hp.
      destruct Hd as [->|[Hd|Hd]]; [done| |congruence].
      apply Z.leb_le in Hd. rewrite Hd. by rewrite orb_true_r. }
  destruct (continue_keyword_rule E kw kid P Q) with (st := initial_locals) (w := w)
    as (x & w1 & (evs & Hh & HQ) & Heq).
  - intros st w1 (H0 & evs & Hh & _ & Hpos) Hmax. exists evs. split; [done|].
    intros st1 [= <-]. apply Hpos. unfold max_results_per_keyword in Hmax. lia.
  - intros st w1 x w' HP Hlt Hcase. pose proof HP as (H0 & evs & Hh & Hzero & Hpos).
    apply round_stop_inv in Hcase
      as [(Hflag & -> & ->)|[(_ & msg & _ & -> & ->)|(Hflag & ps & t & _ & _ & -> & ->)]].
    + exists (evs ++ [FlagRead true]). split; [cbn; by rewrite Hh, <- app_assoc|].
      intros st1 [= <-]. unfold paced. rewrite paced_from_app. cbn [paced_from].
      rewrite andb_true_r. destruct (Z.eq_dec (start st) 0) as [Hs|Hs].
      * by rewrite (Hzero Hs).
      * apply Hpos. lia.
    + exists (evs ++ [FlagRead false; Request kw (start st) (request_size st)]).
      split; [|discriminate].
      rewrite (proj1 (follows_asked [] kw st w1)), Hh. by rewrite <- app_assoc.
    + exists (evs ++ [FlagRead false; Request kw (start st) (request_size st)]).
      split.
      { rewrite (proj1 (follows_committed E kw kid st w1 ps t)), Hh.
        by rewrite <- app_assoc. }
      intros st1 [= <-]. apply (Hreq st w1); try done.
      cbn [found_total]. by destruct (start st =? 0).
  - intros st w1 st' w' HP Hlt Hcase. pose proof HP as (H0 & evs & Hh & Hzero & Hpos).
    apply round_next_inv in Hcase as (Hflag & ps & t & _ & Hlen & -> & ->).
    set (c := committed E kw kid st w1 ps t).
    set (st' := advance (Z.of_nat (List.length ps)) (fst c)).
    assert (start st' = start st + Z.of_nat (List.length ps)) as Hst'.
    { unfold st', c, advance. cbn [start]. by rewrite committed_start. }
    assert (found_total st' = found_total (fst c)) as Hft by done.
    unfold batch_size in Hlen.
    destruct (rate_limit_paced st' (snd c)) as (rl & Hrl & Hfree & Hend).
    split; [lia|].
    exists ((evs ++ [FlagRead false; Request kw (start st) (request_size st)]) ++ rl).
    split.
    { rewrite Hrl. unfold c.
      rewrite (proj1 (follows_committed E kw kid st w1 ps t)), Hh.
      by rewrite <- !app_assoc. }
    split; [lia|]. intros _. split.
    + unfold paced. rewrite paced_from_app, Hfree, andb_true_r.
      apply (Hreq st w1); try done. rewrite Hft. unfold c.
      rewrite committed_found_total. by destruct (start st =? 0).
    + rewrite slept_after_app. apply Hend.
  - split; [done|]. exists []. split; [by rewrite app_nil_r|]. split; [done|].
    cbn. lia.
  - exists x, w1, evs. auto.
Qed.

End Pacing.

(** X23.  Where the shutdown flag, once set, stays set, the requests of
    a query that returns are spaced by the delay: each request after the
    first comes after a [Sleep] that follows the request before it, unless
    its offset has reached the total the query returns (the reported total
    capped at 2000), in which case it is sent at once. *)
Theorem X23_requests_are_paced (E : environment) (kw : string) (kid : Z)
    (w : world) :
  flag_monotone E ->
  exists o w' evs, process_keyword E kw kid w = Some (o, w') /\
    history w' = history w ++ evs /\
    forall r, o = Returned r -> paced (res_total_results r) evs = true.
Proof.
  intros Hmono. unfold process_keyword.
  destruct (continue_keyword_paced E Hmono kw kid (begin_keyword E kw kid w))
    as (x & w1 & evs & Heq & Hh & Hp).
  rewrite Heq. destruct x as [st|msg].
  - destruct (finish_done E kw kid st w1) as (r & w' & Hf & _ & Ht & _ & Hh' & _).
    rewrite Hf. exists (Returned r), w'.
    exists ((LogProcessing kw :: evs) ++ [FlagRead (shutdown_requested E (history w1))]).
    split; [done|]. split.
    { rewrite Hh', Hh. cbn. by rewrite <- !app_assoc. }
    intros r' [= <-]. rewrite Ht. unfold paced. rewrite paced_from_app.
    cbn [paced_from]. rewrite andb_true_r. by apply Hp.
  - destruct (finish_failed E kw kid msg w1) as (w' & Hf & Hrest).
    rewrite Hf. exists (Raised msg), w', (LogProcessing kw :: evs).
    split; [done|]. split; [|discriminate].
    apply (f_equal (fun p => history (snd p))) in Hf. cbn [snd] in Hf.
    rewrite <- Hf. unfold finish_keyword. cbn. rewrite Hh. cbn.
    by rewrite <- app_assoc.
Qed.

Lemma X23_requests_are_paced_witness :
  exists o w' evs,
    process_keyword (Sample.quiet_env (Sample.numbered 600)) "graph neural networks" 1
      {| db := Sample.db1; history := [] |} = Some (o, w') /\
    history w' = [] ++ evs /\
    forall r, o = Returned r -> paced (res_total_results r) evs = true.
Proof.
  apply (X23_requests_are_paced (Sample.quiet_env (Sample.numbered 600))
           "graph neural networks" 1 {| db := Sample.db1; history := [] |}).
  intros h h' H. exact H.
Defined.

(** X24.  A full page that brings the offset up to the recorded total
    does not end the query: while the offset is below the ceiling the loop
    goes on, and its next request follows the one before with no delay
    between them. *)
Theorem X24_no_delay_once_total_reached (E : environment) (kw : string) (kid : Z)
    (st : locals) (w : world) (ps : list paper) (t : Z) :
  0 <= start st ->
  shutdown_requested E (history w) = false ->
  answer E kw st w = inl (ps, t) ->
  batch_size <= Z.of_nat (List.length ps) ->
  (if start st =? 0 then Z.min t max_results_per_keyword else found_total st)
    <= start st + Z.of_nat (List.length ps) ->
  start st + Z.of_nat (List.length ps) < max_results_per_keyword ->
  let st' := advance (Z.of_nat (List.length ps)) (fst (committed E kw kid st w ps t)) in
  let w' := snd (committed E kw kid st w ps t) in
  shutdown_requested E (history w') = false ->
  continue_keyword E kw kid st w = continue_keyword E kw kid st' w' /\
  exists more,
    history (round_world (page_round E kw kid st' w')) =
    history w ++ [FlagRead false; Request kw (start st) (request_size st);
                  FlagRead false;
                  Request kw (start st + Z.of_nat (List.length ps)) (request_size st')]
              ++ more.
Proof.
  intros H0 Hflag Hans Hlen Htot Hmax st' w' Hflag'.
  assert (start st' = start st + Z.of_nat (List.length ps)) as Hst'.
  { unfold st', advance. cbn [start]. by rewrite committed_start. }
  assert (page_round E kw kid st w = Next st' w') as Hround.
  { rewrite page_round_answer, Hans by done.
    unfold batch_size in Hlen.
    destruct (Z.of_nat (List.length ps) <? batch_size) eqn:Hl;
      [apply Z.ltb_lt in Hl; unfold batch_size in Hl; lia|].
    fold st' w'. f_equal. unfold rate_limit.
    replace (start st' <? found_total st') with false; [done|].
    symmetry. apply Z.ltb_ge. rewrite Hst'. unfold st'. cbn [advance found_total].
    by rewrite committed_found_total. }
  unfold batch_size in Hlen. split.
  - apply continue_keyword_next; [lia|done].
  - destruct (round_events E kw kid st' w') as (evs & Hh & _ & _ & _ & Hfirst);
      [lia|lia|].
    destruct (Hfirst Hflag') as [more ->]. exists more. rewrite Hh. unfold w'.
    rewrite (proj1 (follows_committed E kw kid st w ps t)), Hst'.
    by rewrite <- app_assoc.
Qed.

Lemma X24_no_delay_once_total_reached_witness :
  exists more,
    history (round_world
      (page_round (Sample.quiet_env (Sample.numbered 500)) "graph neural networks" 1
         (advance 500
            (fst (committed (Sample.quiet_env (Sample.numbered 500))
                    "graph neural networks" 1 initial_locals
                    {| db := Sample.db1; history := [] |}
                    (Sample.papers_of (Sample.numbered 500)) 500)))
         (snd (committed (Sample.quiet_env (Sample.numbered 500))
                 "graph neural networks" 1 initial_locals
                 {| db := Sample.db1; history := [] |}
                 (Sample.papers_of (Sample.numbered 500)) 500)))) =
    [] ++ [FlagRead false; Request "graph neural networks" 0 500;
           FlagRead false; Request "graph neural networks" 500 500] ++ more.
Proof.
  refine (proj2 (X24_no_delay_once_total_reached
            (Sample.quiet_env (Sample.numbered 500)) "graph neural networks" 1
            initial_locals {| db := Sample.db1; history := [] |}
            (Sample.papers_of (Sample.numbered 500)) 500 _ _ _ _ _ _ _)).
  - simpl. lia.
  - reflexivity.
  - vm_compute. reflexivity.
  - vm_compute. discriminate.
  - vm_compute. discriminate.
  - vm_compute. reflexivity.
  - reflexivity.
Defined.

(* ================================================================== *)
(** * The selection of the queries to run, whatever the table order    *)
(* ================================================================== *)

Section Pending.

Lemma insert_by_id_length r l :
  List.length (insert_by_id r l) = S (List.length l).
Proof.
  induction l as [|x l IH]; simpl; [done|].
  destruct (keyword_id r <=? keyword_id x); simpl; [done|]. by rewrite IH.
Qed.

Lemma order_by_id_length l : List.length (order_by_id l) = List.length l.
Proof.
  unfold order_by_id. induction l as [|r l IH]; simpl; [done|].
  by rewrite insert_by_id_length, IH.
Qed.

Lemma eligible_count l :
  List.length (List.filter eligible l) =
  (List.length (List.filter (fun r => status_eqb (status r) pending) l)
   + List.length (List.filter (fun r => status_eqb (status r) failed) l))%nat.
Proof.
  induction l as [|r l IH]; simpl; [done|].
  unfold eligible at 1. destruct (status r); simpl; lia.
Qed.

Lemma sorted_ids l :
  StronglySorted (fun a b => keyword_id a <= keyword_id b) l ->
  StronglySorted Z.le (List.map keyword_id l).
Proof.
  induction 1 as [|x l Hl IH Hx]; simpl; constructor; [done|].
  rewrite List.Forall_forall in *. intros k Hk.
  apply in_map_iff in Hk as (y & <- & Hy). auto.
Qed.

End Pending.

(** X25.  Whatever the order of the rows in the table,
    [get_pending_keywords] returns the (id, keyword) of exactly the rows
    whose status is [pending] or [failed], by non-decreasing id, one entry
    for each such row: their number is the sum of the [pending] and
    [failed] counts of [get_progress_summary]. *)
Theorem X25_pending_selection (d : database) :
  StronglySorted Z.le (List.map fst (get_pending_keywords d)) /\
  (forall kid kw, In (kid, kw) (get_pending_keywords d) <->
     exists r, In r (keywords d) /\ keyword_id r = kid /\ keyword r = kw /\
               (status r = pending \/ status r = failed)) /\
  Z.of_nat (List.length (get_pending_keywords d))
    = count_status pending d + count_status failed d.
Proof.
  unfold get_pending_keywords. split; [|split].
  - rewrite map_map. cbn [fst]. apply sorted_ids, order_by_id_sorted.
  - intros kid kw. rewrite in_map_iff. split.
    + intros (r & [= <- <-] & Hin). apply order_by_id_in, filter_In in Hin as [Hin Hel].
      exists r. repeat (split; [done|]). unfold eligible in Hel.
      destruct (status r); auto; discriminate.
    + intros (r & Hin & <- & <- & Hst). exists r. split; [done|].
      apply order_by_id_in, filter_In. split; [done|]. unfold eligible.
      by destruct Hst as [-> | ->].
  - rewrite length_map, order_by_id_length, eligible_count. unfold count_status. lia.
Qed.

(** X26.  Resuming on a database in which no query is [pending] or
    [failed] does nothing: the run ends at once, with the database as it
    was, without reading the keywords file or the shutdown flag and without
    a request. *)
Theorem X26_resume_with_nothing_to_do (E : environment) (w : world) :
  db_path_exists E = true ->
  (forall r, In r (keywords (db w)) -> status r <> pending /\ status r <> failed) ->
  run E true w = Some w.
Proof.
  intros Hdb Hnone. unfold run, loaded. rewrite Hdb. cbn [negb orb].
  unfold get_pending_keywords. rewrite filter_none; [done|].
  intros r Hin. destruct (Hnone r Hin) as [Hp Hf]. unfold eligible.
  destruct (status r); done.
Qed.

Lemma X26_resume_with_nothing_to_do_witness :
  run (Sample.quiet_env Sample.corpus3) true
    {| db := update_keyword 1 (set_finished completed 7)
               (update_keyword 2 (set_finished interrupted 9) Sample.db1);
       history := [] |}
  = Some {| db := update_keyword 1 (set_finished completed 7)
                    (update_keyword 2 (set_finished interrupted 9) Sample.db1);
            history := [] |}.
Proof.
  apply (X26_resume_with_nothing_to_do (Sample.quiet_env Sample.corpus3)).
  - reflexivity.
  - simpl. intros r [<-|[<-|[]]]; simpl; split; discriminate.
Defined.

(* ================================================================== *)
(** * Entries with a primary category                                  *)
(* ================================================================== *)

Section PrimaryCategory.

Variable E : environment.

Lemma papers_of_entries_primary entries :
  (exists e, In e entries /\ arxiv_primary_category e <> None) ->
  papers_of_entries entries = inr attribute_error.
Proof.
  induction entries as [|e0 rest IH]; intros (e & Hin & Hprim); [done|].
  cbn [papers_of_entries]. unfold paper_of_entry, extract_categories.
  destruct (arxiv_primary_category e0) as [c|] eqn:H0; [done|].
  destruct Hin as [<-|Hin]; [congruence|].
  rewrite IH; [done|]. eauto.
Qed.

Lemma papers_of_entries_plain entries :
  (forall e, In e entries -> arxiv_primary_category e = None) ->
  papers_of_entries entries = inl (List.map (fun e => paper_dict e (tags e)) entries).
Proof.
  induction entries as [|e0 rest IH]; intros H; [done|].
  cbn [papers_of_entries List.map]. unfold paper_of_entry, extract_categories.
  rewrite (H e0) by (by left). cbn [app].
  rewrite filter_all_in by done. rewrite IH; [done|].
  intros e He. apply H. by right.
Qed.

End PrimaryCategory.

(** X4.  Line 180 reads [.term] off [entry.arxiv_primary_category],
    which [feedparser] supplies as a plain dict.  So when the first page of
    a query holds an entry with a primary category, as every entry served
    by arXiv does, [query_arxiv] raises [AttributeError] after its one
    request: no paper and no link is stored, the query ends [failed] with
    the text of that error as its message and its counters as they were,
    and [process_keyword] re-raises.  A page whose entries have no primary
    category gives one paper for each entry, its categories the tags as
    they come. *)
Theorem X4_primary_category_fails_the_query (E : environment) (kw : string)
    (kid : Z) (w : world) (entries : list entry) (t : Z) :
  shutdown_requested E (history (begin_keyword E kw kid w)) = false ->
  urlopen E (history (asking (begin_keyword E kw kid w))) kw 0 batch_size
    = Feed entries t ->
  ((exists e, In e entries /\ arxiv_primary_category e <> None) ->
   exists w',
     process_keyword E kw kid w = Some (Raised attribute_error, w') /\
     history w' = history w ++ [LogProcessing kw; FlagRead false; Request kw 0 batch_size] /\
     papers (db w') = papers (db w) /\
     paper_keywords (db w') = paper_keywords (db w) /\
     forall row, lookup_keyword kid (db w) = Some row ->
       exists row', lookup_keyword kid (db w') = Some row' /\
         status row' = failed /\ error_message row' = Some attribute_error /\
         total_results row' = total_results row /\
         processed_results row' = processed_results row) /\
  ((forall e, In e entries -> arxiv_primary_category e = None) ->
   answer E kw initial_locals (begin_keyword E kw kid w)
   = inl (List.map (fun e => paper_dict e (tags e)) entries, t)).
Proof.
  intros Hflag Hfeed. set (wb := begin_keyword E kw kid w) in *.
  assert (urlopen E (history (asking wb)) kw (start initial_locals)
            (request_size initial_locals) = Feed entries t) as Hfeed' by exact Hfeed.
  split.
  - intros Hprim.
    assert (answer E kw initial_locals wb = inr attribute_error) as Hans.
    { rewrite (answer_feed E kw initial_locals wb entries t Hfeed').
      by rewrite papers_of_entries_primary. }
    pose proof (page_round_answer E kw kid initial_locals wb Hflag) as Hround.
    rewrite Hans in Hround.
    exists (snd (finish_keyword E kw kid
                   (Failed attribute_error, asked kw initial_locals wb))).
    split; [|split; [|split; [done|split; [done|]]]].
    + unfold process_keyword. fold wb.
      by rewrite (continue_keyword_stop E kw kid initial_locals wb _ _ eq_refl Hround).
    + cbn. by rewrite <- !app_assoc.
    + intros row Hrow. rewrite finish_lookup.
      change (db (asked kw initial_locals wb)) with (db wb). unfold wb.
      rewrite begin_lookup, Hrow. eexists. split; [reflexivity|]. done.
  - intros Hplain.
    rewrite (answer_feed E kw initial_locals wb entries t Hfeed').
    by rewrite papers_of_entries_plain.
Qed.

Lemma X4_primary_category_fails_the_query_witness :
  exists w',
    process_keyword (Sample.quiet_env Sample.arxiv3) "graph neural networks" 1
      {| db := Sample.db1; history := [] |} = Some (Raised attribute_error, w') /\
    papers (db w') = papers Sample.db1 /\
    paper_keywords (db w') = paper_keywords Sample.db1.
Proof.
  destruct (X4_primary_category_fails_the_query (Sample.quiet_env Sample.arxiv3)
              "graph neural networks" 1 {| db := Sample.db1; history := [] |}
              Sample.arxiv3 3) as [Hfail _].
  - reflexivity.
  - reflexivity.
  - destruct Hfail as (w' & Hrun & _ & Hp & Hl & _).
    + exists (Sample.arxiv_entry "http://arxiv.org/abs/2101.00001v1").
      split; [by left|discriminate].
    + exists w'. auto.
Defined.
